(** * JV-1080 SysEx codec: a shallow embedding of the address-driven
      parameter codec and the properties of its specification

    The development follows the source files that hold the codec:

    - [jv1080_manager.py]  (modules [Manager], [Queries]): catalog,
      checksum, encoder, catalog queries, mode switch, sending;
    - [sysex_parser.py]    (modules [Parser], [Presets]): framing,
      validation, address index, bulk block decoder of the YAML-driven
      parser, presets made of decoded parameters;
    - [jv1080_parser.py]   (modules [JV], [Names]): the stand-alone
      bulk-dump parser, the patch assembler, file names;
    - [preset_builder.py]  (module [Builder]): the preset builder;
    - [new.py]             (module [New]): the patch assembler of the
      second stand-alone parser.

    Python integers are unbounded, so they are [Z]; a [bytes] buffer and a
    [List[int]] message are both [list Z].  Values read out of the YAML
    catalog with [int(s, 16)] are kept as the integers they denote. *)

From stdpp Require Import gmap strings list pretty.
From Stdlib Require Import ZArith Lia.

Local Open Scope Z_scope.

(** ** Python list primitives *)

Module Py.

(** Exceptions the codec can raise. *)
Inductive exn : Type :=
| ValueError (msg : string)
| IndexError
| TypeError.

Inductive result (A : Type) : Type :=
| Ok (a : A)
| Raise (e : exn).
Arguments Ok {A} a.
Arguments Raise {A} e.

(** Sequencing: an exception propagates. *)
#[global] Instance result_bind : MBind result := fun A B k r =>
  match r with
  | Ok a => k a
  | Raise e => Raise e
  end.
#[global] Instance result_ret : MRet result := fun A a => Ok a.

(** A record handed to the [logging] module: level, format string, and
    the integers interpolated into it. *)
Inductive level : Type := DEBUG | INFO | WARNING.

Definition log_record : Type := level * string * list Z.

#[global] Instance level_eq_dec : EqDecision level.
Proof. solve_decision. Defined.

(** [sum(l)] *)
Definition sum (l : list Z) : Z := foldr Z.add 0 l.

(** Position denoted by a slice bound [i] in a list of length [n]:
    negative bounds count from the end, and everything is clamped. *)
Definition clamp (n : nat) (i : Z) : nat :=
  if i <? 0 then Z.to_nat (Z.max 0 (Z.of_nat n + i))
  else Z.to_nat (Z.min i (Z.of_nat n)).

(** [l[i:j]] *)
Definition slice {A} (i j : Z) (l : list A) : list A :=
  drop (clamp (length l) i) (take (clamp (length l) j) l).

(** [l[i:]] *)
Definition slice_from {A} (i : Z) (l : list A) : list A :=
  drop (clamp (length l) i) l.

(** [l[i]]; [None] stands for [IndexError]. *)
Definition get {A} (l : list A) (i : Z) : option A :=
  if i <? 0 then
    if - i <=? Z.of_nat (length l) then l !! Z.to_nat (Z.of_nat (length l) + i)
    else None
  else l !! Z.to_nat i.

(** An insertion-ordered [dict]: assignment to an existing key keeps the
    key's position and replaces its value. *)
Fixpoint dict_set {K V} `{EqDecision K} (k : K) (v : V) (d : list (K * V))
  : list (K * V) :=
  match d with
  | [] => [(k, v)]
  | (k', v') :: d' =>
      if decide (k' = k) then (k, v) :: d' else (k', v') :: dict_set k v d'
  end.

Fixpoint dict_get {K V} `{EqDecision K} (k : K) (d : list (K * V)) : option V :=
  match d with
  | [] => None
  | (k', v') :: d' => if decide (k' = k) then Some v' else dict_get k d'
  end.

(** [f"{n:02d}"] *)
Definition fmt_02d (n : Z) : string :=
  if (0 <=? n) && (n <? 10) then String.append "0" (pretty n) else pretty n.

End Py.

Import Py.

(** ** jv1080_manager.py *)

Module Manager.

(** One entry of a group's [parameters] list. [param_offset] is
    [int(param['offset_hex'], 16)]; [min], [max] and [type] are optional
    keys of the YAML mapping. *)
Record parameter : Type := {
  param_name : string;
  param_offset : Z;
  param_min : option Z;
  param_max : option Z;
  param_type : option string
}.

(** A parameter group: [address_bytes_1_3_hex] after hex conversion, and
    the ordered parameter list. *)
Record group : Type := {
  address_bytes_1_3 : Z * Z * Z;
  parameters : list parameter
}.

(** [sysex_common_info], after hex conversion. *)
Record common_info : Type := {
  manufacturer_id : Z;
  model_id : Z;
  command_id_dt1 : Z
}.

(** The loaded configuration. [parameter_groups] is
    [config['roland_jv_1080']['sysex_parameter_groups']]; [top_groups] is
    [config.get('sysex_parameter_groups', {})], the top-level mapping the
    bulk-definition helpers of the parser read. Both are mappings in file
    order. *)
Record config : Type := {
  info : common_info;
  parameter_groups : list (string * group);
  top_groups : list (string * group)
}.

#[global] Instance parameter_eq_dec : EqDecision parameter.
Proof. solve_decision. Defined.
#[global] Instance group_eq_dec : EqDecision group.
Proof. solve_decision. Defined.

(** [Union[int, List[int]]] *)
Inductive value : Type :=
| VInt (z : Z)
| VList (l : list Z).

#[global] Instance value_eq_dec : EqDecision value.
Proof. solve_decision. Defined.

(** [_calculate_checksum] *)
Definition _calculate_checksum (data : list Z) : Z :=
  (0x80 - (sum data mod 0x80)) mod 0x80.

(** The first parameter of the group called [parameter_name]. *)
Definition find_parameter (parameter_name : string) (g : group) : option parameter :=
  List.find (fun p => bool_decide (param_name p = parameter_name)) (parameters g).

(** [addr_1_3 + [addr_4]] *)
Definition address_of (g : group) (p : parameter) : list Z :=
  let '(a1, a2, a3) := address_bytes_1_3 g in [a1; a2; a3] ++ [param_offset p].

(** The range check of the [isinstance(value, int)] branch. *)
Definition in_range (p : parameter) (v : Z) : bool :=
  match param_min p, param_max p with
  | Some lo, Some hi => (lo <=? v) && (v <=? hi)
  | _, _ => true
  end.

(** [build_sysex_message]; [device_id] is the integer the hex string
    denotes. *)
Definition build_sysex_message (cfg : config) (group_name parameter_name : string)
    (v : value) (device_id : Z) : result (list Z) :=
  match dict_get group_name (parameter_groups cfg) with
  | None => Raise (ValueError ("Unknown parameter group: " +:+ group_name))
  | Some g =>
      match find_parameter parameter_name g with
      | None =>
          Raise (ValueError ("Unknown parameter: " +:+ parameter_name +:+
                             " in group " +:+ group_name))
      | Some p =>
          let address := address_of g p in
          data ← match v with
                 | VInt z =>
                     if in_range p z then Ok [z]
                     else Raise (ValueError
                            ("Value " +:+ pretty z +:+ " out of range [" +:+
                             pretty (default 0 (param_min p)) +:+ "-" +:+
                             pretty (default 0 (param_max p)) +:+ "] for " +:+
                             parameter_name))
                 | VList l => Ok l
                 end;
          let checksum_data := address ++ data in
          let checksum := _calculate_checksum checksum_data in
          Ok ([0xF0; manufacturer_id (info cfg); device_id; model_id (info cfg);
               command_id_dt1 (info cfg)] ++ address ++ data ++ [checksum; 0xF7])
      end
  end.

End Manager.

(** ** sysex_parser.py *)

Module Parser.

Import Manager.

Record ParsedParameter : Type := {
  group_name : string;
  parameter_name : string;
  value : Manager.value;
  address : list Z;
  raw_message : list Z
}.

#[global] Instance ParsedParameter_eq_dec : EqDecision ParsedParameter.
Proof. solve_decision. Defined.

Definition set_raw_message (message : list Z) (p : ParsedParameter) : ParsedParameter :=
  {| group_name := group_name p; parameter_name := parameter_name p;
     value := value p; address := address p; raw_message := message |}.

(** *** The address index *)

Abbreviation address_key := (Z * Z * Z * Z)%type.
Abbreviation lookup_value := (string * string * parameter)%type.

(** The test that selects the 64-slot expansion of a group. *)
Definition is_expansion_performance (group_name : string) (g : group) : bool :=
  (fst (fst (address_bytes_1_3 g)) =? 0x11)
  && String.prefix "expansion_performance" group_name.

Definition perf_group_name (group_name : string) (performance_slot : Z) : string :=
  group_name +:+ "_perf_" +:+ fmt_02d performance_slot.

(** [_build_address_lookup]: three nested loops that assign into one
    dictionary; a later assignment to the same address replaces the
    earlier one. *)
Definition _build_address_lookup (cfg : config) : gmap address_key lookup_value :=
  foldl (fun (address_lookup : gmap address_key lookup_value) '(group_name, group_info) =>
    let '(b0, b1, b2) := address_bytes_1_3 group_info in
    if is_expansion_performance group_name group_info then
      foldl (fun (address_lookup : gmap address_key lookup_value) (performance_slot : nat) =>
        foldl (fun (address_lookup : gmap address_key lookup_value) param =>
                 <[ (b0, Z.of_nat performance_slot, b2, param_offset param) :=
                    (perf_group_name group_name (Z.of_nat performance_slot),
                     param_name param, param) ]> address_lookup)
              address_lookup (parameters group_info))
        address_lookup (seq 0 64)
    else
      foldl (fun (address_lookup : gmap address_key lookup_value) param =>
               <[ (b0, b1, b2, param_offset param) :=
                  (group_name, param_name param, param) ]> address_lookup)
            address_lookup (parameters group_info))
    ∅ (parameter_groups cfg).

(** *** Framing and validation *)

(** [_validate_roland_header] *)
Definition _validate_roland_header (cfg : config) (message : list Z) : bool :=
  if (length message <? 6)%nat then false
  else bool_decide (Py.get message 0 = Some 0xF0)
       && bool_decide (Py.get message 1 = Some (manufacturer_id (info cfg)))
       && bool_decide (Py.get message 3 = Some (model_id (info cfg)))
       && bool_decide (Py.get message 4 = Some (command_id_dt1 (info cfg))).

(** The local variables of [_extract_sysex_messages], with the warnings
    it hands to the logger. *)
Record framer : Type := {
  messages : list (list Z);
  current_message : list Z;
  in_sysex : bool;
  frame_log : list log_record
}.

Definition framer_init : framer :=
  {| messages := []; current_message := []; in_sysex := false; frame_log := [] |}.

Definition nonempty {A} (l : list A) : bool :=
  match l with [] => false | _ => true end.

(** One iteration of [for byte in data]. *)
Definition frame_step (st : framer) (byte : Z) : framer :=
  if byte =? 0xF0 then
    {| messages := messages st;
       current_message := [byte];
       in_sysex := true;
       frame_log :=
         if in_sysex st && nonempty (current_message st)
         then frame_log st ++ [(WARNING, "Malformed SysEx: F0 found before F7"%string, [])]
         else frame_log st |}
  else if byte =? 0xF7 then
    if in_sysex st then
      {| messages := messages st ++ [current_message st ++ [byte]];
         current_message := [];
         in_sysex := false;
         frame_log := frame_log st |}
    else
      {| messages := messages st;
         current_message := current_message st;
         in_sysex := in_sysex st;
         frame_log := frame_log st
                      ++ [(WARNING, "Malformed SysEx: F7 found without F0"%string, [])] |}
  else if in_sysex st then
    {| messages := messages st;
       current_message := current_message st ++ [byte];
       in_sysex := in_sysex st;
       frame_log := frame_log st |}
  else st.

Definition frame_run (st : framer) (data : list Z) : framer := foldl frame_step st data.

(** [_extract_sysex_messages]: the messages returned, and the log. *)
Definition _extract_sysex_messages_log (data : list Z) : list log_record * list (list Z) :=
  let st := frame_run framer_init data in
  (if in_sysex st && nonempty (current_message st)
   then frame_log st ++ [(WARNING, "Malformed SysEx: Missing F7 at end of data"%string, [])]
   else frame_log st,
   messages st).

Definition _extract_sysex_messages (data : list Z) : list (list Z) :=
  snd (_extract_sysex_messages_log data).

(** [_verify_checksum] *)
Definition _verify_checksum (message : list Z) : bool :=
  if (length message <? 8)%nat then false
  else
    let checksum_data := Py.slice 5 (-2) message in
    let calculated := (0x80 - (sum checksum_data mod 0x80)) mod 0x80 in
    bool_decide (Some calculated = Py.get message (-2)).

(** [parse_sysex_message]: the optional parameter and the log records. *)
Definition parse_sysex_message (cfg : config) (message : list Z)
  : list log_record * option ParsedParameter :=
  if negb (_validate_roland_header cfg message) then
    ([(DEBUG, "Invalid Roland header, skipping message"%string, [])], None)
  else if negb (_verify_checksum message) then
    ([(WARNING, "Invalid checksum in message: "%string, message)], None)
  else if (length message <? 10)%nat then
    ([(DEBUG, "Message too short"%string, [])], None)
  else
    let address := Py.slice 5 9 message in
    let data_bytes := Py.slice 9 (-2) message in
    let found :=
      match address with
      | [a0; a1; a2; a3] => _build_address_lookup cfg !! (a0, a1, a2, a3)
      | _ => None
      end in
    match found with
    | Some (group_name, param_name, param_info) =>
        let value :=
          match data_bytes with
          | [b] => VInt b
          | _ => VList data_bytes
          end in
        ([], Some {| group_name := group_name; parameter_name := param_name;
                     value := value; address := address; raw_message := message |})
    | None => ([(DEBUG, "Unknown address: "%string, address)], None)
    end.

(** *** The bulk block decoder *)

(** The entries of the dictionaries built by the [_get_*_parameter_definitions]
    helpers. *)
Record param_info : Type := {
  info_min : Z;
  info_max : Z;
  info_type : string
}.

Definition param_info_of (param : parameter) : param_info :=
  {| info_min := default 0 (param_min param);
     info_max := default 127 (param_max param);
     info_type := default "unsigned"%string (param_type param) |}.

(** [groups.get(key, {}).get('parameters', [])] *)
Definition group_parameters (key : string) (groups : list (string * group))
  : list parameter :=
  match dict_get key groups with
  | Some g => parameters g
  | None => []
  end.

Definition definitions_of (params : list parameter) : list (string * param_info) :=
  foldl (fun defs param => dict_set (param_name param) (param_info_of param) defs)
        [] params.

(** [_get_common_parameter_definitions]: the group is looked up in the
    top-level mapping of the configuration, and its first 12 entries (the
    name characters) are skipped. *)
Definition _get_common_parameter_definitions (cfg : config) : list (string * param_info) :=
  definitions_of
    (Py.slice_from 12 (group_parameters "expansion_performance_common" (top_groups cfg))).

(** [_get_part_parameter_definitions] *)
Definition _get_part_parameter_definitions (cfg : config) (part_num : Z)
  : list (string * param_info) :=
  definitions_of
    (group_parameters ("expansion_performance_part_" +:+ pretty part_num) (top_groups cfg)).

(** The loop of [_parse_common_bulk_data] and [_parse_part_bulk_data] over
    the enumerated definitions: it stops at the first index beyond the
    data, and applies the signed conversion to fields of type ['signed'].
    [addr i] is the address recorded for index [i]. *)
Fixpoint bulk_fields (group_name : string) (addr : Z -> list Z) (data : list Z)
    (i : nat) (defs : list (string * param_info)) : list ParsedParameter :=
  match defs with
  | [] => []
  | (param_name, param_info) :: defs' =>
      match data !! i with
      | None => []
      | Some raw =>
          let param_value :=
            if bool_decide (info_type param_info = "signed"%string) && (63 <? raw)
            then raw - 128 else raw in
          {| group_name := group_name; parameter_name := param_name;
             value := VInt param_value; address := addr (Z.of_nat i);
             raw_message := [] |}
          :: bulk_fields group_name addr data (S i) defs'
      end
  end.

(** [_parse_common_bulk_data] *)
Definition _parse_common_bulk_data (cfg : config) (perf_slot : Z) (data_bytes : list Z)
  : list ParsedParameter :=
  if (length data_bytes <? 12)%nat then []
  else
    let name_bytes := Py.slice 0 12 data_bytes in
    let group_name := "expansion_performance_common_perf_" +:+ fmt_02d perf_slot in
    let common_data := Py.slice_from 12 data_bytes in
    {| group_name := group_name; parameter_name := "Performance name";
       value := VList name_bytes; address := [0x11; perf_slot; 0x00; 0x00];
       raw_message := [] |}
    :: bulk_fields group_name (fun i => [0x11; perf_slot; 0x00; 0x0C + i])
         common_data 0 (_get_common_parameter_definitions cfg).

(** [_parse_part_bulk_data]. The source enumerates the keys of the
    definitions and reads each key's entry back; the loop here walks the
    entries themselves. *)
Definition _parse_part_bulk_data (cfg : config) (perf_slot part_num : Z)
    (data_bytes : list Z) : list ParsedParameter :=
  let group_name := "expansion_performance_part_" +:+ pretty part_num
                    +:+ "_perf_" +:+ fmt_02d perf_slot in
  bulk_fields group_name (fun i => [0x11; perf_slot; 0x10 + (part_num - 1) * 2; i])
    data_bytes 0 (_get_part_parameter_definitions cfg part_num).

(** The loop shared, word for word, by the patch and rhythm parsers: a
    field is read at its catalog offset when the offset lies below the
    payload length. *)
Fixpoint offset_fields (group_name : string) (base_addr : list Z) (data_bytes : list Z)
    (params : list parameter) : result (list ParsedParameter) :=
  match params with
  | [] => Ok []
  | param :: params' =>
      let off := param_offset param in
      if off <? Z.of_nat (length data_bytes) then
        match Py.get data_bytes off with
        | None => Raise IndexError
        | Some value =>
            rest ← offset_fields group_name base_addr data_bytes params';
            Ok ({| group_name := group_name; parameter_name := param_name param;
                   value := VInt value; address := base_addr ++ [off];
                   raw_message := [] |} :: rest)
        end
      else offset_fields group_name base_addr data_bytes params'
  end.

(** The common body of [_parse_patch_common_bulk_data],
    [_parse_patch_part_bulk_data], [_parse_rhythm_common_bulk_data] and
    [_parse_rhythm_part_bulk_data]. When the catalog has no group
    [group_key], the third address byte is read from the default [[None]]
    and the index is out of range. *)
Definition parse_group_bulk_data (cfg : config) (group_key : string) (perf_slot : Z)
    (data_bytes : list Z) : result (list ParsedParameter) :=
  match dict_get group_key (parameter_groups cfg) with
  | None => Raise IndexError
  | Some group_info =>
      let base_addr := [0x11; perf_slot; snd (address_bytes_1_3 group_info)] in
      offset_fields (group_key +:+ "_perf_" +:+ fmt_02d perf_slot) base_addr data_bytes
        (parameters group_info)
  end.

Definition _parse_patch_common_bulk_data (cfg : config) (perf_slot : Z) (data_bytes : list Z)
  : result (list ParsedParameter) :=
  parse_group_bulk_data cfg "expansion_patch_common" perf_slot data_bytes.

Definition _parse_patch_part_bulk_data (cfg : config) (perf_slot part_num : Z)
    (data_bytes : list Z) : result (list ParsedParameter) :=
  parse_group_bulk_data cfg ("expansion_patch_part_" +:+ pretty part_num) perf_slot data_bytes.

Definition _parse_rhythm_common_bulk_data (cfg : config) (perf_slot : Z) (data_bytes : list Z)
  : result (list ParsedParameter) :=
  parse_group_bulk_data cfg "expansion_rhythm_common" perf_slot data_bytes.

Definition _parse_rhythm_part_bulk_data (cfg : config) (perf_slot part_num : Z)
    (data_bytes : list Z) : result (list ParsedParameter) :=
  parse_group_bulk_data cfg ("expansion_rhythm_part_" +:+ pretty part_num) perf_slot data_bytes.

(** The block a bulk message is routed to. *)
Inductive block : Type :=
| PerformanceCommon
| PerformancePart (part_num : Z)
| PatchCommon
| PatchPart (part_num : Z)
| RhythmCommon
| RhythmPart (part_num : Z).

#[global] Instance block_eq_dec : EqDecision block.
Proof. solve_decision. Defined.

(** The [if]/[elif] chain of [_parse_bulk_data_message] on [part_type],
    in the order of the source. *)
Definition select_block (part_type : Z) : option block :=
  if part_type =? 0x00 then Some PerformanceCommon
  else if bool_decide (part_type ∈ [0x10; 0x12; 0x14; 0x16]) then
    Some (PerformancePart ((part_type - 0x10) / 2 + 1))
  else if part_type =? 0x20 then Some PatchCommon
  else if bool_decide (part_type ∈ [0x22; 0x24; 0x26; 0x28]) then
    Some (PatchPart ((part_type - 0x22) / 2 + 1))
  else if part_type =? 0x60 then Some RhythmCommon
  else if (0x24 <=? part_type) && (part_type <=? 0x62) then
    Some (RhythmPart (part_type - 0x23))
  else None.

Definition parse_block (cfg : config) (perf_slot : Z) (data_bytes : list Z)
    (b : option block) : result (list ParsedParameter) :=
  match b with
  | Some PerformanceCommon => Ok (_parse_common_bulk_data cfg perf_slot data_bytes)
  | Some (PerformancePart part_num) =>
      Ok (_parse_part_bulk_data cfg perf_slot part_num data_bytes)
  | Some PatchCommon => _parse_patch_common_bulk_data cfg perf_slot data_bytes
  | Some (PatchPart part_num) =>
      _parse_patch_part_bulk_data cfg perf_slot part_num data_bytes
  | Some RhythmCommon => _parse_rhythm_common_bulk_data cfg perf_slot data_bytes
  | Some (RhythmPart part_num) =>
      _parse_rhythm_part_bulk_data cfg perf_slot part_num data_bytes
  | None => Ok []
  end.

(** [_parse_bulk_data_message] *)
Definition _parse_bulk_data_message (cfg : config) (message : list Z)
  : list log_record * result (list ParsedParameter) :=
  if negb (_validate_roland_header cfg message) then ([], Ok [])
  else if negb (_verify_checksum message) then
    ([(WARNING, "Invalid checksum in bulk message: "%string, message)], Ok [])
  else if (length message <? 10)%nat then ([], Ok [])
  else
    let data_bytes := Py.slice 9 (-2) message in
    match Py.slice 5 9 message with
    | [addr_space; perf_slot; part_type; offset] =>
        if negb (addr_space =? 0x11) then ([], Ok [])
        else ([], parse_block cfg perf_slot data_bytes (select_block part_type))
    | _ => ([], Raise (ValueError "not enough values to unpack"))
    end.

(** *** Decoding a buffer *)

(** The body of the loop of [parse_sysex_file] for message number [i]:
    the parameters it appends. *)
Definition parse_one (cfg : config) (i : nat) (message : list Z)
  : list log_record * result (list ParsedParameter) :=
  let single :=
    match parse_sysex_message cfg message with
    | (lg, Some param) => (lg, Ok [set_raw_message message param])
    | (lg, None) =>
        (lg ++ [(DEBUG, "Could not parse message "%string, Z.of_nat i :: message)], Ok [])
    end in
  if (10 <=? length message)%nat && bool_decide (Py.get message 5 = Some 0x11) then
    match _parse_bulk_data_message cfg message with
    | (lg, Raise e) => (lg, Raise e)
    | (lg, Ok bulk_params) =>
        if nonempty bulk_params
        then (lg, Ok (set_raw_message message <$> bulk_params))
        else (lg ++ fst single, snd single)
    end
  else single.

(** The loop over the framed messages; an exception ends it. *)
Fixpoint parse_messages (cfg : config) (i : nat) (msgs : list (list Z))
  : list log_record * result (list ParsedParameter) :=
  match msgs with
  | [] => ([], Ok [])
  | message :: msgs' =>
      match parse_one cfg i message with
      | (lg, Raise e) => (lg, Raise e)
      | (lg, Ok ps) =>
          match parse_messages cfg (S i) msgs' with
          | (lg', Raise e) => (lg ++ lg', Raise e)
          | (lg', Ok ps') => (lg ++ lg', Ok (ps ++ ps'))
          end
      end
  end.

(** [parse_sysex_file], from the bytes read from the file on. *)
Definition parse_sysex_file (cfg : config) (data : list Z)
  : list log_record * result (list ParsedParameter) :=
  let '(lg0, messages) := _extract_sysex_messages_log data in
  let found := (INFO, "Found SysEx messages"%string, [Z.of_nat (length messages)]) in
  match parse_messages cfg 0 messages with
  | (lg, Raise e) => (lg0 ++ [found] ++ lg, Raise e)
  | (lg, Ok parsed_parameters) =>
      (lg0 ++ [found] ++ lg
       ++ [(INFO, "Successfully parsed parameters"%string,
            [Z.of_nat (length parsed_parameters)])],
       Ok parsed_parameters)
  end.

End Parser.

(** ** jv1080_parser.py

    The presentation strings of a parameter ([interpreted_value],
    [value_range], and the preset's [category] and [bank] texts copied from
    them) are produced by [_interpret_parameter_value], which never raises
    and feeds no decision of the decoder or the assembler; these fields are
    left out of the records below, as is [patch_index], which no code
    assigns. *)

Module JV.

(** [value: Any]: an integer field, an array field, or the decoded name. *)
Inductive any : Type :=
| VInt (z : Z)
| VList (l : list Z)
| VStr (s : string).

#[global] Instance any_eq_dec : EqDecision any.
Proof. solve_decision. Defined.

Record ParsedParameter : Type := {
  group_name : string;
  parameter_name : string;
  value : any;
  address : list Z;
  raw_message : list Z;
  manufacturer : option Z;
  device_id : option Z;
  model_id : option Z;
  command : option Z
}.

#[global] Instance ParsedParameter_eq_dec : EqDecision ParsedParameter.
Proof. solve_decision. Defined.

Record ParsedPreset : Type := {
  name : string;
  preset_type : string;
  parameters : list ParsedParameter;
  patch_number : option any;
  msb : option Z;
  lsb : option Z;
  pc : option any
}.

#[global] Instance ParsedPreset_eq_dec : EqDecision ParsedPreset.
Proof. solve_decision. Defined.

(** *** Block layouts *)

Inductive data_type : Type := DString | DArray | DInt.

(** The [common_params] table of [_parse_common_block], in source order:
    name, offset, length, data type. *)
Definition common_params : list (string * (Z * Z * data_type)) :=
  [ ("patch_name", (0, 12, DString));
    ("category", (12, 1, DInt));
    ("bank", (13, 1, DInt));
    ("patch_number", (14, 1, DInt));
    ("pcm_bank", (15, 1, DInt));
    ("chorus_send", (17, 1, DInt));
    ("reverb_send", (18, 1, DInt));
    ("output_level", (19, 1, DInt));
    ("lfo1_rate", (20, 1, DInt));
    ("lfo1_delay", (21, 1, DInt));
    ("lfo1_pmd", (22, 1, DInt));
    ("lfo1_amd", (23, 1, DInt));
    ("lfo2_rate", (24, 1, DInt));
    ("lfo2_delay", (25, 1, DInt));
    ("lfo2_dest", (26, 1, DInt));
    ("lfo2_pmd", (27, 1, DInt));
    ("lfo2_amd", (28, 1, DInt));
    ("portamento_switch", (29, 1, DInt));
    ("portamento_time", (30, 1, DInt));
    ("pb_range", (31, 1, DInt));
    ("fine_tune", (32, 1, DInt));
    ("transpose", (33, 1, DInt));
    ("pitch_eg_rate", (34, 4, DArray));
    ("pitch_eg_level", (38, 4, DArray));
    ("filter_eg_rate", (42, 4, DArray));
    ("filter_eg_level", (46, 4, DArray));
    ("amp_eg_rate", (50, 4, DArray));
    ("amp_eg_level", (54, 4, DArray));
    ("filter_cutoff", (58, 1, DInt));
    ("filter_resonance", (59, 1, DInt));
    ("filter_eg_attack_vel", (60, 1, DInt));
    ("filter_eg_release_vel", (61, 1, DInt));
    ("velocity_to_amp_depth", (62, 1, DInt));
    ("key_range_low", (63, 1, DInt));
    ("key_range_high", (64, 1, DInt));
    ("vel_range_low", (65, 1, DInt));
    ("vel_range_high", (66, 1, DInt));
    ("aftertouch_depth", (67, 1, DInt));
    ("key_transpose", (68, 1, DInt));
    ("portamento_curve", (69, 1, DInt)) ]%string.

(** The [tone_params] table of [_parse_tone_block]. *)
Definition tone_params : list (string * (Z * Z * data_type)) :=
  [ ("tone_switch", (0, 1, DInt));
    ("waveform_bank", (1, 1, DInt));
    ("waveform_number", (2, 1, DInt));
    ("coarse_tune", (3, 1, DInt));
    ("fine_tune", (4, 1, DInt));
    ("key_group", (5, 1, DInt));
    ("key_range_low", (6, 1, DInt));
    ("key_range_high", (7, 1, DInt));
    ("vel_range_low", (8, 1, DInt));
    ("vel_range_high", (9, 1, DInt));
    ("output_level", (10, 1, DInt));
    ("pan", (11, 1, DInt));
    ("porta_switch", (12, 1, DInt));
    ("porta_time", (13, 1, DInt));
    ("pitch_eg_rate", (14, 4, DArray));
    ("pitch_eg_level", (18, 4, DArray));
    ("filter_eg_rate", (22, 4, DArray));
    ("filter_eg_level", (26, 4, DArray));
    ("amp_eg_rate", (30, 4, DArray));
    ("amp_eg_level", (34, 4, DArray));
    ("filter_cutoff", (38, 1, DInt));
    ("filter_resonance", (39, 1, DInt));
    ("filter_eg_attack_vel", (40, 1, DInt));
    ("filter_eg_release_vel", (41, 1, DInt));
    ("lfo_pmd_depth", (42, 1, DInt));
    ("lfo_amd_depth", (43, 1, DInt));
    ("lfo_key_sync", (44, 1, DInt));
    ("key_to_level_depth", (45, 1, DInt));
    ("key_num_detune_depth", (46, 1, DInt));
    ("key_follow", (47, 1, DInt));
    ("ams_depth", (48, 1, DInt));
    ("pms_depth", (49, 1, DInt));
    ("pitch_bend_range", (50, 1, DInt));
    ("aftertouch_depth", (51, 1, DInt));
    ("poly_mono_switch", (52, 1, DInt));
    ("unison_detune", (53, 1, DInt));
    ("unison_pan_spread", (54, 1, DInt));
    ("resonance_mod_depth", (55, 1, DInt)) ]%string.

(** [raw.decode("ascii", errors="ignore")]: bytes outside 0..127 are
    dropped. *)
Definition decode_ascii (raw : list Z) : list Ascii.ascii :=
  omap (fun b => if (0 <=? b) && (b <? 128)
                 then Some (Ascii.ascii_of_nat (Z.to_nat b)) else None) raw.

Fixpoint lstrip (chars : list Ascii.ascii) (s : list Ascii.ascii) : list Ascii.ascii :=
  match s with
  | c :: s' => if bool_decide (c ∈ chars) then lstrip chars s' else s
  | [] => []
  end.

Definition rstrip (chars : list Ascii.ascii) (s : list Ascii.ascii) : list Ascii.ascii :=
  reverse (lstrip chars (reverse s)).

Definition NUL : Ascii.ascii := Ascii.ascii_of_nat 0.
Definition SPACE : Ascii.ascii := Ascii.ascii_of_nat 32.

(** The string conversions of the two block parsers. *)
Definition common_string (raw : list Z) : string :=
  String.string_of_list_ascii (lstrip [NUL; SPACE] (rstrip [NUL; SPACE] (decode_ascii raw))).

Definition tone_string (raw : list Z) : string :=
  String.string_of_list_ascii (rstrip [NUL] (decode_ascii raw)).

(** The extraction loop of both block parsers: a field is taken when it
    lies wholly inside the payload. *)
Fixpoint block_fields (to_string : list Z -> string) (group_name : string)
    (payload : list Z) (address raw_message : list Z)
    (table : list (string * (Z * Z * data_type))) : list ParsedParameter :=
  match table with
  | [] => []
  | (param_name, (offset, length_, data_type)) :: table' =>
      let rest := block_fields to_string group_name payload address raw_message table' in
      if offset + length_ <=? Z.of_nat (length payload) then
        let value :=
          match data_type with
          | DString => Some (VStr (to_string (Py.slice offset (offset + length_) payload)))
          | DArray => Some (VList (Py.slice offset (offset + length_) payload))
          | DInt => VInt <$> Py.get payload offset
          end in
        match value with
        | Some value =>
            {| group_name := group_name; parameter_name := param_name; value := value;
               address := address; raw_message := raw_message;
               manufacturer := Py.get raw_message 1; device_id := Py.get raw_message 2;
               model_id := Py.get raw_message 3; command := Py.get raw_message 4 |}
            :: rest
        | None => rest
        end
      else rest
  end.

(** [_parse_common_block] *)
Definition _parse_common_block (payload address raw_message : list Z)
  : list log_record * list ParsedParameter :=
  if (length payload <? 72)%nat then
    ([(WARNING, "Common block payload too short: "%string, [Z.of_nat (length payload)])], [])
  else ([], block_fields common_string "Common" payload address raw_message common_params).

(** [_parse_tone_block] *)
Definition _parse_tone_block (payload address raw_message : list Z)
  : list log_record * list ParsedParameter :=
  if (length payload <? 58)%nat then
    ([(WARNING, "Tone block payload too short: "%string, [Z.of_nat (length payload)])], [])
  else ([], block_fields tone_string "Tone" payload address raw_message tone_params).

Definition set_group_name (g : string) (p : ParsedParameter) : ParsedParameter :=
  {| group_name := g; parameter_name := parameter_name p; value := value p;
     address := address p; raw_message := raw_message p;
     manufacturer := manufacturer p; device_id := device_id p;
     model_id := model_id p; command := command p |}.

(** [_parse_sysex_message] *)
Definition _parse_sysex_message (sysex_msg : list Z)
  : list log_record * list ParsedParameter :=
  if (length sysex_msg <? 8)%nat then ([], [])
  else if negb (bool_decide (Py.slice 0 5 sysex_msg = [0xF0; 0x41; 0x10; 0x6A; 0x12]))
  then ([], [])
  else
    match Py.get sysex_msg 5, Py.get sysex_msg 6, Py.get sysex_msg 7 with
    | Some addr_h, Some addr_m, Some addr_l =>
        let address := [addr_h; addr_m; addr_l] in
        let payload := Py.slice 8 (-1) sysex_msg in
        if negb (bool_decide (addr_h ∈ [0x11; 0x03])) then
          ([(DEBUG, "Skipping non-dump Sysex"%string, address)], [])
        else if (addr_h =? 0x11) && (addr_l =? 0x00) then
          let '(lg, params) := _parse_common_block payload address sysex_msg in
          ((DEBUG, "Parsing Common block for patch"%string, [addr_m]) :: lg, params)
        else if (addr_h =? 0x11) && bool_decide (addr_l ∈ [0x10; 0x12; 0x14; 0x16]) then
          let tone_num := (addr_l - 0x10) / 2 + 1 in
          let '(lg, params) := _parse_tone_block payload address sysex_msg in
          ((DEBUG, "Parsing Tone block for patch"%string, [tone_num; addr_m]) :: lg,
           set_group_name ("Tone" +:+ pretty tone_num) <$> params)
        else if (addr_h =? 0x03) && bool_decide (addr_l ∈ [0x00; 0x10; 0x12; 0x14; 0x16]) then
          let lg := [(DEBUG, "Parsing Temp-Patch msg"%string, address ++ payload)] in
          match payload with
          | param_id :: msb :: lsb :: _ =>
              let value := Z.lor (Z.shiftl msb 7) lsb in
              let group :=
                if addr_l =? 0x00 then "TempCommon"%string
                else "TempTone" +:+ pretty ((addr_l - 0x10) / 2 + 1) in
              (lg, [ {| group_name := group;
                        parameter_name := "param_" +:+ pretty param_id;
                        value := VInt value; address := address;
                        raw_message := sysex_msg;
                        manufacturer := None; device_id := None;
                        model_id := None; command := None |} ])
          | _ => (lg, [])
          end
        else ([(DEBUG, "Unknown block type"%string, address)], [])
    | _, _, _ => ([], [])
    end.

(** *** Decoding a buffer *)

(** The inner loop of [parse_sysex_file]:
    [while end < len(data) and data[end] != 0xF7: end += 1], run over the
    bytes from position [end_] on. *)
Fixpoint find_end (rest : list Z) (end_ : nat) : nat :=
  match rest with
  | [] => end_
  | b :: rest' => if b =? 0xF7 then end_ else find_end rest' (S end_)
  end.

(** The outer loop from index [i]: the messages [data[start:end + 1]] it
    carves out, in order. Every iteration advances [i], so [fuel] bounds
    the iterations left. *)
Fixpoint scan (fuel : nat) (data : list Z) (i : nat) : list (list Z) :=
  match fuel with
  | O => []
  | S fuel' =>
      match data !! i with
      | None => []
      | Some b =>
          if negb (b =? 0xF0) then scan fuel' data (S i)
          else
            let start := i in
            let end_ := find_end (drop (start + 1) data) (start + 1) in
            if (length data <=? end_)%nat then []
            else Py.slice (Z.of_nat start) (Z.of_nat end_ + 1) data
                 :: scan fuel' data (end_ + 1)
      end
  end.

(** The messages [parse_sysex_file] hands to [_parse_sysex_message]. *)
Definition sysex_messages (data : list Z) : list (list Z) :=
  scan (length data) data 0.

(** [parameters.extend(msg_params)] over the carved messages. *)
Fixpoint parse_all (msgs : list (list Z)) : list log_record * list ParsedParameter :=
  match msgs with
  | [] => ([], [])
  | sysex_msg :: msgs' =>
      let '(lg, msg_params) := _parse_sysex_message sysex_msg in
      let '(lg', parameters) := parse_all msgs' in
      (lg ++ lg', msg_params ++ parameters)
  end.

(** [parse_sysex_file], from the bytes read from the file on. *)
Definition parse_sysex_file (data : list Z) : list log_record * list ParsedParameter :=
  let msgs := sysex_messages data in
  let '(lg, parameters) := parse_all msgs in
  ([(INFO, "Loaded bytes"%string, [Z.of_nat (length data)])] ++ lg
   ++ [(INFO, "Processed SysEx messages, found parameters"%string,
        [Z.of_nat (length msgs); Z.of_nat (length parameters)])],
   parameters).

(** *** The patch assembler *)

(** [str(value)] *)
Definition str (v : any) : string :=
  match v with
  | VStr s => s
  | VInt z => pretty z
  | VList l => "[" +:+ String.concat ", " (pretty <$> l) +:+ "]"
  end.

Definition is_common (param : ParsedParameter) (pname : string) : bool :=
  bool_decide (group_name param = "Common"%string)
  && bool_decide (parameter_name param = pname).

(** The preset created for a patch key seen for the first time. *)
Definition new_preset (param : ParsedParameter) : ParsedPreset :=
  {| name := if is_common param "patch_name" then str (value param) else "Unknown"%string;
     preset_type := "JV-1080 Patch";
     parameters := [];
     patch_number := None; msb := None; lsb := None; pc := None |}.

(** Appending [param] to its preset and updating the preset's metadata. *)
Definition record_param (param : ParsedParameter) (preset : ParsedPreset) : ParsedPreset :=
  {| name := if is_common param "patch_name" then str (value param) else name preset;
     preset_type := preset_type preset;
     parameters := parameters preset ++ [param];
     patch_number :=
       if is_common param "patch_number" then Some (value param) else patch_number preset;
     msb := msb preset; lsb := lsb preset; pc := pc preset |}.

(** One iteration of the first loop of [group_parameters_into_patches]
    on the dictionary [patches]. *)
Definition group_step (patches : list (Z * ParsedPreset)) (param : ParsedParameter)
  : result (list (Z * ParsedPreset)) :=
  match Py.get (address param) 1 with
  | None => Raise IndexError
  | Some patch_key =>
      let preset := default (new_preset param) (dict_get patch_key patches) in
      Ok (dict_set patch_key (record_param param preset) patches)
  end.

Fixpoint group_loop (patches : list (Z * ParsedPreset)) (all_params : list ParsedParameter)
  : result (list (Z * ParsedPreset)) :=
  match all_params with
  | [] => Ok patches
  | param :: rest => patches' ← group_step patches param; group_loop patches' rest
  end.

(** The value of the last parameter [pname] of the Common block. *)
Definition last_common (pname : string) (params : list ParsedParameter) : option any :=
  foldl (fun found p => if is_common p pname then Some (value p) else found) None params.

(** The table that derives (MSB, LSB, PC). Comparing a value that is not
    an integer with the bounds 32 and 50 raises [TypeError]. *)
Definition bank_select (bank_val pc_val : option any)
  : result (option Z * option Z * option any) :=
  match bank_val, pc_val with
  | Some bank, Some pc_val =>
      match bank with
      | VInt bank_val =>
          if bank_val =? 0 then Ok (Some 80, Some 0, Some pc_val)
          else if bank_val =? 1 then Ok (Some 80, Some 1, Some pc_val)
          else if bank_val =? 2 then Ok (Some 80, Some 2, Some pc_val)
          else if bank_val =? 3 then Ok (Some 80, Some 3, Some pc_val)
          else if bank_val =? 4 then Ok (Some 87, Some 0, Some pc_val)
          else if bank_val =? 5 then Ok (Some 86, Some 0, Some pc_val)
          else if (32 <=? bank_val) && (bank_val <=? 50)
               then Ok (Some 89, Some (bank_val - 32), Some pc_val)
          else Ok (None, None, Some pc_val)
      | _ => Raise TypeError
      end
  | _, _ => Ok (None, None, pc_val)
  end.

(** The body of the second loop. *)
Definition assign_bank_select (preset : ParsedPreset) : result ParsedPreset :=
  let bank_val := last_common "bank" (parameters preset) in
  let pc_val := last_common "patch_number" (parameters preset) in
  '(m, l, p) ← bank_select bank_val pc_val;
  Ok {| name := name preset; preset_type := preset_type preset;
        parameters := parameters preset; patch_number := patch_number preset;
        msb := m; lsb := l; pc := p |}.

Fixpoint assign_all (presets : list ParsedPreset) : result (list ParsedPreset) :=
  match presets with
  | [] => Ok []
  | preset :: rest =>
      preset' ← assign_bank_select preset;
      rest' ← assign_all rest;
      Ok (preset' :: rest')
  end.

(** [group_parameters_into_patches] *)
Definition group_parameters_into_patches (all_params : list ParsedParameter)
  : result (list ParsedPreset) :=
  patches ← group_loop [] all_params;
  assign_all (snd <$> patches).

End JV.

(** ** jv1080_manager.py: catalog queries, mode switch and sending *)

Module Queries.

Import Manager.

(** [get_parameter_info] *)
Definition get_parameter_info (cfg : config) (group_name parameter_name : string)
  : option parameter :=
  match dict_get group_name (parameter_groups cfg) with
  | None => None
  | Some g => find_parameter parameter_name g
  end.

(** [list_parameter_groups] *)
Definition list_parameter_groups (cfg : config) : list string :=
  (parameter_groups cfg).*1.

(** [list_parameters] *)
Definition list_parameters (cfg : config) (group_name : string) : list string :=
  match dict_get group_name (parameter_groups cfg) with
  | None => []
  | Some g => param_name <$> parameters g
  end.





(** [send_parameter]: the message is built and handed to [send_sysex];
    any exception is caught and reported as [False]. The outcome of
    [send_sysex] on a message is the port's and is a parameter here. *)
Definition send_parameter (send_sysex : list Z -> bool) (cfg : config)
    (group_name parameter_name : string) (v : value) (device_id : Z) : bool :=
  match build_sysex_message cfg group_name parameter_name v device_id with
  | Ok message => send_sysex message
  | Raise _ => false
  end.

End Queries.

(** ** sysex_parser.py: presets made of decoded parameters *)

Module Presets.

Import Manager Parser.

Record ParsedPreset : Type := {
  name : string;
  preset_type : string;
  parameters : list ParsedParameter;
  source_file : option string
}.

(** [group_parameters_by_type]: an insertion-ordered dictionary from
    group name to the parameters of that group. *)
Definition group_parameters_by_type (params : list ParsedParameter)
  : list (string * list ParsedParameter) :=
  foldl (fun grouped param =>
           dict_set (group_name param)
                    (default [] (dict_get (group_name param) grouped) ++ [param])
                    grouped)
        [] params.

(** [sub in s] on strings *)
Fixpoint contains (sub s : string) : bool :=
  String.prefix sub s
  || match s with
     | EmptyString => false
     | String _ s' => contains sub s'
     end.

(** [create_preset_from_parameters] *)
Definition create_preset_from_parameters (params : list ParsedParameter)
    (preset_name : string) : ParsedPreset :=
  let group_names := group_name <$> params in
  {| name := preset_name;
     preset_type :=
       if existsb (contains "performance") group_names then "performance"
       else if existsb (contains "patch") group_names then "patch"
       else "unknown";
     parameters := params;
     source_file := None |}.

End Presets.

(** ** preset_builder.py *)

Module Builder.

Import Manager Queries.

Record PresetParameter : Type := {
  group_name : string;
  parameter_name : string;
  value : Manager.value;
  description : option string
}.

#[global] Instance PresetParameter_eq_dec : EqDecision PresetParameter.
Proof. solve_decision. Defined.

Record JV1080Preset : Type := {
  name : string;
  preset_type : string;
  preset_description : string;
  parameters : list PresetParameter;
  tags : list string;
  author : string;
  created_date : string
}.

Inductive level : Type := ERROR | WARNING | INFO.

(** The builder: the preset being built, and the lines handed to the
    logger. *)
Record builder : Type := {
  current_preset : option JV1080Preset;
  log : list (level * string)
}.

Definition say (lv : level) (msg : string) (st : builder) : builder :=
  {| current_preset := current_preset st; log := log st ++ [(lv, msg)] |}.

Definition set_parameters (preset : JV1080Preset) (ps : list PresetParameter)
  : JV1080Preset :=
  {| name := name preset; preset_type := preset_type preset;
     preset_description := preset_description preset; parameters := ps;
     tags := tags preset; author := author preset;
     created_date := created_date preset |}.

Definition store (st : builder) (preset : JV1080Preset) : builder :=
  {| current_preset := Some preset; log := log st |}.

(** [create_new_preset]; [now] is [datetime.now().isoformat()]. *)
Definition create_new_preset (preset_name preset_type description now : string)
    (st : builder) : builder :=
  say INFO ("Created new preset: " +:+ preset_name)
    (store st {| name := preset_name; preset_type := preset_type;
                 preset_description := description; parameters := [];
                 tags := []; author := "Unknown"; created_date := now |}).

(** [str(value)] for the values of a preset *)
Definition str (v : Manager.value) : string :=
  match v with
  | VInt z => pretty z
  | VList l => "[" +:+ String.concat ", " (pretty <$> l) +:+ "]"
  end.

(** The range test of [add_parameter]; a list is not tested. *)
Definition valid_value (param_info : parameter) (v : Manager.value) : bool :=
  match v with
  | VInt z => in_range param_info z
  | VList _ => true
  end.

Definition same_key (G P : string) (p : PresetParameter) : bool :=
  bool_decide (group_name p = G) && bool_decide (parameter_name p = P).

(** The update loop of [add_parameter]: the first stored parameter with
    the key is replaced in place; [None] when there is none. *)
Fixpoint replace_first (G P : string) (new : PresetParameter) (ps : list PresetParameter)
  : option (list PresetParameter) :=
  match ps with
  | [] => None
  | p :: ps' =>
      if same_key G P p then Some (new :: ps')
      else cons p <$> replace_first G P new ps'
  end.

(** [add_parameter] *)
Definition add_parameter (cfg : config) (G P : string) (v : Manager.value)
    (descr : string) (st : builder) : builder * bool :=
  match current_preset st with
  | None => (say ERROR "No current preset. Create a new preset first." st, false)
  | Some preset =>
      match get_parameter_info cfg G P with
      | None => (say ERROR ("Unknown parameter: " +:+ P +:+ " in group " +:+ G) st, false)
      | Some param_info =>
          if negb (valid_value param_info v) then
            (say ERROR ("Value " +:+ str v +:+ " out of range [" +:+
                        pretty (default 0 (param_min param_info)) +:+ "-" +:+
                        pretty (default 0 (param_max param_info)) +:+ "] for " +:+ P) st,
             false)
          else
            let preset_param :=
              {| group_name := G; parameter_name := P; value := v;
                 description := Some descr |} in
            match replace_first G P preset_param (parameters preset) with
            | Some ps =>
                (say INFO ("Updated parameter: " +:+ P)
                   (store st (set_parameters preset ps)), true)
            | None =>
                (say INFO ("Added parameter: " +:+ P +:+ " = " +:+ str v)
                   (store st (set_parameters preset (parameters preset ++ [preset_param]))),
                 true)
            end
      end
  end.

(** The loop of [remove_parameter]: the first stored parameter with the
    key is deleted. *)
Fixpoint delete_first (G P : string) (ps : list PresetParameter)
  : option (list PresetParameter) :=
  match ps with
  | [] => None
  | p :: ps' =>
      if same_key G P p then Some ps' else cons p <$> delete_first G P ps'
  end.

(** [remove_parameter] *)
Definition remove_parameter (G P : string) (st : builder) : builder * bool :=
  match current_preset st with
  | None => (say ERROR "No current preset" st, false)
  | Some preset =>
      match delete_first G P (parameters preset) with
      | Some ps =>
          (say INFO ("Removed parameter: " +:+ P) (store st (set_parameters preset ps)),
           true)
      | None => (say WARNING ("Parameter not found: " +:+ P) st, false)
      end
  end.

(** The loops of [set_performance_name] and [set_efx_parameters]: every
    value is handed to [add_parameter] under the name [prefix] followed by
    its position counted from 1; one failure makes the result [False] and
    does not stop the loop. *)
Fixpoint add_numbered (cfg : config) (G prefix : string) (i : nat) (values : list Z)
    (st : builder) (success : bool) : builder * bool :=
  match values with
  | [] => (st, success)
  | v :: values' =>
      let '(st', ok) := add_parameter cfg G (prefix +:+ pretty (S i)) (VInt v) "" st in
      add_numbered cfg G prefix (S i) values' st' (success && ok)
  end.

(** [name[:12].ljust(12)], on the code points of the name *)
Definition pad_name (chars : list Z) : list Z :=
  take 12 chars ++ replicate (12 - length (take 12 chars)) 32.

(** [set_performance_name]; the name is given by its code points, which
    is what [ord] reads. *)
Definition set_performance_name (cfg : config) (chars : list Z) (st : builder)
  : builder * bool :=
  match current_preset st with
  | None => (say ERROR "No current preset" st, false)
  | Some _ =>
      add_numbered cfg "temp_performance_common" "Performance name " 0 (pad_name chars)
        st true
  end.

(** [set_efx_parameters] *)
Definition set_efx_parameters (cfg : config) (efx_type : Z) (params : list Z)
    (st : builder) : builder * bool :=
  match current_preset st with
  | None => (say ERROR "No current preset" st, false)
  | Some _ =>
      let '(st', ok) :=
        add_parameter cfg "temp_performance_common" "EFX:Type" (VInt efx_type) "" st in
      add_numbered cfg "temp_performance_common" "EFX:Parameter " 0
        (take 12 (params ++ replicate 12 0)) st' ok
  end.

(** [apply_preset_to_jv1080]: the pair [(success_count, total_count)].
    The lines it logs are left out. *)
Definition apply_preset_to_jv1080 (send_sysex : list Z -> bool) (cfg : config)
    (preset : JV1080Preset) (device_id : Z) : nat * nat :=
  (foldl (fun success_count param =>
            if send_parameter send_sysex cfg (group_name param) (parameter_name param)
                 (value param) device_id
            then S success_count else success_count)
         0%nat (parameters preset),
   length (parameters preset)).

End Builder.

(** ** jv1080_parser.py: file names

    A name is held as its bytes. The three substitutions below are the
    regular expressions of the source on ASCII text, which is what the
    decoder produces for a patch name; [\s] and [\w] are read with
    Python's tables for the characters below 128. *)

Module Names.

Definition code (c : Ascii.ascii) : nat := Ascii.nat_of_ascii c.

(** The class of the first substitution: backslash, slash, colon, star,
    question mark, double quote, less, greater, bar. *)
Definition is_reserved (c : Ascii.ascii) : bool :=
  bool_decide (code c ∈ [92; 47; 58; 42; 63; 34; 60; 62; 124]%nat).

(** [\s]: tab, line feed, vertical tab, form feed, carriage return, the
    four separators 28..31, and space. *)
Definition is_space (c : Ascii.ascii) : bool :=
  bool_decide (code c ∈ [9; 10; 11; 12; 13; 28; 29; 30; 31; 32]%nat).

(** [\w]: letters, digits and the underscore. *)
Definition is_word (c : Ascii.ascii) : bool :=
  let n := code c in
  ((48 <=? n) && (n <=? 57) || (65 <=? n) && (n <=? 90)
   || (97 <=? n) && (n <=? 122) || (n =? 95))%nat.

(** The class kept by the third substitution: a word character, a hyphen,
    an underscore or a dot. *)
Definition is_safe (c : Ascii.ascii) : bool :=
  is_word c || bool_decide (code c ∈ [45; 95; 46]%nat).

Definition UNDERSCORE : Ascii.ascii := Ascii.ascii_of_nat 95.
Definition DOT : Ascii.ascii := Ascii.ascii_of_nat 46.

(** The first substitution: every reserved character becomes an
    underscore. *)
Definition replace_reserved (s : list Ascii.ascii) : list Ascii.ascii :=
  (fun c => if is_reserved c then UNDERSCORE else c) <$> s.

(** The second substitution: every maximal run of white space becomes
    one underscore. [in_run] tells that the previous character was white
    space. *)
Fixpoint replace_spaces (in_run : bool) (s : list Ascii.ascii) : list Ascii.ascii :=
  match s with
  | [] => []
  | c :: s' =>
      if is_space c then
        if in_run then replace_spaces true s' else UNDERSCORE :: replace_spaces true s'
      else c :: replace_spaces false s'
  end.

(** The third substitution: every character outside the safe class is
    removed. *)
Definition remove_unsafe (s : list Ascii.ascii) : list Ascii.ascii :=
  List.filter is_safe s.

(** [s.strip(chars)] *)
Definition strip (chars : list Ascii.ascii) (s : list Ascii.ascii) : list Ascii.ascii :=
  JV.lstrip chars (JV.rstrip chars s).

(** [sanitize_filename] *)
Definition sanitize_filename (name : string) : string :=
  let name := replace_reserved (String.list_ascii_of_string name) in
  let name := replace_spaces false name in
  let name := remove_unsafe name in
  let name := strip [DOT; UNDERSCORE] name in
  match name with
  | [] => "untitled"
  | _ => String.string_of_list_ascii name
  end.

End Names.

(** ** new.py: the patch assembler

    The second stand-alone parser of the repository keeps a patch index
    with every parameter and assembles the patches from buckets. *)

Module New.

Record ParsedParameter : Type := {
  group_name : string;
  parameter_name : string;
  value : JV.any;
  address : list Z;
  raw_message : list Z;
  patch_index : Z
}.

Record ParsedPreset : Type := {
  name : string;
  preset_type : string;
  parameters : list ParsedParameter;
  source_file : option string
}.

(** The keys of one bucket, in the order of the dict literal. *)
Definition blocks : list string := ["Common"; "Tone1"; "Tone2"; "Tone3"; "Tone4"]%string.

Definition bucket_dict : Type := list (Z * list (string * list ParsedParameter)).

(** [{i: {"Common": [], "Tone1": [], ...} for i in range(128)}] *)
Definition empty_buckets : bucket_dict :=
  (fun i => (Z.of_nat i, (fun b => (b, [])) <$> blocks)) <$> seq 0 128.

(** One iteration of the first pass. An index within 0..127 is always a
    key of [buckets], so its lookup cannot fail. *)
Definition bucket_step (buckets : bucket_dict) (p : ParsedParameter) : bucket_dict :=
  let idx := patch_index p in
  let block := group_name p in
  if negb ((0 <=? idx) && (idx <? 128)) then buckets
  else
    match dict_get idx buckets with
    | None => buckets
    | Some bucket =>
        match dict_get block bucket with
        | None => buckets
        | Some l => dict_set idx (dict_set block (l ++ [p]) bucket) buckets
        end
    end.

(** [buckets[idx][block]] *)
Definition bucket (buckets : bucket_dict) (idx : Z) (block : string)
  : list ParsedParameter :=
  default [] (dict_get idx buckets ≫= dict_get block).

(** The sort key [(x.group_name, x.parameter_name)] and its order: tuples
    of strings compare component by component, strings by their
    characters. *)
Definition key_lt (x y : ParsedParameter) : bool :=
  match String.compare (group_name x) (group_name y) with
  | Lt => true
  | Gt => false
  | Eq => String.ltb (parameter_name x) (parameter_name y)
  end.

(** [sorted(l, key=...)]: a stable sort. *)
Fixpoint insert (x : ParsedParameter) (l : list ParsedParameter) : list ParsedParameter :=
  match l with
  | [] => [x]
  | y :: l' => if key_lt y x then y :: insert x l' else x :: y :: l'
  end.

Definition sorted (l : list ParsedParameter) : list ParsedParameter := foldr insert [] l.

(** The name loop: the first patch name of the Common block that is a
    string. *)
Fixpoint patch_name (common_list : list ParsedParameter) : string :=
  match common_list with
  | [] => "Unknown"
  | cp :: rest =>
      match value cp with
      | JV.VStr s =>
          if bool_decide (parameter_name cp = "patch_name"%string) then s
          else patch_name rest
      | _ => patch_name rest
      end
  end.

(** One iteration of the second pass: the preset of index [idx], if
    any. *)
Definition assemble (buckets : bucket_dict) (idx : Z) : option ParsedPreset :=
  let common_list := bucket buckets idx "Common" in
  match common_list with
  | [] => None
  | _ =>
      let all_params :=
        common_list ++ bucket buckets idx "Tone1" ++ bucket buckets idx "Tone2"
        ++ bucket buckets idx "Tone3" ++ bucket buckets idx "Tone4" in
      Some {| name := patch_name common_list; preset_type := "patch";
              parameters := sorted all_params; source_file := None |}
  end.

(** [group_parameters_into_patches] *)
Definition group_parameters_into_patches (parameters : list ParsedParameter)
  : list ParsedPreset :=
  let buckets := foldl bucket_step empty_buckets parameters in
  omap (assemble buckets) (Z.of_nat <$> seq 0 128).

End New.

(** ** Fixtures: concrete catalogs and buffers used by the examples *)

Module Fixtures.

Import Manager.

Definition roland : common_info :=
  {| manufacturer_id := 0x41; model_id := 0x6A; command_id_dt1 := 0x12 |}.

Definition name_1 : parameter :=
  {| param_name := "Performance name 1"; param_offset := 0x00;
     param_min := Some 32; param_max := Some 127; param_type := None |}.

Definition efx_type : parameter :=
  {| param_name := "EFX:Type"; param_offset := 0x0C;
     param_min := Some 0; param_max := Some 39; param_type := None |}.

(** A catalog with one plain group and one slot-expanded group. *)
Definition small_cfg : config :=
  {| info := roland;
     parameter_groups :=
       [ ("temp_performance_common"%string,
          {| address_bytes_1_3 := (0x01, 0x00, 0x00); parameters := [name_1; efx_type] |});
         ("expansion_performance_common"%string,
          {| address_bytes_1_3 := (0x11, 0x00, 0x00); parameters := [name_1] |}) ];
     top_groups := [] |}.

Definition panel_mode : parameter :=
  {| param_name := "Panel mode"; param_offset := 0x00;
     param_min := Some 0; param_max := Some 2; param_type := None |}.

(** [small_cfg] with a group at base address 00 00 00. *)
Definition system_cfg : config :=
  {| info := roland;
     parameter_groups :=
       ("system_common"%string,
        {| address_bytes_1_3 := (0x00, 0x00, 0x00); parameters := [panel_mode] |})
       :: parameter_groups small_cfg;
     top_groups := [] |}.

Definition tone_switch : parameter :=
  {| param_name := "Tone switch"; param_offset := 0x00;
     param_min := Some 0; param_max := Some 1; param_type := None |}.

(** Groups of the expansion address space as the generator scripts lay
    them out: patch part 2 at selector 0x24, rhythm part [n] at selector
    [0x23 + (n - 1)]. *)
Definition rhythm_cfg : config :=
  {| info := roland;
     parameter_groups :=
       [ ("expansion_patch_part_2"%string,
          {| address_bytes_1_3 := (0x11, 0x00, 0x24); parameters := [tone_switch] |});
         ("expansion_rhythm_part_2"%string,
          {| address_bytes_1_3 := (0x11, 0x00, 0x24); parameters := [tone_switch] |});
         ("expansion_rhythm_part_63"%string,
          {| address_bytes_1_3 := (0x11, 0x00, 0x61); parameters := [tone_switch] |});
         ("expansion_rhythm_part_64"%string,
          {| address_bytes_1_3 := (0x11, 0x00, 0x62); parameters := [tone_switch] |}) ];
     top_groups := [] |}.

(** Bulk messages for slot 0 with block selectors 0x62 and 0x24. *)
Definition bulk_62 : list Z :=
  [0xF0; 0x41; 0x10; 0x6A; 0x12; 0x11; 0x00; 0x62; 0x00; 0x01; 0x02; 0x0A; 0xF7].

Definition bulk_24 : list Z :=
  [0xF0; 0x41; 0x10; 0x6A; 0x12; 0x11; 0x00; 0x24; 0x00; 0x01; 0x02; 0x48; 0xF7].

Definition coarse_tune : parameter :=
  {| param_name := "Coarse tune"; param_offset := 0x0C;
     param_min := Some 0; param_max := Some 127; param_type := Some "signed"%string |}.

(** A configuration whose top-level mapping defines the performance
    common block: twelve name characters, then one field of type
    ['signed']. *)
Definition signed_cfg : config :=
  {| info := roland;
     parameter_groups := [];
     top_groups :=
       [ ("expansion_performance_common"%string,
          {| address_bytes_1_3 := (0x11, 0x00, 0x00);
             parameters := replicate 12 name_1 ++ [coarse_tune] |}) ] |}.

(** A common-block payload: twelve name bytes and the stored byte 100. *)
Definition signed_payload : list Z :=
  [0x56; 0x69; 0x6E; 0x74; 0x61; 0x67; 0x65; 0x20; 0x20; 0x20; 0x20; 0x20; 100].

(** "Performance name 1 = 65" as sent to device 0x10, to device 0x11,
    and by another manufacturer. *)
Definition msg_dev10 : list Z :=
  [0xF0; 0x41; 0x10; 0x6A; 0x12; 0x01; 0x00; 0x00; 0x00; 65; 62; 0xF7].

Definition msg_dev11 : list Z :=
  [0xF0; 0x41; 0x11; 0x6A; 0x12; 0x01; 0x00; 0x00; 0x00; 65; 62; 0xF7].

Definition msg_other_mfg : list Z :=
  [0xF0; 0x42; 0x10; 0x6A; 0x12; 0x01; 0x00; 0x00; 0x00; 65; 62; 0xF7].

(** The same message with its checksum byte overwritten. *)
Definition msg_bad_checksum : list Z :=
  [0xF0; 0x41; 0x10; 0x6A; 0x12; 0x01; 0x00; 0x00; 0x00; 65; 0; 0xF7].

(** A temp-patch message of the stand-alone parser, for device 0x10 and
    for device 0x11. Its byte at index -2 is 3; the checksum formula over
    bytes 5..-2 gives 122. *)
Definition temp_patch_msg : list Z :=
  [0xF0; 0x41; 0x10; 0x6A; 0x12; 0x03; 0x00; 0x00; 0x01; 0x02; 0x03; 0xF7].

Definition temp_patch_dev11 : list Z :=
  [0xF0; 0x41; 0x11; 0x6A; 0x12; 0x03; 0x00; 0x00; 0x01; 0x02; 0x03; 0xF7].

(** A common block as the stand-alone parser reads it: 72 payload bytes
    after the three address bytes, with the category, the bank and the
    patch number at offsets 12, 13 and 14. *)
Definition common_block (slot category bank patch_number : Z) : list Z :=
  [0xF0; 0x41; 0x10; 0x6A; 0x12; 0x11; slot; 0x00]
  ++ [0x53; 0x74; 0x72; 0x69; 0x6E; 0x67; 0x73; 0x20; 0x20; 0x20; 0x20; 0x20]
  ++ [category; bank; patch_number] ++ replicate 57 0 ++ [0xF7].

(** Category 32 with bank 6, and category 0 with bank 32. *)
Definition category_32_msg : list Z := common_block 0 32 6 5.
Definition bank_32_msg : list Z := common_block 1 0 32 5.

(** A tone-1 block for slot 5 (58 payload bytes), with no common block. *)
Definition tone_block_msg : list Z :=
  [0xF0; 0x41; 0x10; 0x6A; 0x12; 0x11; 0x05; 0x10] ++ replicate 58 1 ++ [0xF7].

(** The parameter decoded from [temp_patch_msg], and the preset the
    assembler makes of it. *)
Definition temp_param : JV.ParsedParameter :=
  {| JV.group_name := "TempCommon"; JV.parameter_name := "param_1";
     JV.value := JV.VInt 259; JV.address := [0x03; 0x00; 0x00];
     JV.raw_message := temp_patch_msg;
     JV.manufacturer := None; JV.device_id := None;
     JV.model_id := None; JV.command := None |}.

Definition temp_preset : JV.ParsedPreset :=
  {| JV.name := "Unknown"; JV.preset_type := "JV-1080 Patch";
     JV.parameters := [temp_param]; JV.patch_number := None;
     JV.msb := None; JV.lsb := None; JV.pc := None |}.

(** The presets assembled from a buffer by the stand-alone pipeline
    (empty when the assembler raises). *)
Definition assembled (data : list Z) : list JV.ParsedPreset :=
  match JV.group_parameters_into_patches (snd (JV.parse_sysex_file data)) with
  | Ok presets => presets
  | Raise _ => []
  end.

Definition first_preset (data : list Z) : JV.ParsedPreset :=
  default temp_preset (head (assembled data)).

(** The buffer of the framing example of the specification. *)
Definition nested_buffer : list Z :=
  [0xF0; 0x01; 0x02; 0xF0; 0x41; 0x10; 0x6A; 0x12; 0x00; 0x00; 0x00; 0x00; 0x65; 0x15; 0xF7].

End Fixtures.

(** ** Vocabulary of the statements

    Definitions the theorems below are stated with: the parts of a wire
    message, the assignments of the address index, and the groupings the
    assembler produces. *)

Import Manager Parser.

(** The data bytes the encoder puts on the wire for a value. *)
Definition data_of (v : Manager.value) : list Z :=
  match v with
  | VInt z => [z]
  | VList l => l
  end.

(** The five header bytes of a message built for [device_id]. *)
Definition header_of (cfg : config) (device_id : Z) : list Z :=
  [0xF0; manufacturer_id (info cfg); device_id; model_id (info cfg);
   command_id_dt1 (info cfg)].

(** The values the encoder takes for parameter [p]: an integer within the
    bounds of [p], or any byte list. *)
Definition accepted (p : parameter) (v : Manager.value) : Prop :=
  match v with
  | VInt z => in_range p z = true
  | VList _ => True
  end.

(** The assignments [address_lookup[k] = v] that [_build_address_lookup]
    performs for one group, in order. *)
Definition group_assignments (gn : string) (g : group)
  : list (address_key * lookup_value) :=
  let '(b0, b1, b2) := address_bytes_1_3 g in
  if is_expansion_performance gn g then
    slot ← seq 0 64;
    (fun p => ((b0, Z.of_nat slot, b2, param_offset p),
               (perf_group_name gn (Z.of_nat slot), param_name p, p))) <$> parameters g
  else
    (fun p => ((b0, b1, b2, param_offset p), (gn, param_name p, p))) <$> parameters g.

(** All assignments of the index construction, in order. *)
Definition index_assignments (cfg : config) : list (address_key * lookup_value) :=
  e ← parameter_groups cfg; group_assignments e.1 e.2.

(** The address of [p] in [g], as a key of the index. *)
Definition key_of (g : group) (p : parameter) : address_key :=
  let '(b0, b1, b2) := address_bytes_1_3 g in (b0, b1, b2, param_offset p).

(** No assignment of the index construction gives the address of [(G, p)]
    to another entry. *)
Definition sole_owner (cfg : config) (G : string) (g : group) (p : parameter) : Prop :=
  Forall (fun kv => kv.1 = key_of g p -> kv.2 = (G, param_name p, p))
         (index_assignments cfg).

(** The value the single-message decoder reports for a data field. *)
Definition value_of_data (data_bytes : list Z) : Manager.value :=
  match data_bytes with
  | [b] => VInt b
  | _ => VList data_bytes
  end.

(** One assignment [address_lookup[k] = v]. *)
Definition assign (m : gmap address_key lookup_value) (kv : address_key * lookup_value)
  : gmap address_key lookup_value := <[kv.1 := kv.2]> m.

(** The group names of the parameters a call returned. *)
Definition group_names (r : result (list ParsedParameter)) : result (list string) :=
  match r with
  | Ok ps => Ok (map group_name ps)
  | Raise e => Raise e
  end.

(** How a stored byte [raw] of a field with definition [info] shows up as
    a parameter value. *)
Definition emitted_as (info : param_info) (raw : Z) (v : Manager.value) : Prop :=
  (info_type info = "signed"%string /\ 63 < raw /\ v = VInt (raw - 128))
  \/ ((info_type info <> "signed"%string \/ raw <= 63) /\ v = VInt raw).

(** The constant [sysex_msg[:5]] is compared with in jv1080_parser.py. *)
Definition roland_signature : list Z := [0xF0; 0x41; 0x10; 0x6A; 0x12].

(** The checksum formula of the decoder over [message[5:-2]]. *)
Definition expected_checksum (message : list Z) : Z :=
  (0x80 - (Py.sum (Py.slice 5 (-2) message) mod 0x80)) mod 0x80.

(** The part of the framer's state that decides which messages come out. *)
Definition frame_core (st : framer) : list (list Z) * list Z * bool :=
  (messages st, current_message st, in_sysex st).

(** The slot a parameter belongs to: [param.address[1]]. *)
Definition slot_of (p : JV.ParsedParameter) : option Z := Py.get (JV.address p) 1.

(** The parameters of slot [k], in decoding order. *)
Definition slot_params (k : Z) (params : list JV.ParsedParameter) : list JV.ParsedParameter :=
  filter (fun p => slot_of p = Some k) params.

(** What the first loop has built after the parameters [seen]. *)
Definition grouped (patches : list (Z * JV.ParsedPreset)) (seen : list JV.ParsedParameter)
  : Prop :=
  NoDup patches.*1
  /\ (forall k, k ∈ patches.*1 <-> exists p, p ∈ seen /\ slot_of p = Some k)
  /\ (forall k preset, dict_get k patches = Some preset ->
                       JV.parameters preset = slot_params k seen).

(** The value a preset stores under a key: that of the first parameter
    with the key. *)
Definition stored (G P : string) (ps : list Builder.PresetParameter)
  : option Manager.value :=
  Builder.value <$> List.find (Builder.same_key G P) ps.

(** The keys of the stored parameters, in order. *)
Definition keys (ps : list Builder.PresetParameter) : list (string * string) :=
  (fun p => (Builder.group_name p, Builder.parameter_name p)) <$> ps.

(** The parameters of the preset being built (none without a preset). *)
Definition params_of (st : Builder.builder) : list Builder.PresetParameter :=
  match Builder.current_preset st with
  | Some preset => Builder.parameters preset
  | None => []
  end.

(** The two tests [add_parameter] makes on its arguments: the catalog
    knows the parameter, and the value passes the range test. *)
Definition addable (cfg : config) (G P : string) (v : Manager.value) : bool :=
  match Queries.get_parameter_info cfg G P with
  | Some param_info => Builder.valid_value param_info v
  | None => false
  end.

(** Every stored parameter passes the tests of [add_parameter]. *)
Definition validated (cfg : config) (ps : list Builder.PresetParameter) : Prop :=
  Forall (fun p => addable cfg (Builder.group_name p) (Builder.parameter_name p)
                     (Builder.value p) = true) ps.

(** The parameter list after [add_parameter] has stored [new] under the
    key [(G, P)]: replaced in place, or appended. *)
Definition upsert (G P : string) (new : Builder.PresetParameter)
    (ps : list Builder.PresetParameter) : list Builder.PresetParameter :=
  match Builder.replace_first G P new ps with
  | Some ps' => ps'
  | None => ps ++ [new]
  end.

(** The name under which the loops of [set_performance_name] and
    [set_efx_parameters] store the value at position [j] (from 0). *)
Definition numbered (prefix : string) (j : nat) : string := prefix +:+ pretty (S j).

(** What the loop of [group_parameters_by_type] has built after the
    parameters [seen]. *)
Definition bucketed (grouped : list (string * list ParsedParameter))
    (seen : list ParsedParameter) : Prop :=
  NoDup grouped.*1
  /\ (forall g, g ∈ grouped.*1 <-> exists p, p ∈ seen /\ group_name p = g)
  /\ (forall g, default [] (dict_get g grouped) = filter (fun p => group_name p = g) seen).

(** [sub in s], said with concatenation. *)
Definition substring_of (sub s : string) : Prop :=
  exists pre post, s = pre +:+ sub +:+ post.

(** A message as the framers are meant to carve it: an F0, a body with
    neither F0 nor F7, and an F7. *)
Definition well_framed (m : list Z) : Prop :=
  exists body, m = 0xF0 :: body ++ [0xF7] /\ (0xF0 ∉ body) /\ (0xF7 ∉ body).

(** [m] occurs in [data] as a run of consecutive bytes. *)
Definition occurs_in (m data : list Z) : Prop := exists pre post, data = pre ++ m ++ post.

(** What the framer holds after the bytes [seen]. *)
Definition framing (st : framer) (seen : list Z) : Prop :=
  (forall m, m ∈ messages st -> well_framed m /\ occurs_in m seen)
  /\ (in_sysex st = true ->
      exists pre body, seen = pre ++ current_message st
                       /\ current_message st = 0xF0 :: body
                       /\ (0xF0 ∉ body) /\ (0xF7 ∉ body))
  /\ (in_sysex st = false -> current_message st = []).

(** Bytes that can travel inside a message: neither F0 nor F7. *)
Definition wire_clean (l : list Z) : Prop := (0xF0 ∉ l) /\ (0xF7 ∉ l).

(** The parameter the patch and rhythm block parsers make of the catalog
    entry [param]: the byte stored at its offset, as it is. *)
Definition group_field (group_name : string) (base_addr data_bytes : list Z)
    (param : parameter) : ParsedParameter :=
  {| group_name := group_name; parameter_name := param_name param;
     value := VInt (default 0 (data_bytes !! Z.to_nat (param_offset param)));
     address := base_addr ++ [param_offset param]; raw_message := [] |}.

(** The parameter the performance block parsers make of the definition
    [(name, info)] and the stored byte [raw]. *)
Definition bulk_field (group_name : string) (address : list Z) (name : string)
    (info : param_info) (raw : Z) : ParsedParameter :=
  {| group_name := group_name; parameter_name := name;
     value := VInt (if bool_decide (info_type info = "signed"%string) && (63 <? raw)
                    then raw - 128 else raw);
     address := address; raw_message := [] |}.

(** The code of a character, as [ord] gives it. *)
Definition ord (c : Ascii.ascii) : Z := Z.of_nat (Ascii.nat_of_ascii c).

(** What the first loop of the assembler keeps for every preset: its name
    is the last patch name of its Common block, its patch number the last
    one of its Common block. *)
Definition labelled (preset : JV.ParsedPreset) : Prop :=
  JV.name preset
  = default "Unknown"%string
      (JV.str <$> JV.last_common "patch_name" (JV.parameters preset))
  /\ JV.patch_number preset = JV.last_common "patch_number" (JV.parameters preset)
  /\ JV.preset_type preset = "JV-1080 Patch"%string.

(** A parameter the assembler can take: its address has a second byte,
    and a Common bank is an integer. *)
Definition assemblable (p : JV.ParsedParameter) : Prop :=
  (2 <= length (JV.address p))%nat
  /\ (JV.is_common p "bank" = true -> exists z, JV.value p = JV.VInt z).

(** The group name the stand-alone decoder gives to a block at address
    [h m l]. *)
Definition block_name (h l : Z) : string :=
  if h =? 0x11 then
    if l =? 0x00 then "Common"%string else "Tone" +:+ pretty ((l - 0x10) / 2 + 1)
  else
    if l =? 0x00 then "TempCommon"%string else "TempTone" +:+ pretty ((l - 0x10) / 2 + 1).

(** The list of slots after one more slot [k] has been met: a slot that
    is new goes to the end. *)
Definition note_slot (keys : list Z) (k : Z) : list Z :=
  if decide (k ∈ keys) then keys else keys ++ [k].

(** The slots of a parameter stream, each once, in the order in which
    they first occur. *)
Definition slot_order (params : list JV.ParsedParameter) : list Z :=
  foldl (fun keys p => match slot_of p with
                       | Some k => note_slot keys k
                       | None => keys
                       end) [] params.

(** A parameter of slot [k1] is decoded before every parameter of slot
    [k2]. *)
Definition first_before (k1 k2 : Z) (params : list JV.ParsedParameter) : Prop :=
  exists n p, params !! n = Some p /\ slot_of p = Some k1
              /\ forall n' q, params !! n' = Some q -> slot_of q = Some k2 -> (n < n')%nat.

(** A preset as built by [add_parameter]. *)
Definition mk (G P : string) (V : Manager.value) (d : string) : Builder.PresetParameter :=
  {| Builder.group_name := G; Builder.parameter_name := P;
     Builder.value := V; Builder.description := Some d |}.

(** Three temp-patch messages: slot 7, slot 2, and slot 7 again. *)
Definition two_slot_buffer : list Z :=
  [0xF0; 0x41; 0x10; 0x6A; 0x12; 0x03; 0x07; 0x00; 0x01; 0x02; 0x03; 0xF7]
  ++ [0xF0; 0x41; 0x10; 0x6A; 0x12; 0x03; 0x02; 0x00; 0x01; 0x02; 0x03; 0xF7]
  ++ [0xF0; 0x41; 0x10; 0x6A; 0x12; 0x03; 0x07; 0x10; 0x04; 0x05; 0x06; 0xF7].

(** A builder on which [create_new_preset] has been called once. *)
Definition started : Builder.builder :=
  Builder.create_new_preset "Strings" "performance" "" "2024-01-01T00:00:00"
    {| Builder.current_preset := None; Builder.log := [] |}.

(** The parameters of [params] that new.py files under index [idx] and
    block [block]. *)
Definition filed (idx : Z) (block : string) (params : list New.ParsedParameter)
  : list New.ParsedParameter :=
  filter (fun p => New.patch_index p = idx /\ New.group_name p = block) params.

(** What the first pass of new.py has built after the parameters
    [seen]. *)
Definition bucketing (buckets : New.bucket_dict) (seen : list New.ParsedParameter) : Prop :=
  forall idx block,
    dict_get idx buckets ≫= dict_get block
    = if bool_decide (0 <= idx < 128 /\ block ∈ New.blocks)
      then Some (filed idx block seen) else None.

(** A parameter as new.py files it: block, name and patch index. *)
Definition new_param (block name : string) (idx : Z) : New.ParsedParameter :=
  {| New.group_name := block; New.parameter_name := name; New.value := JV.VInt 1;
     New.address := [0x10; idx; 0x00]; New.raw_message := []; New.patch_index := idx |}.

(** ** Facts about the list primitives *)

Section PyFacts.

Context {A : Type}.
Implicit Types l a b c : list A.

Lemma clamp_nonneg (n : nat) (i : nat) : Py.clamp n (Z.of_nat i) = Nat.min i n.
Proof. unfold Py.clamp. destruct (Z.ltb_spec (Z.of_nat i) 0); lia. Qed.

Lemma clamp_neg (n : nat) (i : nat) : (0 < i)%nat -> Py.clamp n (- Z.of_nat i) = (n - i)%nat.
Proof. intros. unfold Py.clamp. destruct (Z.ltb_spec (- Z.of_nat i) 0); lia. Qed.

(** [(a ++ b ++ c)[len a : -len c] = b] for a non-empty [c]. *)
Lemma slice_middle a b c :
  (0 < length c)%nat ->
  Py.slice (Z.of_nat (length a)) (- Z.of_nat (length c)) (a ++ b ++ c) = b.
Proof.
  intros Hc. unfold Py.slice.
  rewrite clamp_nonneg, clamp_neg by done.
  rewrite !length_app.
  replace (length a + (length b + length c) - length c)%nat
    with (length a + length b)%nat by lia.
  rewrite Nat.min_l by lia.
  rewrite app_assoc, take_app_length', drop_app_length; [done | by rewrite length_app].
Qed.

(** [(a ++ b ++ c)[len a : len a + len b] = b] *)
Lemma slice_inner a b c :
  Py.slice (Z.of_nat (length a)) (Z.of_nat (length a + length b)) (a ++ b ++ c) = b.
Proof.
  unfold Py.slice. rewrite !clamp_nonneg, !length_app.
  rewrite !Nat.min_l by lia.
  rewrite app_assoc, take_app_length', drop_app_length; [done | by rewrite length_app].
Qed.

(** [(a ++ [x; y])[-2] = x] *)
Lemma get_penultimate a (x y : A) : Py.get (a ++ [x; y]) (-2) = Some x.
Proof.
  unfold Py.get. simpl (_ <? _). cbv iota.
  rewrite length_app. simpl length.
  destruct (Z.leb_spec (- -2) (Z.of_nat (length a + 2))); [|lia].
  replace (Z.to_nat (Z.of_nat (length a + 2) + -2)) with (length a + 0)%nat by lia.
  by rewrite lookup_app_r, Nat.add_0_r, Nat.sub_diag by lia.
Qed.

Lemma get_nonneg l (i : nat) : Py.get l (Z.of_nat i) = l !! i.
Proof.
  unfold Py.get. destruct (Z.ltb_spec (Z.of_nat i) 0); [lia|]. by rewrite Nat2Z.id.
Qed.

End PyFacts.

Lemma sum_app (l1 l2 : list Z) : Py.sum (l1 ++ l2) = Py.sum l1 + Py.sum l2.
Proof. unfold Py.sum. induction l1 as [|x l1 IH]; simpl; [done | rewrite IH; lia]. Qed.

(** ** The encoder and the checksum *)

Lemma address_of_length g p : length (address_of g p) = 4%nat.
Proof. unfold address_of. by destruct (address_bytes_1_3 g) as [[??]?]. Qed.

(** What a successful call of the encoder returns. *)
Lemma build_sysex_message_ok cfg G P V dev msg :
  build_sysex_message cfg G P V dev = Ok msg ->
  exists g p,
    dict_get G (parameter_groups cfg) = Some g /\ find_parameter P g = Some p /\
    accepted p V /\
    msg = header_of cfg dev ++ address_of g p ++ data_of V
          ++ [_calculate_checksum (address_of g p ++ data_of V); 0xF7].
Proof.
  unfold build_sysex_message. intros H.
  destruct (dict_get G (parameter_groups cfg)) as [g|] eqn:Hg; [|done].
  destruct (find_parameter P g) as [p|] eqn:Hp; [|done].
  exists g, p. destruct V as [z|l]; simpl in *.
  - destruct (in_range p z) eqn:Hr; simpl in H; [|done].
    injection H as <-. done.
  - injection H as <-. done.
Qed.

(** The encoder succeeds on every catalogued parameter and accepted value. *)
Lemma build_sysex_message_accepted cfg G P V dev g p :
  dict_get G (parameter_groups cfg) = Some g -> find_parameter P g = Some p ->
  accepted p V ->
  build_sysex_message cfg G P V dev
  = Ok (header_of cfg dev ++ address_of g p ++ data_of V
        ++ [_calculate_checksum (address_of g p ++ data_of V); 0xF7]).
Proof.
  intros Hg Hp Ha. unfold build_sysex_message. rewrite Hg, Hp.
  destruct V as [z|l]; simpl in *; [by rewrite Ha | done].
Qed.

Lemma verify_checksum_iff (message : list Z) :
  (8 <= length message)%nat ->
  _verify_checksum message = true <->
  Py.get message (-2)
  = Some ((0x80 - (Py.sum (Py.slice 5 (-2) message) mod 0x80)) mod 0x80).
Proof.
  intros Hlen. unfold _verify_checksum.
  destruct (Nat.ltb_spec (length message) 8); [lia|].
  rewrite bool_decide_eq_true. split; congruence.
Qed.

Lemma verify_checksum_short (message : list Z) :
  (length message < 8)%nat -> _verify_checksum message = false.
Proof.
  intros Hlen. unfold _verify_checksum.
  by destruct (Nat.ltb_spec (length message) 8); [|lia].
Qed.

(** The checksum test on a message of the wire format: five header bytes,
    four address bytes [A], the data [D], a checksum byte and a last byte. *)
Lemma verify_checksum_wire (hdr A D : list Z) (c last : Z) :
  length hdr = 5%nat -> length A = 4%nat ->
  Py.slice 5 (-2) (hdr ++ A ++ D ++ [c; last]) = A ++ D
  /\ Py.get (hdr ++ A ++ D ++ [c; last]) (-2) = Some c
  /\ (_verify_checksum (hdr ++ A ++ D ++ [c; last]) = true <->
      c = (0x80 - (Py.sum (A ++ D) mod 0x80)) mod 0x80).
Proof.
  intros Hh HA.
  assert (Hsl : Py.slice 5 (-2) (hdr ++ A ++ D ++ [c; last]) = A ++ D).
  { rewrite (app_assoc A D). change 5 with (Z.of_nat 5). rewrite <- Hh.
    apply (slice_middle hdr (A ++ D) [c; last]). simpl. lia. }
  assert (Hget : Py.get (hdr ++ A ++ D ++ [c; last]) (-2) = Some c).
  { rewrite (app_assoc A D), app_assoc. apply get_penultimate. }
  split; [done|]. split; [done|].
  rewrite verify_checksum_iff, Hsl, Hget.
  - split; [by intros [= ->] | by intros ->].
  - rewrite !length_app. simpl. lia.
Qed.

(** C2 (as amended). For every catalogued parameter with its 4-byte
    address [A] and every accepted value with data bytes [D], the encoder
    returns the message whose checksum byte is
    [(0x80 - (sum(A ++ D) mod 0x80)) mod 0x80]. The checksum test of the
    decoder accepts a message of at least 8 bytes exactly when its byte at
    index -2 equals that formula over [message[5:-2]], which is [A ++ D]
    for a message carrying [A] and [D]; a message of fewer than 8 bytes
    is rejected whatever its bytes. *)
Theorem checksum_arithmetic :
  (forall cfg G P V dev g p,
      dict_get G (parameter_groups cfg) = Some g -> find_parameter P g = Some p ->
      accepted p V ->
      length (address_of g p) = 4%nat
      /\ build_sysex_message cfg G P V dev
         = Ok (header_of cfg dev ++ address_of g p ++ data_of V
               ++ [(0x80 - (Py.sum (address_of g p ++ data_of V) mod 0x80)) mod 0x80; 0xF7]))
  /\ (forall cfg G P V dev msg,
        build_sysex_message cfg G P V dev = Ok msg ->
        exists A,
          length A = 4%nat /\
          msg = header_of cfg dev ++ A ++ data_of V
                ++ [(0x80 - (Py.sum (A ++ data_of V) mod 0x80)) mod 0x80; 0xF7])
  /\ (forall message,
        (8 <= length message)%nat ->
        _verify_checksum message = true <->
        Py.get message (-2)
        = Some ((0x80 - (Py.sum (Py.slice 5 (-2) message) mod 0x80)) mod 0x80))
  /\ (forall message, (length message < 8)%nat -> _verify_checksum message = false)
  /\ (forall (hdr A D : list Z) (c last : Z),
        length hdr = 5%nat -> length A = 4%nat ->
        Py.slice 5 (-2) (hdr ++ A ++ D ++ [c; last]) = A ++ D
        /\ Py.get (hdr ++ A ++ D ++ [c; last]) (-2) = Some c
        /\ (_verify_checksum (hdr ++ A ++ D ++ [c; last]) = true <->
            c = (0x80 - (Py.sum (A ++ D) mod 0x80)) mod 0x80)).
Proof.
  split; [|split; [|split; [|split]]].
  - intros cfg G P V dev g p Hg Hp Ha. split; [apply address_of_length|].
    by apply build_sysex_message_accepted.
  - intros cfg G P V dev msg H.
    destruct (build_sysex_message_ok _ _ _ _ _ _ H) as (g & p & _ & _ & _ & ->).
    exists (address_of g p). split; [apply address_of_length | done].
  - apply verify_checksum_iff.
  - apply verify_checksum_short.
  - apply verify_checksum_wire.
Qed.

Lemma checksum_arithmetic_witness :
  (build_sysex_message Fixtures.small_cfg "temp_performance_common" "Performance name 1"
     (VInt 65) 0x10
   = Ok [0xF0; 0x41; 0x10; 0x6A; 0x12; 0x01; 0x00; 0x00; 0x00; 65; 62; 0xF7])
  /\ (_verify_checksum [0xF0; 0x41; 0x10; 0x6A; 0x12; 0x01; 0x00; 0x00; 0x00; 65; 62; 0xF7]
      = true)
  /\ (_verify_checksum [0xF0; 0x41; 0x10; 0x6A; 0x12; 0x01; 0x00; 0x00; 0x00; 65; 63; 0xF7]
      = true <-> 63 = (0x80 - (Py.sum ([0x01; 0x00; 0x00; 0x00] ++ [65]) mod 0x80)) mod 0x80)
  /\ _verify_checksum [0xF0; 0x41; 0x10; 0x6A; 0x12; 0x00; 0xF7] = false.
Proof.
  destruct checksum_arithmetic as (Henc & _ & Hdec & Hshort & Hwire).
  split; [|split; [|split]].
  - destruct (Henc Fixtures.small_cfg "temp_performance_common"%string
                "Performance name 1"%string (VInt 65) 0x10
                {| address_bytes_1_3 := (0x01, 0x00, 0x00);
                   parameters := [Fixtures.name_1; Fixtures.efx_type] |} Fixtures.name_1)
      as [_ Hmsg]; [reflexivity | reflexivity | reflexivity |].
    rewrite Hmsg. reflexivity.
  - apply (Hdec [0xF0; 0x41; 0x10; 0x6A; 0x12; 0x01; 0x00; 0x00; 0x00; 65; 62; 0xF7]).
    + simpl. lia.
    + reflexivity.
  - apply (Hwire [0xF0; 0x41; 0x10; 0x6A; 0x12] [0x01; 0x00; 0x00; 0x00] [65] 63 0xF7);
      reflexivity.
  - apply (Hshort [0xF0; 0x41; 0x10; 0x6A; 0x12; 0x00; 0xF7]). simpl. lia.
Defined.

(** C2, as stated, fails on a framed message without room for an address:
    the byte at index -2 of [F0 00 F7] equals the formula over the empty
    slice [5:-2], and the checksum test rejects the message all the
    same. *)
Lemma verify_checksum_guard_example :
  _extract_sysex_messages [0xF0; 0x00; 0xF7] = [[0xF0; 0x00; 0xF7]]
  /\ Py.get [0xF0; 0x00; 0xF7] (-2)
     = Some ((0x80 - (Py.sum (Py.slice 5 (-2) [0xF0; 0x00; 0xF7]) mod 0x80)) mod 0x80)
  /\ _verify_checksum [0xF0; 0x00; 0xF7] = false.
Proof. by vm_compute. Qed.

(** ** The address index and the encode/decode round trip *)

Lemma foldl_bind {A B C} (f : A -> B -> A) (g : C -> list B) (l : list C) (a : A) :
  foldl f a (l ≫= g) = foldl (fun a x => foldl f a (g x)) a l.
Proof.
  revert a. induction l as [|x l IH]; intros a; [done|].
  rewrite bind_cons, foldl_app. apply IH.
Qed.

Lemma foldl_ext_in {A B} (f g : A -> B -> A) (l : list B) (a : A) :
  (forall a x, f a x = g a x) -> foldl f a l = foldl g a l.
Proof.
  intros Hfg. revert a. induction l as [|x l IH]; intros a; simpl; [done|].
  by rewrite Hfg, IH.
Qed.

Lemma build_address_lookup_assignments cfg :
  _build_address_lookup cfg = foldl assign ∅ (index_assignments cfg).
Proof.
  unfold _build_address_lookup, index_assignments.
  rewrite foldl_bind. apply foldl_ext_in. intros m [gn g]. cbn [fst snd].
  unfold group_assignments. destruct (address_bytes_1_3 g) as [[b0 b1] b2].
  destruct (is_expansion_performance gn g).
  - rewrite foldl_bind. apply foldl_ext_in. intros m' slot.
    by rewrite foldl_fmap.
  - by rewrite foldl_fmap.
Qed.

(** Reading an address back from the index when every assignment to it
    carries the same value. *)
Lemma lookup_foldl_assign (l : list (address_key * lookup_value)) m k v :
  (k, v) ∈ l ->
  Forall (fun kv => kv.1 = k -> kv.2 = v) l ->
  foldl assign m l !! k = Some v.
Proof.
  induction l as [|[k' v'] l IH] using rev_ind; intros Hin Hall.
  - by apply elem_of_nil in Hin.
  - rewrite foldl_app. simpl. unfold assign at 1. simpl.
    apply Forall_app in Hall as [Hl Hx].
    destruct (decide (k' = k)) as [->|Hne].
    + rewrite Forall_singleton in Hx. simpl in Hx. rewrite (Hx eq_refl).
      apply lookup_insert_eq.
    + rewrite lookup_insert_ne by done. apply IH; [|done].
      apply elem_of_app in Hin as [Hin|Hin]; [done|].
      apply list_elem_of_singleton in Hin. congruence.
Qed.

Lemma dict_get_elem_of {K V} `{EqDecision K} (k : K) (v : V) (d : list (K * V)) :
  dict_get k d = Some v -> (k, v) ∈ d.
Proof.
  induction d as [|[k' v'] d IH]; simpl; [done|].
  destruct (decide (k' = k)) as [->|]; intros H.
  - injection H as ->. apply list_elem_of_here.
  - apply list_elem_of_further, IH, H.
Qed.

Lemma find_parameter_Some P g p :
  find_parameter P g = Some p -> p ∈ parameters g /\ param_name p = P.
Proof.
  unfold find_parameter. intros H. apply find_some in H as [Hin Hn].
  split; [by apply list_elem_of_In | by apply bool_decide_eq_true in Hn].
Qed.

(** The entry of a plain group is among the assignments of the index. *)
Lemma plain_entry_assigned cfg G g p :
  (G, g) ∈ parameter_groups cfg -> p ∈ parameters g ->
  is_expansion_performance G g = false ->
  (key_of g p, (G, param_name p, p)) ∈ index_assignments cfg.
Proof.
  intros Hg Hp Hexp. unfold index_assignments.
  apply list_elem_of_bind. exists (G, g). split; [|done]. simpl.
  unfold group_assignments, key_of.
  destruct (address_bytes_1_3 g) as [[b0 b1] b2]. rewrite Hexp.
  apply list_elem_of_fmap. by exists p.
Qed.

(** Decoding a well-formed wire message whose address is in the index. *)
Lemma parse_sysex_message_wire cfg dev a0 a1 a2 a3 D G P p :
  _build_address_lookup cfg !! (a0, a1, a2, a3) = Some (G, P, p) ->
  let msg := header_of cfg dev ++ [a0; a1; a2; a3] ++ D
             ++ [_calculate_checksum ([a0; a1; a2; a3] ++ D); 0xF7] in
  parse_sysex_message cfg msg
  = ([], Some {| group_name := G; parameter_name := P; value := value_of_data D;
                 address := [a0; a1; a2; a3]; raw_message := msg |}).
Proof.
  intros Hlk msg.
  set (cs := _calculate_checksum ([a0; a1; a2; a3] ++ D)) in *.
  assert (Hlen : length msg = (11 + length D)%nat).
  { unfold msg, header_of. simpl. rewrite length_app. simpl. lia. }
  assert (Hsl1 : Py.slice 5 (-2) msg = [a0; a1; a2; a3] ++ D).
  { unfold msg. rewrite (app_assoc [a0; a1; a2; a3] D).
    apply (slice_middle (header_of cfg dev) _ [cs; 0xF7]). simpl. lia. }
  assert (Hsl2 : Py.slice 9 (-2) msg = D).
  { unfold msg. rewrite (app_assoc (header_of cfg dev)).
    apply (slice_middle (header_of cfg dev ++ [a0; a1; a2; a3]) D [cs; 0xF7]).
    simpl. lia. }
  assert (Hsl3 : Py.slice 5 9 msg = [a0; a1; a2; a3]).
  { unfold msg. apply (slice_inner (header_of cfg dev) [a0; a1; a2; a3]). }
  assert (Hget : Py.get msg (-2) = Some cs).
  { unfold msg. rewrite (app_assoc [a0; a1; a2; a3] D), app_assoc.
    apply get_penultimate. }
  unfold parse_sysex_message.
  assert (Hhdr : _validate_roland_header cfg msg = true).
  { unfold _validate_roland_header. rewrite Hlen. simpl (_ <? _)%nat. cbv iota.
    unfold msg, header_of. simpl. by rewrite !bool_decide_eq_true_2. }
  assert (Hck : _verify_checksum msg = true).
  { unfold _verify_checksum. rewrite Hlen. simpl (_ <? _)%nat. cbv iota.
    rewrite Hsl1, Hget. by apply bool_decide_eq_true_2. }
  rewrite Hhdr, Hck. simpl negb. cbv iota.
  rewrite Hlen. simpl (_ <? _)%nat. cbv iota.
  rewrite Hsl2, Hsl3, Hlk. reflexivity.
Qed.

(** ** The bulk block decoder *)

(** C3. The block selection of [_parse_bulk_data_message] looks at the
    selector byte only, and its rhythm branch subtracts 0x23: selector 0x62
    is decoded as rhythm note part 63 (the source comment and the generator
    scripts say 64), selector 0x24 is always patch part 2, selector 0x25 is
    the one decoded as rhythm part 2, and no selector is decoded as rhythm
    part 64. *)
Theorem bulk_selector_resolution :
  select_block 0x62 = Some (RhythmPart 63)
  /\ select_block 0x24 = Some (PatchPart 2)
  /\ select_block 0x25 = Some (RhythmPart 2)
  /\ (forall part_type, select_block part_type <> Some (RhythmPart 64))
  /\ group_names (snd (_parse_bulk_data_message Fixtures.rhythm_cfg Fixtures.bulk_62))
     = Ok ["expansion_rhythm_part_63_perf_00"%string]
  /\ group_names (snd (_parse_bulk_data_message Fixtures.rhythm_cfg Fixtures.bulk_24))
     = Ok ["expansion_patch_part_2_perf_00"%string].
Proof.
  repeat split; try (vm_compute; reflexivity).
  intros part_type. unfold select_block.
  repeat case_match; try discriminate.
  intros [= ?].
  repeat match goal with
         | H : _ && _ = true |- _ => apply andb_true_iff in H as [? ?]
         | H : (_ <=? _) = true |- _ => apply Z.leb_le in H
         end.
  lia.
Qed.

Lemma bulk_fields_elem_of gname addr data defs i p :
  p ∈ bulk_fields gname addr data i defs ->
  exists (j : nat) name info raw,
    defs !! j = Some (name, info) /\ data !! (i + j)%nat = Some raw /\
    address p = addr (Z.of_nat (i + j)) /\ parameter_name p = name /\
    emitted_as info raw (value p).
Proof.
  revert i. induction defs as [|[name info] defs IH]; intros i Hin; simpl in Hin.
  - by apply elem_of_nil in Hin.
  - destruct (data !! i) as [raw|] eqn:Hraw; [|by apply elem_of_nil in Hin].
    apply elem_of_cons in Hin as [->|Hin].
    + exists 0%nat, name, info, raw. rewrite Nat.add_0_r. simpl.
      repeat split; try done. unfold emitted_as.
      destruct (decide (info_type info = "signed"%string)) as [Hs|Hs];
        destruct (Z.ltb_spec 63 raw).
      * left. by rewrite bool_decide_eq_true_2.
      * right. rewrite andb_false_r. split; [right; lia | done].
      * right. rewrite bool_decide_eq_false_2 by done. split; [by left | done].
      * right. rewrite andb_false_r. split; [right; lia | done].
    + destruct (IH _ Hin) as (j & name' & info' & raw' & Hd & Hr & Ha & Hn & He).
      exists (S j), name', info', raw'.
      replace (i + S j)%nat with (S i + j)%nat by lia. done.
Qed.

(** C10. A field of the performance common or part block is
    emitted as its stored byte unless its definition has type ['signed']
    and the byte exceeds 63; in that case the decoder subtracts 128 from
    it. (The name field of the common block is emitted as its 12 bytes.) *)
Theorem signed_fields_conversion cfg perf_slot data p :
  (p ∈ _parse_common_bulk_data cfg perf_slot data ->
   (parameter_name p = "Performance name"%string /\ value p = VList (Py.slice 0 12 data))
   \/ exists (j : nat) name info raw,
        _get_common_parameter_definitions cfg !! j = Some (name, info) /\
        data !! (12 + j)%nat = Some raw /\
        address p = [0x11; perf_slot; 0x00; 0x0C + Z.of_nat j] /\
        parameter_name p = name /\ emitted_as info raw (value p))
  /\ (forall part_num,
        p ∈ _parse_part_bulk_data cfg perf_slot part_num data ->
        exists (j : nat) name info raw,
          _get_part_parameter_definitions cfg part_num !! j = Some (name, info) /\
          data !! j = Some raw /\
          address p = [0x11; perf_slot; 0x10 + (part_num - 1) * 2; Z.of_nat j] /\
          parameter_name p = name /\ emitted_as info raw (value p)).
Proof.
  split.
  - unfold _parse_common_bulk_data.
    destruct (Nat.ltb_spec (length data) 12) as [|Hlen]; [by intros ?%elem_of_nil|].
    intros [->|Hin]%elem_of_cons; [by left|]. right.
    destruct (bulk_fields_elem_of _ _ _ _ _ _ Hin)
      as (j & name & info & raw & Hd & Hr & Ha & Hn & He).
    exists j, name, info, raw. repeat split; try done.
    unfold Py.slice_from in Hr. change 12 with (Z.of_nat 12) in Hr.
    rewrite clamp_nonneg, Nat.min_l, lookup_drop in Hr by lia. done.
  - intros part_num Hin. unfold _parse_part_bulk_data in Hin.
    destruct (bulk_fields_elem_of _ _ _ _ _ _ Hin)
      as (j & name & info & raw & Hd & Hr & Ha & Hn & He).
    by exists j, name, info, raw.
Qed.

Lemma signed_fields_conversion_witness :
  exists p,
    p ∈ _parse_common_bulk_data Fixtures.signed_cfg 0 Fixtures.signed_payload /\
    exists (j : nat) name info raw,
      _get_common_parameter_definitions Fixtures.signed_cfg !! j = Some (name, info) /\
      Fixtures.signed_payload !! (12 + j)%nat = Some raw /\
      address p = [0x11; 0; 0x00; 0x0C + Z.of_nat j] /\
      parameter_name p = name /\ emitted_as info raw (value p).
Proof.
  exists {| group_name := "expansion_performance_common_perf_00";
            parameter_name := "Coarse tune"; value := VInt (-28);
            address := [0x11; 0; 0x00; 0x0C]; raw_message := [] |}.
  assert (Hin : {| group_name := "expansion_performance_common_perf_00";
                   parameter_name := "Coarse tune"; value := VInt (-28);
                   address := [0x11; 0; 0x00; 0x0C]; raw_message := [] |}
                ∈ _parse_common_bulk_data Fixtures.signed_cfg 0 Fixtures.signed_payload).
  { vm_compute. apply list_elem_of_further, list_elem_of_here. }
  split; [exact Hin|].
  destruct (proj1 (signed_fields_conversion Fixtures.signed_cfg 0 Fixtures.signed_payload _)
              Hin) as [[Hn _]|H]; [discriminate Hn | exact H].
Defined.

(** C10, as stated, fails on a field of type ['signed']: the stored byte
    100 is emitted as -28. *)
Lemma signed_fields_counterexample :
  exists p,
    p ∈ _parse_common_bulk_data Fixtures.signed_cfg 0 Fixtures.signed_payload /\
    parameter_name p = "Coarse tune"%string /\
    address p = [0x11; 0; 0x00; 0x0C] /\
    Fixtures.signed_payload !! 12%nat = Some 100 /\
    value p = VInt (-28) /\ value p <> VInt 100.
Proof.
  exists {| group_name := "expansion_performance_common_perf_00";
            parameter_name := "Coarse tune"; value := VInt (-28);
            address := [0x11; 0; 0x00; 0x0C]; raw_message := [] |}.
  split; [vm_compute; apply list_elem_of_further, list_elem_of_here|].
  repeat split; try reflexivity. discriminate.
Qed.

(** ** Validation of single messages *)

Lemma parse_sysex_message_short cfg message :
  (length message < 10)%nat -> snd (parse_sysex_message cfg message) = None.
Proof.
  intros Hlen. unfold parse_sysex_message.
  destruct (_validate_roland_header cfg message); [|done].
  destruct (_verify_checksum message); [|done]. simpl.
  by destruct (Nat.ltb_spec (length message) 10); [|lia].
Qed.

Lemma parse_bulk_data_message_short cfg message :
  (length message < 10)%nat -> snd (_parse_bulk_data_message cfg message) = Ok [].
Proof.
  intros Hlen. unfold _parse_bulk_data_message.
  destruct (_validate_roland_header cfg message); [|done].
  destruct (_verify_checksum message); [|done]. simpl.
  by destruct (Nat.ltb_spec (length message) 10); [|lia].
Qed.

(** A message the single-message decoder rejects, and the bulk decoder
    returns nothing for, adds no parameter and raises nothing. *)
Lemma parse_one_rejected cfg i message :
  snd (parse_sysex_message cfg message) = None ->
  ((10 <= length message)%nat -> snd (_parse_bulk_data_message cfg message) = Ok []) ->
  snd (parse_one cfg i message) = Ok [].
Proof.
  intros Hs Hb. unfold parse_one.
  destruct (parse_sysex_message cfg message) as [lg [p|]]; [done|].
  destruct (Nat.leb_spec 10 (length message)) as [Hlen|]; [|done].
  destruct (bool_decide _); [|done]. simpl.
  specialize (Hb Hlen).
  destruct (_parse_bulk_data_message cfg message) as [lg' [ps|e]]; simpl in *; [|done].
  by injection Hb as ->.
Qed.

(** A framed message shorter than 10 bytes is rejected by the
    single-message decoder and by the bulk decoder, and adds no
    ParsedParameter to the result of decoding a buffer. *)
Lemma short_message_rejected cfg i message :
  (length message < 10)%nat ->
  snd (parse_sysex_message cfg message) = None
  /\ snd (_parse_bulk_data_message cfg message) = Ok []
  /\ snd (parse_one cfg i message) = Ok [].
Proof.
  intros Hlen. split; [|split].
  - by apply parse_sysex_message_short.
  - by apply parse_bulk_data_message_short.
  - apply parse_one_rejected; [by apply parse_sysex_message_short | lia].
Qed.

Lemma short_message_rejected_example :
  snd (parse_sysex_message Fixtures.system_cfg
         [0xF0; 0x41; 0x10; 0x6A; 0x12; 0x00; 0x00; 0x00; 0xF7]) = None
  /\ snd (_parse_bulk_data_message Fixtures.system_cfg
            [0xF0; 0x41; 0x10; 0x6A; 0x12; 0x00; 0x00; 0x00; 0xF7]) = Ok []
  /\ snd (parse_one Fixtures.system_cfg 0
            [0xF0; 0x41; 0x10; 0x6A; 0x12; 0x00; 0x00; 0x00; 0xF7]) = Ok [].
Proof.
  apply (short_message_rejected Fixtures.system_cfg 0%nat
           [0xF0; 0x41; 0x10; 0x6A; 0x12; 0x00; 0x00; 0x00; 0xF7]).
  simpl. lia.
Defined.

(** C7. The length guards of the decoder stop at 10 bytes: the ten-byte
    message F0 41 10 6A 12 00 00 00 00 F7 passes the header test, its byte 8
    serves both as fourth address byte and as checksum, and it is decoded
    to a ParsedParameter with an empty value, although it is shorter than
    the 11 bytes a message needs for header, address, checksum and
    terminator. *)
Theorem ten_byte_message_decoded :
  length [0xF0; 0x41; 0x10; 0x6A; 0x12; 0x00; 0x00; 0x00; 0x00; 0xF7] = 10%nat
  /\ snd (parse_sysex_file Fixtures.system_cfg
            [0xF0; 0x41; 0x10; 0x6A; 0x12; 0x00; 0x00; 0x00; 0x00; 0xF7])
     = Ok [ {| group_name := "system_common"; parameter_name := "Panel mode";
               value := VList []; address := [0x00; 0x00; 0x00; 0x00];
               raw_message := [0xF0; 0x41; 0x10; 0x6A; 0x12; 0x00; 0x00; 0x00; 0x00; 0xF7] |} ].
Proof. split; [reflexivity | vm_compute; reflexivity]. Qed.

(** ** Header filtering *)

Lemma validate_roland_header_true cfg message :
  _validate_roland_header cfg message = true ->
  message !! 0%nat = Some 0xF0
  /\ message !! 1%nat = Some (manufacturer_id (info cfg))
  /\ message !! 3%nat = Some (model_id (info cfg))
  /\ message !! 4%nat = Some (command_id_dt1 (info cfg)).
Proof.
  unfold _validate_roland_header.
  destruct (length message <? 6)%nat; [done|].
  rewrite !andb_true_iff, !bool_decide_eq_true. unfold Py.get. simpl. tauto.
Qed.

Lemma parse_sysex_message_Some cfg message p :
  snd (parse_sysex_message cfg message) = Some p ->
  _validate_roland_header cfg message = true /\ _verify_checksum message = true
  /\ (10 <= length message)%nat /\ raw_message p = message.
Proof.
  unfold parse_sysex_message.
  destruct (_validate_roland_header cfg message); [|done].
  destruct (_verify_checksum message); [|done]. simpl.
  destruct (Nat.ltb_spec (length message) 10); [done|].
  repeat case_match; simpl; try done.
  all: by intros [= <-].
Qed.

Lemma parse_bulk_data_message_nonempty cfg message ps :
  snd (_parse_bulk_data_message cfg message) = Ok ps -> ps <> [] ->
  _validate_roland_header cfg message = true /\ _verify_checksum message = true
  /\ (10 <= length message)%nat.
Proof.
  unfold _parse_bulk_data_message.
  destruct (_validate_roland_header cfg message); [|by intros [= <-]].
  destruct (_verify_checksum message); [|by intros [= <-]]. simpl.
  destruct (Nat.ltb_spec (length message) 10); [by intros [= <-]|].
  done.
Qed.

(** Every parameter a message contributes carries that message, and the
    message passed the header and checksum tests. *)
Lemma parse_one_elem_of cfg i message ps p :
  snd (parse_one cfg i message) = Ok ps -> p ∈ ps ->
  raw_message p = message /\ _validate_roland_header cfg message = true
  /\ _verify_checksum message = true.
Proof.
  unfold parse_one. intros Hone Hin.
  assert (Hsingle :
            forall ps',
              snd (match parse_sysex_message cfg message with
                   | (lg, Some param) => (lg, Ok [set_raw_message message param])
                   | (lg, None) =>
                       (lg ++ [(DEBUG, "Could not parse message "%string,
                                Z.of_nat i :: message)], Ok [])
                   end) = Ok ps' -> p ∈ ps' ->
              raw_message p = message /\ _validate_roland_header cfg message = true
              /\ _verify_checksum message = true).
  { intros ps'. destruct (parse_sysex_message cfg message) as [lg [q|]] eqn:Hq; simpl.
    - intros [= <-] ->%list_elem_of_singleton.
      pose proof (parse_sysex_message_Some cfg message q) as Hs.
      rewrite Hq in Hs. destruct (Hs eq_refl) as (? & ? & ? & ?). done.
    - intros [= <-] ?%elem_of_nil. done. }
  destruct ((10 <=? length message)%nat && bool_decide (Py.get message 5 = Some 17));
    [|by eapply Hsingle].
  destruct (_parse_bulk_data_message cfg message) as [lg [bulk|e]] eqn:Hb; [|done].
  destruct bulk as [|b bulk]; simpl in Hone; [by eapply Hsingle|].
  injection Hone as <-.
  change (p ∈ set_raw_message message <$> (b :: bulk)) in Hin.
  apply list_elem_of_fmap in Hin as (q & -> & _).
  pose proof (parse_bulk_data_message_nonempty cfg message (b :: bulk)) as Hn.
  rewrite Hb in Hn. destruct (Hn eq_refl) as (? & ? & ?); done.
Qed.

Lemma parse_messages_elem_of cfg msgs : forall i ps p,
  snd (parse_messages cfg i msgs) = Ok ps -> p ∈ ps ->
  raw_message p ∈ msgs /\ _validate_roland_header cfg (raw_message p) = true
  /\ _verify_checksum (raw_message p) = true.
Proof.
  induction msgs as [|m msgs IH]; intros i ps p; simpl.
  - by intros [= <-] ?%elem_of_nil.
  - destruct (parse_one cfg i m) as [lg [ps1|e]] eqn:H1; [|done].
    destruct (parse_messages cfg (S i) msgs) as [lg' [ps2|e]] eqn:H2; [|done].
    simpl. intros [= <-] [Hin|Hin]%elem_of_app.
    + pose proof (parse_one_elem_of cfg i m ps1 p) as Hp. rewrite H1 in Hp.
      destruct (Hp eq_refl Hin) as (-> & ? & ?). split; [apply list_elem_of_here | done].
    + specialize (IH (S i) ps2 p). rewrite H2 in IH.
      destruct (IH eq_refl Hin) as (? & ? & ?). split; [by apply list_elem_of_further | done].
Qed.

Lemma parse_sysex_file_messages cfg data :
  snd (parse_sysex_file cfg data)
  = snd (parse_messages cfg 0 (_extract_sysex_messages data)).
Proof.
  unfold parse_sysex_file, _extract_sysex_messages.
  destruct (_extract_sysex_messages_log data) as [lg0 msgs]. simpl.
  by destruct (parse_messages cfg 0 msgs) as [lg [ps|e]].
Qed.

(** A message that fails the header test adds nothing, raises nothing, and
    leaves only DEBUG records in the log. *)
Lemma parse_one_bad_header cfg i message :
  _validate_roland_header cfg message = false ->
  snd (parse_one cfg i message) = Ok []
  /\ Forall (fun r : log_record => r.1.1 = DEBUG) (fst (parse_one cfg i message)).
Proof.
  intros Hh. unfold parse_one, parse_sysex_message, _parse_bulk_data_message.
  rewrite Hh. simpl.
  destruct (_ && _); simpl; repeat constructor.
Qed.

(** *** The stand-alone parser *)

Lemma block_fields_elem_of to_string gname payload addr raw table p :
  p ∈ JV.block_fields to_string gname payload addr raw table ->
  JV.raw_message p = raw /\ JV.address p = addr /\ JV.group_name p = gname.
Proof.
  induction table as [|[name [[off len] ty]] table IH]; simpl.
  - by intros ?%elem_of_nil.
  - repeat case_match; simplify_eq; try (by apply IH).
    all: by intros [->|Hin]%elem_of_cons; [|apply IH].
Qed.

(** A message whose first five bytes are not F0 41 10 6A 12 is dropped
    without a log record. *)
Lemma jv_parse_sysex_message_bad_header sysex_msg :
  Py.slice 0 5 sysex_msg <> roland_signature ->
  JV._parse_sysex_message sysex_msg = ([], []).
Proof.
  intros Hh. unfold JV._parse_sysex_message.
  destruct (length sysex_msg <? 8)%nat; [done|].
  by rewrite bool_decide_eq_false_2.
Qed.

Lemma jv_common_block_elem_of payload addr raw p :
  p ∈ snd (JV._parse_common_block payload addr raw) -> JV.raw_message p = raw.
Proof.
  unfold JV._parse_common_block.
  destruct (length payload <? 72)%nat; cbn [snd]; [by intros ?%elem_of_nil|].
  by intros (? & ? & ?)%block_fields_elem_of.
Qed.

Lemma jv_tone_block_elem_of payload addr raw p :
  p ∈ snd (JV._parse_tone_block payload addr raw) -> JV.raw_message p = raw.
Proof.
  unfold JV._parse_tone_block.
  destruct (length payload <? 58)%nat; cbn [snd]; [by intros ?%elem_of_nil|].
  by intros (? & ? & ?)%block_fields_elem_of.
Qed.

Lemma jv_parse_sysex_message_elem_of sysex_msg p :
  p ∈ snd (JV._parse_sysex_message sysex_msg) ->
  JV.raw_message p = sysex_msg /\ Py.slice 0 5 sysex_msg = roland_signature
  /\ (8 <= length sysex_msg)%nat.
Proof.
  unfold JV._parse_sysex_message.
  destruct (Nat.ltb_spec (length sysex_msg) 8); [by intros ?%elem_of_nil|].
  destruct (decide (Py.slice 0 5 sysex_msg = roland_signature)) as [Hs|Hs].
  2:{ unfold roland_signature in Hs. rewrite bool_decide_eq_false_2 by done.
      by intros ?%elem_of_nil. }
  unfold roland_signature in Hs. rewrite bool_decide_eq_true_2 by done. cbn [negb].
  intros Hin. split; [|done].
  destruct (Py.get sysex_msg 5) as [addr_h|]; [|by apply elem_of_nil in Hin].
  destruct (Py.get sysex_msg 6) as [addr_m|]; [|by apply elem_of_nil in Hin].
  destruct (Py.get sysex_msg 7) as [addr_l|]; [|by apply elem_of_nil in Hin].
  destruct (negb _); [by apply elem_of_nil in Hin|].
  destruct (_ && _).
  { destruct (JV._parse_common_block _ _ _) as [lg params] eqn:Hc. cbn [snd] in Hin.
    apply (jv_common_block_elem_of (Py.slice 8 (-1) sysex_msg) [addr_h; addr_m; addr_l]).
    by rewrite Hc. }
  destruct (_ && _).
  { destruct (JV._parse_tone_block _ _ _) as [lg params] eqn:Hc. cbn [snd] in Hin.
    apply list_elem_of_fmap in Hin as (q & -> & Hq).
    change (JV.raw_message q = sysex_msg).
    apply (jv_tone_block_elem_of (Py.slice 8 (-1) sysex_msg) [addr_h; addr_m; addr_l]).
    by rewrite Hc. }
  destruct (_ && _); [|by apply elem_of_nil in Hin].
  destruct (Py.slice 8 (-1) sysex_msg) as [|? [|? [|? ?]]]; cbn [snd] in Hin;
    try (by apply elem_of_nil in Hin).
  by apply list_elem_of_singleton in Hin as ->.
Qed.

Lemma jv_parse_all_elem_of msgs p :
  p ∈ snd (JV.parse_all msgs) ->
  JV.raw_message p ∈ msgs /\ Py.slice 0 5 (JV.raw_message p) = roland_signature.
Proof.
  induction msgs as [|m msgs IH]; simpl.
  - by intros ?%elem_of_nil.
  - destruct (JV._parse_sysex_message m) as [lg ps] eqn:Hm.
    destruct (JV.parse_all msgs) as [lg' ps']. simpl in *.
    intros [Hin|Hin]%elem_of_app.
    + pose proof (jv_parse_sysex_message_elem_of m p) as Hp. rewrite Hm in Hp.
      destruct (Hp Hin) as (-> & ? & ?). split; [apply list_elem_of_here | done].
    + destruct (IH Hin). split; [by apply list_elem_of_further | done].
Qed.

Lemma jv_parse_sysex_file_parameters data :
  snd (JV.parse_sysex_file data) = snd (JV.parse_all (JV.sysex_messages data)).
Proof.
  unfold JV.parse_sysex_file. by destruct (JV.parse_all _).
Qed.

(** C4. The YAML-driven decoder compares bytes 0, 1, 3 and 4
    of a message with F0 and the manufacturer, model and command
    identifiers; it does not look at the device-id byte 2. Every parameter
    it emits comes from a framed message that passes this test, and a
    message that fails it is dropped with DEBUG records only. The
    stand-alone decoder compares the first five bytes, device id included,
    with F0 41 10 6A 12, and drops every other message without a log
    record. *)
Theorem device_filtering :
  (forall cfg data ps p,
      snd (parse_sysex_file cfg data) = Ok ps -> p ∈ ps ->
      raw_message p ∈ _extract_sysex_messages data
      /\ raw_message p !! 0%nat = Some 0xF0
      /\ raw_message p !! 1%nat = Some (manufacturer_id (info cfg))
      /\ raw_message p !! 3%nat = Some (model_id (info cfg))
      /\ raw_message p !! 4%nat = Some (command_id_dt1 (info cfg)))
  /\ (forall cfg i message,
        _validate_roland_header cfg message = false ->
        snd (parse_one cfg i message) = Ok []
        /\ Forall (fun r : log_record => r.1.1 = DEBUG) (fst (parse_one cfg i message)))
  /\ (forall data p,
        p ∈ snd (JV.parse_sysex_file data) ->
        JV.raw_message p ∈ JV.sysex_messages data
        /\ Py.slice 0 5 (JV.raw_message p) = roland_signature)
  /\ (forall sysex_msg,
        Py.slice 0 5 sysex_msg <> roland_signature ->
        JV._parse_sysex_message sysex_msg = ([], [])).
Proof.
  split; [|split; [|split]].
  - intros cfg data ps p Hps Hin. rewrite parse_sysex_file_messages in Hps.
    destruct (parse_messages_elem_of _ _ _ _ _ Hps Hin) as (Hm & Hh & _).
    split; [done|]. by apply validate_roland_header_true.
  - apply parse_one_bad_header.
  - intros data p Hin. rewrite jv_parse_sysex_file_parameters in Hin.
    by apply jv_parse_all_elem_of.
  - apply jv_parse_sysex_message_bad_header.
Qed.

Lemma device_filtering_witness :
  (raw_message {| group_name := "temp_performance_common";
                  parameter_name := "Performance name 1"; value := VInt 65;
                  address := [0x01; 0x00; 0x00; 0x00];
                  raw_message := Fixtures.msg_dev10 |}
   ∈ _extract_sysex_messages (Fixtures.msg_other_mfg ++ Fixtures.msg_dev10)
   /\ Fixtures.msg_dev10 !! 0%nat = Some 0xF0
   /\ Fixtures.msg_dev10 !! 1%nat = Some 0x41
   /\ Fixtures.msg_dev10 !! 3%nat = Some 0x6A
   /\ Fixtures.msg_dev10 !! 4%nat = Some 0x12)
  /\ (snd (parse_one Fixtures.small_cfg 0 Fixtures.msg_other_mfg) = Ok []
      /\ Forall (fun r : log_record => r.1.1 = DEBUG)
            (fst (parse_one Fixtures.small_cfg 0 Fixtures.msg_other_mfg)))
  /\ JV._parse_sysex_message Fixtures.temp_patch_dev11 = ([], []).
Proof.
  destruct device_filtering as (Hfile & Hdrop & _ & Hjv).
  split; [|split].
  - apply (Hfile Fixtures.small_cfg (Fixtures.msg_other_mfg ++ Fixtures.msg_dev10)
             [ {| group_name := "temp_performance_common";
                  parameter_name := "Performance name 1"; value := VInt 65;
                  address := [0x01; 0x00; 0x00; 0x00];
                  raw_message := Fixtures.msg_dev10 |} ]).
    + vm_compute. reflexivity.
    + apply list_elem_of_here.
  - apply (Hdrop Fixtures.small_cfg 0%nat). reflexivity.
  - apply Hjv. vm_compute. discriminate.
Defined.

(** C4, as stated, fails for the YAML-driven decoder: two messages that
    differ in the device-id byte both yield a parameter. *)
Lemma device_filtering_counterexample :
  exists p1 p2,
    snd (parse_sysex_file Fixtures.small_cfg (Fixtures.msg_dev10 ++ Fixtures.msg_dev11))
    = Ok [p1; p2]
    /\ raw_message p1 !! 2%nat = Some 0x10
    /\ raw_message p2 !! 2%nat = Some 0x11.
Proof. eexists _, _. split; [vm_compute; reflexivity|]. split; reflexivity. Qed.

(** ** Recovery from a checksum mismatch *)

Lemma verify_checksum_mismatch message :
  Py.get message (-2) <> Some (expected_checksum message) ->
  _verify_checksum message = false.
Proof.
  intros Hne. unfold _verify_checksum. destruct (length message <? 8)%nat; [done|].
  apply bool_decide_eq_false_2. unfold expected_checksum in Hne. congruence.
Qed.

Lemma parse_sysex_message_bad_checksum cfg message :
  _verify_checksum message = false -> snd (parse_sysex_message cfg message) = None.
Proof.
  intros Hc. unfold parse_sysex_message. rewrite Hc.
  by destruct (_validate_roland_header cfg message).
Qed.

Lemma parse_bulk_data_message_bad_checksum cfg message :
  _verify_checksum message = false -> snd (_parse_bulk_data_message cfg message) = Ok [].
Proof.
  intros Hc. unfold _parse_bulk_data_message. rewrite Hc.
  by destruct (_validate_roland_header cfg message).
Qed.

(** The log of a message always ends with a record when the
    single-message decoder rejects it. *)
Lemma parse_one_log_rejected cfg i message :
  _verify_checksum message = false ->
  fst (parse_one cfg i message) <> []
  /\ (_validate_roland_header cfg message = true ->
      (WARNING, "Invalid checksum in message: "%string, message)
      ∈ fst (parse_one cfg i message)).
Proof.
  intros Hc. unfold parse_one, parse_sysex_message, _parse_bulk_data_message.
  rewrite Hc. destruct (_validate_roland_header cfg message); simpl;
    destruct (_ && _); simpl; (split; [done|]); try done.
  - intros _. apply list_elem_of_further, list_elem_of_here.
  - intros _. apply list_elem_of_here.
Qed.

(** The parameters a message contributes do not depend on its number. *)
Lemma parse_one_index cfg i j message :
  snd (parse_one cfg i message) = snd (parse_one cfg j message).
Proof.
  unfold parse_one.
  destruct (parse_sysex_message cfg message) as [lg [p|]];
    destruct (_ && _); try done;
    destruct (_parse_bulk_data_message cfg message) as [lg' [[|b ps]|e]]; done.
Qed.

Lemma parse_messages_index cfg msgs : forall i j,
  snd (parse_messages cfg i msgs) = snd (parse_messages cfg j msgs).
Proof.
  induction msgs as [|m msgs IH]; intros i j; simpl; [done|].
  pose proof (parse_one_index cfg i j m) as H1.
  pose proof (IH (S i) (S j)) as H2.
  destruct (parse_one cfg i m) as [lg1 r1], (parse_one cfg j m) as [lg2 r2].
  simpl in H1. subst r2.
  destruct (parse_messages cfg (S i) msgs) as [lg3 r3],
           (parse_messages cfg (S j) msgs) as [lg4 r4].
  simpl in H2. subst r4.
  by destruct r1, r3.
Qed.

(** A message that contributes nothing and raises nothing can be removed
    from the buffer without changing the decoded parameters. *)
Lemma parse_messages_skip cfg message after :
  (forall k, snd (parse_one cfg k message) = Ok []) ->
  forall before i,
    snd (parse_messages cfg i (before ++ message :: after))
    = snd (parse_messages cfg i (before ++ after)).
Proof.
  intros Hm. induction before as [|m before IH]; intros i; simpl.
  - specialize (Hm i). destruct (parse_one cfg i message) as [lg r].
    simpl in Hm. subst r.
    rewrite <- (parse_messages_index cfg after (S i) i).
    by destruct (parse_messages cfg (S i) after) as [lg' [ps|e]].
  - destruct (parse_one cfg i m) as [lg [ps|e]]; [|done].
    specialize (IH (S i)).
    destruct (parse_messages cfg (S i) (before ++ message :: after)) as [lg1 r1],
             (parse_messages cfg (S i) (before ++ after)) as [lg2 r2].
    simpl in IH. subst r2. by destruct r1.
Qed.

(** In the YAML-driven decoder a framed message whose byte at index -2
    differs from the checksum formula over its bytes [5:-2] is dropped: it
    adds no ParsedParameter, raises nothing, leaves a record in the log
    (the WARNING "Invalid checksum" when its header is valid), and the
    parameters decoded from a buffer are those of the buffer without it,
    so the messages after it are still decoded. The stand-alone decoder
    does not check the checksum: a temp-patch message yields its parameter
    whatever its last payload byte is. *)
Lemma checksum_mismatch_dropped :
  (forall cfg i message,
      Py.get message (-2) <> Some (expected_checksum message) ->
      snd (parse_one cfg i message) = Ok []
      /\ fst (parse_one cfg i message) <> []
      /\ (_validate_roland_header cfg message = true ->
          (WARNING, "Invalid checksum in message: "%string, message)
          ∈ fst (parse_one cfg i message)))
  /\ (forall cfg before message after,
        Py.get message (-2) <> Some (expected_checksum message) ->
        snd (parse_messages cfg 0 (before ++ message :: after))
        = snd (parse_messages cfg 0 (before ++ after)))
  /\ (forall addr_m param_id msb lsb,
        let sysex_msg :=
          [0xF0; 0x41; 0x10; 0x6A; 0x12; 0x03; addr_m; 0x00; param_id; msb; lsb; 0xF7] in
        snd (JV._parse_sysex_message sysex_msg)
        = [ {| JV.group_name := "TempCommon";
               JV.parameter_name := "param_" +:+ pretty param_id;
               JV.value := JV.VInt (Z.lor (Z.shiftl msb 7) lsb);
               JV.address := [0x03; addr_m; 0x00]; JV.raw_message := sysex_msg;
               JV.manufacturer := None; JV.device_id := None;
               JV.model_id := None; JV.command := None |} ]).
Proof.
  split; [|split].
  - intros cfg i message Hne.
    pose proof (verify_checksum_mismatch _ Hne) as Hc.
    split; [|by apply parse_one_log_rejected].
    apply parse_one_rejected.
    + by apply parse_sysex_message_bad_checksum.
    + intros _. by apply parse_bulk_data_message_bad_checksum.
  - intros cfg before message after Hne.
    pose proof (verify_checksum_mismatch _ Hne) as Hc.
    apply parse_messages_skip. intros k. apply parse_one_rejected.
    + by apply parse_sysex_message_bad_checksum.
    + intros _. by apply parse_bulk_data_message_bad_checksum.
  - intros addr_m param_id msb lsb. reflexivity.
Qed.

Lemma checksum_mismatch_dropped_example :
  (snd (parse_one Fixtures.small_cfg 1 Fixtures.msg_bad_checksum) = Ok []
   /\ fst (parse_one Fixtures.small_cfg 1 Fixtures.msg_bad_checksum) <> []
   /\ (_validate_roland_header Fixtures.small_cfg Fixtures.msg_bad_checksum = true ->
       (WARNING, "Invalid checksum in message: "%string, Fixtures.msg_bad_checksum)
       ∈ fst (parse_one Fixtures.small_cfg 1 Fixtures.msg_bad_checksum)))
  /\ snd (parse_messages Fixtures.small_cfg 0
            ([Fixtures.msg_dev10] ++ Fixtures.msg_bad_checksum :: [Fixtures.msg_dev11]))
     = snd (parse_messages Fixtures.small_cfg 0 ([Fixtures.msg_dev10] ++ [Fixtures.msg_dev11])).
Proof.
  destruct checksum_mismatch_dropped as (Hone & Hskip & _).
  split.
  - apply (Hone Fixtures.small_cfg 1%nat Fixtures.msg_bad_checksum).
    vm_compute. discriminate.
  - apply (Hskip Fixtures.small_cfg [Fixtures.msg_dev10] Fixtures.msg_bad_checksum
             [Fixtures.msg_dev11]).
    vm_compute. discriminate.
Defined.

(** A bulk message for a block whose group the catalog does not define
    ends the decoding of the buffer with an [IndexError]: the messages
    after it are not decoded. *)
Lemma undefined_block_raises :
  snd (parse_sysex_file Fixtures.small_cfg
         ([0xF0; 0x41; 0x10; 0x6A; 0x12; 0x11; 0x00; 0x20; 0x00; 0x01; 0x4E; 0xF7]
          ++ Fixtures.msg_dev10))
  = Raise IndexError.
Proof. vm_compute. reflexivity. Qed.

(** C6. The stand-alone decoder never verifies a checksum: the byte at
    index -2 of the temp-patch message is 3, the checksum formula over its
    bytes [5:-2] gives 122, and the message still contributes a
    ParsedParameter. The YAML-driven decoder drops the corresponding
    corrupted message and decodes the message that follows it. *)
Theorem checksum_not_verified_by_scan :
  Py.get Fixtures.temp_patch_msg (-2) = Some 3
  /\ expected_checksum Fixtures.temp_patch_msg = 122
  /\ snd (JV.parse_sysex_file Fixtures.temp_patch_msg) = [Fixtures.temp_param]
  /\ snd (parse_sysex_file Fixtures.small_cfg
            (Fixtures.msg_bad_checksum ++ Fixtures.msg_dev10))
     = Ok [ {| group_name := "temp_performance_common";
               parameter_name := "Performance name 1"; value := VInt 65;
               address := [0x01; 0x00; 0x00; 0x00];
               raw_message := Fixtures.msg_dev10 |} ].
Proof. repeat split; vm_compute; reflexivity. Qed.

(** ** Framing *)

Lemma frame_step_core st st' byte :
  frame_core st = frame_core st' ->
  frame_core (frame_step st byte) = frame_core (frame_step st' byte).
Proof.
  destruct st as [ms cur ins lg], st' as [ms' cur' ins' lg'].
  unfold frame_core, frame_step. simpl. intros [= -> -> ->].
  by repeat case_match.
Qed.

Lemma frame_run_core data : forall st st',
  frame_core st = frame_core st' ->
  frame_core (frame_run st data) = frame_core (frame_run st' data).
Proof.
  induction data as [|b data IH]; intros st st' H; simpl; [done|].
  by apply IH, frame_step_core.
Qed.

Lemma frame_run_app st d1 d2 :
  frame_run st (d1 ++ d2) = frame_run (frame_run st d1) d2.
Proof. apply foldl_app. Qed.

(** Bytes other than F0 and F7 extend the message being captured. *)
Lemma frame_run_capture data : forall st,
  in_sysex st = true -> 0xF0 ∉ data -> 0xF7 ∉ data ->
  frame_core (frame_run st data) = (messages st, current_message st ++ data, true).
Proof.
  induction data as [|b data IH]; intros st Hin H0 H7; simpl.
  - unfold frame_core. by rewrite app_nil_r, Hin.
  - apply not_elem_of_cons in H0 as [Hb0 H0].
    apply not_elem_of_cons in H7 as [Hb7 H7].
    rewrite IH; [| |done|done].
    + unfold frame_step.
      destruct (Z.eqb_spec b 0xF0); [congruence|].
      destruct (Z.eqb_spec b 0xF7); [congruence|].
      rewrite Hin. simpl. by rewrite <- app_assoc.
    + unfold frame_step.
      destruct (Z.eqb_spec b 0xF0); [congruence|].
      destruct (Z.eqb_spec b 0xF7); [congruence|].
      by rewrite Hin.
Qed.

(** Without an F7 no message is completed. *)
Lemma frame_run_no_end data : forall st,
  0xF7 ∉ data -> messages (frame_run st data) = messages st.
Proof.
  induction data as [|b data IH]; intros st H7; simpl; [done|].
  apply not_elem_of_cons in H7 as [Hb7 H7]. rewrite IH by done.
  unfold frame_step. destruct (Z.eqb_spec b 0xF0); [done|].
  destruct (Z.eqb_spec b 0xF7); [congruence|].
  by destruct (in_sysex st).
Qed.

Lemma extract_sysex_messages_run data :
  _extract_sysex_messages data = messages (frame_run framer_init data).
Proof. done. Qed.

(** An F0 read while capturing throws the captured bytes away. *)
Lemma extract_restart done partial rest :
  0xF0 ∉ partial -> 0xF7 ∉ partial ->
  _extract_sysex_messages (done ++ 0xF0 :: partial ++ 0xF0 :: rest)
  = _extract_sysex_messages (done ++ 0xF0 :: rest).
Proof.
  intros H0 H7. rewrite !extract_sysex_messages_run.
  rewrite !frame_run_app.
  set (st := frame_run framer_init done).
  change (0xF0 :: partial ++ 0xF0 :: rest) with ([0xF0] ++ partial ++ [0xF0] ++ rest).
  change (0xF0 :: rest) with ([0xF0] ++ rest).
  rewrite !frame_run_app.
  assert (Hcore : frame_core (frame_run (frame_run (frame_run st [0xF0]) partial) [0xF0])
                  = frame_core (frame_run st [0xF0])).
  { pose proof (frame_run_capture partial (frame_run st [0xF0]) eq_refl H0 H7) as Hc.
    unfold frame_core in Hc. injection Hc as Hm Hcur Hin.
    simpl. unfold frame_core, frame_step at 1. simpl. by rewrite Hm. }
  pose proof (frame_run_core rest _ _ Hcore) as Hr.
  apply (f_equal (fun c => c.1.1)) in Hr. exact Hr.
Qed.

(** A message still open at the end of the buffer is not emitted. *)
Lemma extract_unterminated done partial :
  0xF7 ∉ partial ->
  _extract_sysex_messages (done ++ 0xF0 :: partial) = _extract_sysex_messages done.
Proof.
  intros H7. rewrite !extract_sysex_messages_run, frame_run_app.
  apply frame_run_no_end. apply not_elem_of_cons. split; [done | exact H7].
Qed.

(** *** The scan of the stand-alone parser *)

Lemma slice_nat {A} (a b : nat) (l : list A) :
  Py.slice (Z.of_nat a) (Z.of_nat b) l = drop a (take b l).
Proof.
  unfold Py.slice. rewrite !clamp_nonneg.
  destruct (Nat.le_ge_cases b (length l)) as [Hb|Hb].
  - rewrite (Nat.min_l b) by done.
    destruct (Nat.le_ge_cases a (length l)) as [Ha|Ha].
    + by rewrite Nat.min_l.
    + rewrite Nat.min_r by done.
      rewrite !drop_ge; [done | | ]; rewrite length_take; lia.
  - rewrite (Nat.min_r b) by done. rewrite !take_ge by lia.
    destruct (Nat.le_ge_cases a (length l)) as [Ha|Ha].
    + by rewrite Nat.min_l.
    + rewrite Nat.min_r by done. by rewrite !drop_ge.
Qed.

Lemma find_end_shift rest : forall a b,
  JV.find_end rest (a + b) = (a + JV.find_end rest b)%nat.
Proof.
  induction rest as [|x rest IH]; intros a b; simpl; [done|].
  destruct (x =? 0xF7); [done|]. by rewrite <- IH, Nat.add_succ_r.
Qed.

Lemma find_end_bounds rest : forall k,
  (k <= JV.find_end rest k <= k + length rest)%nat.
Proof.
  induction rest as [|x rest IH]; intros k; simpl; [lia|].
  destruct (x =? 0xF7); [lia|]. specialize (IH (S k)). lia.
Qed.

(** The inner loop stops at the first F7. *)
Lemma find_end_first body rest : forall k,
  0xF7 ∉ body -> JV.find_end (body ++ 0xF7 :: rest) k = (k + length body)%nat.
Proof.
  induction body as [|x body IH]; intros k H7; simpl.
  - lia.
  - apply not_elem_of_cons in H7 as [Hx H7].
    destruct (Z.eqb_spec x 0xF7); [congruence|]. rewrite IH by done. lia.
Qed.

(** Without an F7 it runs to the end of the data. *)
Lemma find_end_none body : forall k,
  0xF7 ∉ body -> JV.find_end body k = (k + length body)%nat.
Proof.
  induction body as [|x body IH]; intros k H7; simpl.
  - lia.
  - apply not_elem_of_cons in H7 as [Hx H7].
    destruct (Z.eqb_spec x 0xF7); [congruence|]. rewrite IH by done. lia.
Qed.

(** Enough fuel: the scan from [i] needs at most [len(data) - i]
    iterations, and more fuel does not change its result. *)
Lemma scan_fuel data : forall fuel1 fuel2 i,
  (length data - i <= fuel1)%nat -> (length data - i <= fuel2)%nat ->
  JV.scan fuel1 data i = JV.scan fuel2 data i.
Proof.
  induction fuel1 as [|fuel1 IH]; intros fuel2 i H1 H2.
  - destruct fuel2; simpl; [done|]. by rewrite lookup_ge_None_2 by lia.
  - destruct fuel2 as [|fuel2]; simpl.
    + by rewrite lookup_ge_None_2 by lia.
    + destruct (data !! i) as [b|] eqn:Hb; [|done].
      apply lookup_lt_Some in Hb.
      destruct (negb (b =? 0xF0)); [apply IH; lia|].
      pose proof (find_end_bounds (drop (i + 1) data) (i + 1)) as Hend.
      destruct (length data <=? _)%nat; [done|].
      f_equal. apply IH; lia.
Qed.

(** The scan of a buffer from behind a prefix is the scan of the rest. *)
Lemma scan_shift pre data : forall fuel i,
  JV.scan fuel (pre ++ data) (length pre + i) = JV.scan fuel data i.
Proof.
  induction fuel as [|fuel IH]; intros i; simpl; [done|].
  rewrite lookup_app_r by lia.
  replace (length pre + i - length pre)%nat with i by lia.
  destruct (data !! i) as [b|]; [|done].
  destruct (negb (b =? 0xF0)).
  { rewrite <- IH. f_equal. lia. }
  replace (length pre + i + 1)%nat with (length pre + (i + 1))%nat by lia.
  rewrite drop_app_add, find_end_shift.
  set (end_ := JV.find_end (drop (i + 1) data) (i + 1)).
  rewrite length_app.
  destruct (Nat.leb_spec (length data) end_) as [Hle|Hgt].
  { by destruct (Nat.leb_spec (length pre + length data) (length pre + end_)); [|lia]. }
  destruct (Nat.leb_spec (length pre + length data) (length pre + end_)); [lia|].
  f_equal.
  - replace (Z.of_nat (length pre + end_) + 1) with (Z.of_nat (length pre + S end_)) by lia.
    replace (Z.of_nat end_ + 1) with (Z.of_nat (S end_)) by lia.
    rewrite !slice_nat.
    by rewrite take_app_add, drop_app_add.
  - rewrite <- IH. f_equal. lia.
Qed.

(** One iteration of the scan at an F0. *)
Lemma scan_start fuel data i :
  data !! i = Some 0xF0 ->
  JV.scan (S fuel) data i
  = if (length data <=? JV.find_end (drop (i + 1) data) (i + 1))%nat then []
    else Py.slice (Z.of_nat i) (Z.of_nat (JV.find_end (drop (i + 1) data) (i + 1)) + 1) data
         :: JV.scan fuel data (JV.find_end (drop (i + 1) data) (i + 1) + 1).
Proof. intros H. simpl. by rewrite H. Qed.

(** Bytes before an F0 are skipped. *)
Lemma jv_frames_skip b rest :
  b <> 0xF0 -> JV.sysex_messages (b :: rest) = JV.sysex_messages rest.
Proof.
  intros Hb. unfold JV.sysex_messages. simpl.
  destruct (Z.eqb_spec b 0xF0); [congruence|]. simpl.
  apply (scan_shift [b] rest (length rest) 0).
Qed.

(** From an F0 the scan takes everything up to the next F7, an F0 in
    between included. *)
Lemma jv_frames_message body rest :
  0xF7 ∉ body ->
  JV.sysex_messages (0xF0 :: body ++ 0xF7 :: rest)
  = (0xF0 :: body ++ [0xF7]) :: JV.sysex_messages rest.
Proof.
  intros H7. unfold JV.sysex_messages.
  set (data := 0xF0 :: body ++ 0xF7 :: rest).
  assert (Hlen : length data = S (length body + S (length rest))).
  { unfold data. simpl. rewrite length_app. simpl. lia. }
  rewrite Hlen, scan_start by done.
  replace (drop (0 + 1) data) with (body ++ 0xF7 :: rest) by done.
  rewrite find_end_first by done. rewrite Hlen.
  destruct (Nat.leb_spec (S (length body + S (length rest))) (0 + 1 + length body)); [lia|].
  f_equal.
  - replace (Z.of_nat (0 + 1 + length body) + 1) with (Z.of_nat (S (S (length body))))
      by lia.
    rewrite slice_nat. unfold data. simpl. f_equal.
    replace (S (length body)) with (length body + 1)%nat by lia.
    by rewrite take_app_add.
  - replace data with ((0xF0 :: body ++ [0xF7]) ++ rest)
      by (unfold data; simpl; by rewrite <- app_assoc).
    replace (0 + 1 + length body + 1)%nat
      with (length ((0xF0 : Z) :: body ++ [0xF7 : Z]) + 0)%nat
      by (simpl; rewrite length_app; simpl; lia).
    rewrite scan_shift. apply scan_fuel; lia.
Qed.

(** A message still open at the end of the buffer is not carved out. *)
Lemma jv_frames_unterminated body :
  0xF7 ∉ body -> JV.sysex_messages (0xF0 :: body) = [].
Proof.
  intros H7. unfold JV.sysex_messages.
  change (length (0xF0 :: body)) with (S (length body)).
  rewrite scan_start by done.
  change (drop (0 + 1) (0xF0 :: body)) with body.
  rewrite find_end_none by done.
  change (length (0xF0 :: body)) with (S (length body)).
  by destruct (Nat.leb_spec (S (length body)) (0 + 1 + length body)); [|lia].
Qed.

(** In the framer of the YAML-driven decoder an F0 read while capturing
    discards the partial message and restarts the capture at that F0, and
    a message still open at the end of the buffer is not emitted; on the
    example buffer it emits exactly the message that starts at the second
    F0. The scan of the stand-alone decoder skips to an F0 and takes
    everything up to the next F7, an F0 in between included; it also drops
    a message that is still open at the end of the buffer. *)
Lemma framing_of_both_decoders :
  (forall done partial rest,
      0xF0 ∉ partial -> 0xF7 ∉ partial ->
      _extract_sysex_messages (done ++ 0xF0 :: partial ++ 0xF0 :: rest)
      = _extract_sysex_messages (done ++ 0xF0 :: rest))
  /\ (forall done partial,
        0xF7 ∉ partial ->
        _extract_sysex_messages (done ++ 0xF0 :: partial) = _extract_sysex_messages done)
  /\ _extract_sysex_messages Fixtures.nested_buffer
     = [[0xF0; 0x41; 0x10; 0x6A; 0x12; 0x00; 0x00; 0x00; 0x00; 0x65; 0x15; 0xF7]]
  /\ (forall body rest,
        0xF7 ∉ body ->
        JV.sysex_messages (0xF0 :: body ++ 0xF7 :: rest)
        = (0xF0 :: body ++ [0xF7]) :: JV.sysex_messages rest)
  /\ (forall b rest, b <> 0xF0 -> JV.sysex_messages (b :: rest) = JV.sysex_messages rest)
  /\ (forall body, 0xF7 ∉ body -> JV.sysex_messages (0xF0 :: body) = []).
Proof.
  repeat split.
  - apply extract_restart.
  - apply extract_unterminated.
  - apply jv_frames_message.
  - apply jv_frames_skip.
  - apply jv_frames_unterminated.
Qed.

Lemma framing_of_both_decoders_example :
  _extract_sysex_messages ([0x00] ++ 0xF0 :: [0x01; 0x02] ++ 0xF0 :: [0x41; 0xF7])
  = _extract_sysex_messages ([0x00] ++ 0xF0 :: [0x41; 0xF7])
  /\ _extract_sysex_messages (Fixtures.msg_dev10 ++ 0xF0 :: [0x41; 0x10])
     = _extract_sysex_messages Fixtures.msg_dev10
  /\ JV.sysex_messages (0xF0 :: [0x01; 0x02; 0xF0; 0x41] ++ 0xF7 :: Fixtures.temp_patch_msg)
     = (0xF0 :: [0x01; 0x02; 0xF0; 0x41] ++ [0xF7]) :: JV.sysex_messages Fixtures.temp_patch_msg
  /\ JV.sysex_messages (0x00 :: Fixtures.temp_patch_msg)
     = JV.sysex_messages Fixtures.temp_patch_msg
  /\ JV.sysex_messages (0xF0 :: [0x41; 0x10]) = [].
Proof.
  destruct framing_of_both_decoders as (H1 & H2 & _ & H4 & H5 & H6).
  split; [|split; [|split; [|split]]].
  - apply (H1 [0x00] [0x01; 0x02] [0x41; 0xF7]); apply (bool_decide_unpack _); exact I.
  - apply (H2 Fixtures.msg_dev10 [0x41; 0x10]); apply (bool_decide_unpack _); exact I.
  - apply (H4 [0x01; 0x02; 0xF0; 0x41] Fixtures.temp_patch_msg);
      apply (bool_decide_unpack _); exact I.
  - apply (H5 0x00 Fixtures.temp_patch_msg). discriminate.
  - apply (H6 [0x41; 0x10]); apply (bool_decide_unpack _); exact I.
Defined.

(** C5. The scan of the stand-alone decoder does not restart at an F0: on
    the example buffer it frames one message, the whole buffer from the
    first F0 on, where the framer of the YAML-driven decoder emits the
    message that starts at the second F0; and a valid message that follows
    an unterminated fragment is lost with the fragment. *)
Theorem nested_start_not_restarted :
  _extract_sysex_messages Fixtures.nested_buffer
  = [[0xF0; 0x41; 0x10; 0x6A; 0x12; 0x00; 0x00; 0x00; 0x00; 0x65; 0x15; 0xF7]]
  /\ JV.sysex_messages Fixtures.nested_buffer = [Fixtures.nested_buffer]
  /\ Fixtures.nested_buffer
     <> [0xF0; 0x41; 0x10; 0x6A; 0x12; 0x00; 0x00; 0x00; 0x00; 0x65; 0x15; 0xF7]
  /\ snd (JV.parse_sysex_file Fixtures.temp_patch_msg) = [Fixtures.temp_param]
  /\ snd (JV.parse_sysex_file ([0xF0; 0x01; 0x02] ++ Fixtures.temp_patch_msg)) = [].
Proof.
  split; [vm_compute; reflexivity|]. split; [vm_compute; reflexivity|].
  split; [discriminate|]. split; vm_compute; reflexivity.
Qed.

(** ** The patch assembler *)

Section Dict.

Context {K V : Type} `{EqDecision K}.
Implicit Types (d : list (K * V)) (k : K) (v : V).

Lemma dict_get_set k k' v d :
  dict_get k' (dict_set k v d) = if decide (k = k') then Some v else dict_get k' d.
Proof.
  induction d as [|[k0 v0] d IH]; simpl.
  - by destruct (decide (k = k')).
  - destruct (decide (k0 = k)) as [->|Hne]; simpl.
    + by destruct (decide (k = k')).
    + destruct (decide (k0 = k')) as [->|].
      * by rewrite decide_False by done.
      * apply IH.
Qed.

Lemma dict_set_keys k v d :
  (dict_set k v d).*1 = if decide (k ∈ d.*1) then d.*1 else d.*1 ++ [k].
Proof.
  induction d as [|[k0 v0] d IH].
  - simpl. destruct (decide (k ∈ [])) as [Hin|]; [by apply elem_of_nil in Hin | done].
  - cbn [dict_set]. destruct (decide (k0 = k)) as [->|Hne].
    + rewrite !fmap_cons. cbn [fst].
      destruct (decide (k ∈ k :: d.*1)) as [|Hn]; [done|].
      destruct Hn. apply list_elem_of_here.
    + rewrite !fmap_cons, IH. cbn [fst].
      destruct (decide (k ∈ d.*1)) as [Hin|Hin];
        destruct (decide (k ∈ k0 :: d.*1)) as [Hin'|Hin']; try done.
      * destruct Hin'. by apply list_elem_of_further.
      * apply elem_of_cons in Hin' as [?|?]; congruence.
Qed.

Lemma dict_get_is_Some k d : is_Some (dict_get k d) <-> k ∈ d.*1.
Proof.
  induction d as [|[k0 v0] d IH]; simpl.
  - split; [by intros [? ?] | by intros ?%elem_of_nil].
  - destruct (decide (k0 = k)) as [->|Hne].
    + split; [intros _; apply list_elem_of_here | by eexists].
    + rewrite IH. split; [by apply list_elem_of_further|].
      intros [?|?]%elem_of_cons; [congruence | done].
Qed.

Lemma dict_get_elem_of_NoDup k v d :
  NoDup d.*1 -> (k, v) ∈ d -> dict_get k d = Some v.
Proof.
  induction d as [|[k0 v0] d IH]; simpl; intros Hnd Hin.
  - by apply elem_of_nil in Hin.
  - apply NoDup_cons in Hnd as [Hk0 Hnd].
    apply elem_of_cons in Hin as [[= -> ->]|Hin].
    + by rewrite decide_True.
    + rewrite decide_False; [by apply IH|].
      intros ->. apply Hk0. apply list_elem_of_fmap. by exists (k, v).
Qed.

Lemma dict_set_NoDup k v d : NoDup d.*1 -> NoDup (dict_set k v d).*1.
Proof.
  intros Hnd. rewrite dict_set_keys. destruct (decide (k ∈ d.*1)); [done|].
  apply NoDup_app. split; [done|]. split; [|apply NoDup_singleton].
  intros x Hx ->%list_elem_of_singleton. done.
Qed.

End Dict.

Lemma slot_params_snoc k seen p :
  slot_params k (seen ++ [p])
  = slot_params k seen ++ (if decide (slot_of p = Some k) then [p] else []).
Proof.
  unfold slot_params. by rewrite filter_app.
Qed.

Lemma slot_params_none k seen :
  (forall p, p ∈ seen -> slot_of p <> Some k) -> slot_params k seen = [].
Proof.
  unfold slot_params. induction seen as [|p seen IH]; intros H; [done|].
  rewrite filter_cons. destruct (decide (slot_of p = Some k)) as [Hs|_].
  - destruct (H p); [apply list_elem_of_here | done].
  - apply IH. intros q Hq. apply H. by apply list_elem_of_further.
Qed.

Lemma group_step_grouped patches seen param patches' :
  grouped patches seen -> JV.group_step patches param = Ok patches' ->
  grouped patches' (seen ++ [param]).
Proof.
  intros (Hnd & Hkeys & Hpar). unfold JV.group_step.
  destruct (Py.get (JV.address param) 1) as [patch_key|] eqn:Hslot; [|done].
  intros [= <-]. split; [|split].
  - by apply dict_set_NoDup.
  - intros k. rewrite dict_set_keys.
    setoid_rewrite elem_of_app. setoid_rewrite list_elem_of_singleton.
    destruct (decide (patch_key ∈ patches.*1)) as [Hin|Hin].
    + rewrite Hkeys. split.
      * intros (p & ? & ?). exists p. by split; [left|].
      * intros (p & [?| ->] & Hp); [by exists p|].
        apply Hkeys. unfold slot_of in Hp. by simplify_eq.
    + rewrite elem_of_app, list_elem_of_singleton, Hkeys. split.
      * intros [(p & ? & ?)| ->]; [exists p; by split; [left|]|].
        exists param. by split; [right|].
      * intros (p & [?| ->] & Hp); [left; by exists p|].
        right. unfold slot_of in Hp. by simplify_eq.
  - intros k preset. rewrite dict_get_set, slot_params_snoc.
    destruct (decide (patch_key = k)) as [->|Hne].
    + intros [= <-]. simpl.
      destruct (decide (slot_of param = Some k)) as [_|Hn]; [|by destruct Hn].
      f_equal. destruct (dict_get k patches) as [preset0|] eqn:Hget; simpl.
      * by apply Hpar.
      * symmetry. apply slot_params_none. intros p Hp Hs.
        assert (Hk : k ∈ patches.*1) by (apply Hkeys; by exists p).
        apply dict_get_is_Some in Hk as [? Hk]. congruence.
    + intros Hget.
      destruct (decide (slot_of param = Some k)) as [Hs|_];
        [unfold slot_of in Hs; congruence|].
      rewrite app_nil_r. by apply Hpar.
Qed.

Lemma group_loop_grouped params : forall patches seen patches',
  grouped patches seen -> JV.group_loop patches params = Ok patches' ->
  grouped patches' (seen ++ params).
Proof.
  induction params as [|param params IH]; intros patches seen patches' Hg; simpl.
  - intros [= <-]. by rewrite app_nil_r.
  - destruct (JV.group_step patches param) as [patches1|e] eqn:Hstep; [|done]. simpl.
    intros Hloop. change (param :: params) with ([param] ++ params).
    rewrite (assoc_L (++) seen [param] params).
    eapply IH; [|done]. by eapply group_step_grouped.
Qed.

Lemma grouped_nil : grouped [] [].
Proof.
  split; [apply NoDup_nil_2|]. split; [|done].
  intros k. split; [by intros ?%elem_of_nil | by intros (? & ?%elem_of_nil & _)].
Qed.

(** The second loop keeps the presets, their order and their parameters. *)
Lemma assign_all_spec presets : forall presets',
  JV.assign_all presets = Ok presets' ->
  Forall2 (fun preset preset' => JV.assign_bank_select preset = Ok preset') presets presets'.
Proof.
  induction presets as [|preset presets IH]; intros presets'; simpl.
  - intros [= <-]. constructor.
  - destruct (JV.assign_bank_select preset) as [preset1|e] eqn:H1; [|done]. simpl.
    destruct (JV.assign_all presets) as [rest|e]; [|done]. simpl.
    intros [= <-]. constructor; [done | by apply IH].
Qed.

Lemma assign_bank_select_parameters preset preset' :
  JV.assign_bank_select preset = Ok preset' ->
  JV.parameters preset' = JV.parameters preset /\ JV.name preset' = JV.name preset.
Proof.
  unfold JV.assign_bank_select.
  destruct (JV.bank_select _ _) as [[[m l] p]|e]; [|done]. simpl.
  by intros [= <-].
Qed.

Lemma assign_all_elem_of presets presets' preset' :
  JV.assign_all presets = Ok presets' -> preset' ∈ presets' ->
  exists preset, preset ∈ presets /\ JV.assign_bank_select preset = Ok preset'.
Proof.
  intros H%assign_all_spec Hin. induction H as [|p p' l l' Hp Hl IH].
  - by apply elem_of_nil in Hin.
  - apply elem_of_cons in Hin as [->|Hin].
    + exists p. split; [apply list_elem_of_here | done].
    + destruct (IH Hin) as (q & ? & ?). exists q. split; [by apply list_elem_of_further | done].
Qed.

Lemma assign_all_parameters presets presets' :
  JV.assign_all presets = Ok presets' ->
  JV.parameters <$> presets' = JV.parameters <$> presets.
Proof.
  intros H%assign_all_spec. induction H as [|p p' l l' Hp Hl IH]; [done|].
  rewrite !fmap_cons, IH. f_equal. by apply assign_bank_select_parameters.
Qed.

(** *** The order of the presets *)

Lemma slot_order_snoc params p :
  slot_order (params ++ [p])
  = match slot_of p with
    | Some k => note_slot (slot_order params) k
    | None => slot_order params
    end.
Proof. unfold slot_order. by rewrite foldl_app. Qed.

Lemma group_step_keys patches param patches' :
  JV.group_step patches param = Ok patches' ->
  slot_of param <> None
  /\ patches'.*1 = match slot_of param with
                   | Some k => note_slot patches.*1 k
                   | None => patches.*1
                   end.
Proof.
  unfold JV.group_step, slot_of.
  destruct (Py.get (JV.address param) 1) as [patch_key|]; [|done].
  intros [= <-]. split; [done|]. by rewrite dict_set_keys.
Qed.

Lemma group_loop_keys params : forall patches seen patches',
  patches.*1 = slot_order seen ->
  JV.group_loop patches params = Ok patches' ->
  patches'.*1 = slot_order (seen ++ params).
Proof.
  induction params as [|param params IH]; intros patches seen patches' Hk; simpl.
  - intros [= <-]. by rewrite app_nil_r.
  - destruct (JV.group_step patches param) as [patches1|e] eqn:Hstep; [|done]. simpl.
    intros Hloop. change (param :: params) with ([param] ++ params).
    rewrite (assoc_L (++) seen [param] params).
    eapply IH; [|done]. rewrite slot_order_snoc.
    destruct (group_step_keys _ _ _ Hstep) as [_ ->]. by rewrite Hk.
Qed.

Lemma first_before_snoc k1 k2 params p :
  first_before k1 k2 params -> first_before k1 k2 (params ++ [p]).
Proof.
  intros (n & q & Hn & Hq & Hall). exists n, q.
  split; [by apply lookup_app_l_Some|]. split; [done|].
  intros n' q' Hn' Hq'.
  destruct (decide (n' < length params)%nat) as [Hlt|Hge].
  - rewrite lookup_app_l in Hn' by done. by eapply Hall.
  - apply lookup_lt_Some in Hn. lia.
Qed.

(** [slot_order] lists the slots that occur, each once, a slot before
    another when it is met first. *)
Lemma slot_order_spec params :
  NoDup (slot_order params)
  /\ (forall k, k ∈ slot_order params <-> exists p, p ∈ params /\ slot_of p = Some k)
  /\ (forall i j k1 k2,
        (i < j)%nat -> slot_order params !! i = Some k1 -> slot_order params !! j = Some k2 ->
        first_before k1 k2 params).
Proof.
  induction params as [|p params (Hnd & Hin & Hord)] using rev_ind.
  - split; [apply NoDup_nil_2|]. split; [|done].
    intros k. split; [by intros ?%elem_of_nil | by intros (? & ?%elem_of_nil & _)].
  - rewrite slot_order_snoc.
    assert (Hmem : forall k, (exists q, q ∈ params ++ [p] /\ slot_of q = Some k)
                             <-> k ∈ slot_order params \/ slot_of p = Some k).
    { intros k. rewrite Hin. split.
      - intros (q & [Hq| ->%list_elem_of_singleton]%elem_of_app & Hs);
          [left; by exists q | by right].
      - intros [(q & Hq & Hs)|Hs].
        + exists q. split; [apply elem_of_app; by left | done].
        + exists p. split; [apply elem_of_app; right; by apply list_elem_of_singleton | done]. }
    destruct (slot_of p) as [k|] eqn:Hp.
    + unfold note_slot. destruct (decide (k ∈ slot_order params)) as [Hk|Hk].
      * split; [done|]. split.
        -- intros k'. rewrite Hmem. split; [by left|]. by intros [?|[= <-]].
        -- intros i j k1 k2 Hij Hi Hj. by apply first_before_snoc, (Hord i j).
      * split; [|split].
        -- apply NoDup_app. split; [done|]. split; [|apply NoDup_singleton].
           by intros x Hx ->%list_elem_of_singleton.
        -- intros k'. rewrite Hmem, elem_of_app, list_elem_of_singleton.
           split; (intros [?|?]; [by left | right; congruence]).
        -- intros i j k1 k2 Hij Hi Hj.
           destruct (decide (j < length (slot_order params))%nat) as [Hlt|Hge].
           ++ rewrite lookup_app_l in Hi by lia. rewrite lookup_app_l in Hj by done.
              by apply first_before_snoc, (Hord i j).
           ++ assert (Hi' : slot_order params !! i = Some k1).
              { apply lookup_lt_Some in Hj. rewrite length_app in Hj. simpl in Hj.
                rewrite lookup_app_l in Hi by lia. done. }
              assert (Hk2 : k2 = k).
              { rewrite lookup_app_r in Hj by lia.
                apply list_elem_of_lookup_2, list_elem_of_singleton in Hj. done. }
              subst k2.
              assert (Hk1 : k1 ∈ slot_order params) by (by eapply list_elem_of_lookup_2).
              apply Hin in Hk1 as (q & [n Hn]%list_elem_of_lookup & Hq).
              exists n, q. split; [by apply lookup_app_l_Some|]. split; [done|].
              intros n' q' Hn' Hq'.
              destruct (decide (n' < length params)%nat) as [Hlt'|Hge'].
              ** rewrite lookup_app_l in Hn' by done. destruct Hk. apply Hin.
                 exists q'. split; [by eapply list_elem_of_lookup_2 | done].
              ** apply lookup_lt_Some in Hn. lia.
    + split; [done|]. split.
      * intros k'. rewrite Hmem. split; [by left|]. by intros [?|?].
      * intros i j k1 k2 Hij Hi Hj. by apply first_before_snoc, (Hord i j).
Qed.

(** *** When the assembler returns *)

Lemma last_common_snoc pname ps p :
  JV.last_common pname (ps ++ [p])
  = if JV.is_common p pname then Some (JV.value p) else JV.last_common pname ps.
Proof. unfold JV.last_common. by rewrite foldl_app. Qed.

Lemma last_common_Some pname ps v :
  JV.last_common pname ps = Some v ->
  exists p, p ∈ ps /\ JV.is_common p pname = true /\ JV.value p = v.
Proof.
  induction ps as [|p ps IH] using rev_ind; [done|].
  rewrite last_common_snoc. destruct (JV.is_common p pname) eqn:Hc.
  - intros [= <-]. exists p. split; [|done]. apply elem_of_app. right.
    by apply list_elem_of_singleton.
  - intros (q & ? & ? & ?)%IH. exists q. split; [|done]. apply elem_of_app. by left.
Qed.

Lemma group_loop_total params : forall patches,
  Forall assemblable params -> exists patches', JV.group_loop patches params = Ok patches'.
Proof.
  induction params as [|p params IH]; intros patches Hall; [by eexists|].
  apply Forall_cons in Hall as [[Hlen _] Hall]. cbn [JV.group_loop].
  unfold JV.group_step, Py.get. simpl.
  destruct (JV.address p) as [|a0 [|a1 rest]]; try (simpl in Hlen; lia).
  simpl. apply IH, Hall.
Qed.

Lemma assign_all_total presets :
  Forall (fun preset => Forall assemblable (JV.parameters preset)) presets ->
  exists presets', JV.assign_all presets = Ok presets'.
Proof.
  induction presets as [|preset presets IH]; intros Hall; [by eexists|].
  apply Forall_cons in Hall as [Hp Hall]. destruct (IH Hall) as [rest Hrest].
  cbn [JV.assign_all]. rewrite Hrest.
  unfold JV.assign_bank_select, JV.bank_select.
  destruct (JV.last_common "bank" (JV.parameters preset)) as [bank|] eqn:Hb;
    [|simpl; by eexists].
  destruct (JV.last_common "patch_number" (JV.parameters preset)) as [pcv|];
    [|simpl; by eexists].
  apply last_common_Some in Hb as (q & Hq & Hc & Hv).
  rewrite Forall_forall in Hp. destruct (Hp q Hq) as [_ Hint].
  destruct (Hint Hc) as [z Hz]. rewrite Hz in Hv. subst bank.
  repeat case_match; simpl; by eexists.
Qed.

Lemma grouped_parameters_subset patches seen preset :
  grouped patches seen -> preset ∈ patches.*2 ->
  forall p, p ∈ JV.parameters preset -> p ∈ seen.
Proof.
  intros (Hnd & _ & Hpar) ([k pr] & -> & Hin)%list_elem_of_fmap p Hp. simpl in Hp.
  rewrite (Hpar k pr (dict_get_elem_of_NoDup k pr patches Hnd Hin)) in Hp.
  unfold slot_params in Hp. by apply list_elem_of_filter in Hp as [_ ?].
Qed.

Lemma assembler_total all_params :
  Forall assemblable all_params ->
  exists presets, JV.group_parameters_into_patches all_params = Ok presets.
Proof.
  intros Hall. unfold JV.group_parameters_into_patches.
  destruct (group_loop_total all_params [] Hall) as [patches Hp]. rewrite Hp. simpl.
  apply assign_all_total. apply Forall_forall. intros preset Hin.
  apply Forall_forall. intros p Hpp.
  pose proof (group_loop_grouped all_params [] [] patches grouped_nil Hp) as Hg.
  rewrite app_nil_l in Hg.
  rewrite Forall_forall in Hall. apply Hall.
  by apply (grouped_parameters_subset patches all_params preset).
Qed.

(** C9. The assembler of jv1080_parser makes one Preset for every slot
    index for which a parameter of any block was decoded, Common block or
    not, in the order in which the slots first occur; a Preset holds all
    parameters decoded for its slot, in decoding order. So no parameter
    is discarded, no slot is left out, and a slot with tone parameters
    only still becomes a Preset. The assembler returns on every stream
    whose addresses have a second byte and whose Common banks are
    integers. *)
Theorem slots_become_presets all_params :
  (Forall assemblable all_params ->
   exists presets, JV.group_parameters_into_patches all_params = Ok presets)
  /\ (forall presets,
        JV.group_parameters_into_patches all_params = Ok presets ->
        JV.parameters <$> presets
        = (fun k => slot_params k all_params) <$> slot_order all_params)
  /\ NoDup (slot_order all_params)
  /\ (forall k, k ∈ slot_order all_params <-> exists p, p ∈ all_params /\ slot_of p = Some k)
  /\ (forall i j k1 k2,
        (i < j)%nat ->
        slot_order all_params !! i = Some k1 -> slot_order all_params !! j = Some k2 ->
        first_before k1 k2 all_params).
Proof.
  split; [apply assembler_total|]. split; [|apply slot_order_spec].
  intros presets. unfold JV.group_parameters_into_patches.
  destruct (JV.group_loop [] all_params) as [patches|e] eqn:Hloop; [|done]. simpl.
  intros Hassign.
  destruct (group_loop_grouped _ _ _ _ grouped_nil Hloop) as (Hnd & Hkeys & Hpar).
  simpl in Hkeys, Hpar.
  pose proof (group_loop_keys all_params [] [] patches eq_refl Hloop) as Horder.
  rewrite app_nil_l in Horder. rewrite <- Horder.
  rewrite (assign_all_parameters _ _ Hassign).
  rewrite <- !list_fmap_compose. apply list_fmap_ext.
  intros i [k preset] Hi. simpl. apply Hpar.
  apply dict_get_elem_of_NoDup; [done|]. by eapply list_elem_of_lookup_2.
Qed.

(** C8 (as amended). For an assembled Preset whose Common block supplies
    an integer bank value [b] and a patch number, PC is the patch number
    and (MSB, LSB) is (80, b) for b = 0..3, (87, 0) for b = 4, (86, 0) for
    b = 5, and (89, b - 32) for a bank value b in 32..50; the table is
    indexed by the bank field, and the category field plays no part. *)
Theorem bank_select_triple all_params presets preset b pcv :
  JV.group_parameters_into_patches all_params = Ok presets ->
  preset ∈ presets ->
  JV.last_common "bank" (JV.parameters preset) = Some (JV.VInt b) ->
  JV.last_common "patch_number" (JV.parameters preset) = Some pcv ->
  JV.pc preset = Some pcv
  /\ (0 <= b <= 3 -> JV.msb preset = Some 80 /\ JV.lsb preset = Some b)
  /\ (b = 4 -> JV.msb preset = Some 87 /\ JV.lsb preset = Some 0)
  /\ (b = 5 -> JV.msb preset = Some 86 /\ JV.lsb preset = Some 0)
  /\ (32 <= b <= 50 -> JV.msb preset = Some 89 /\ JV.lsb preset = Some (b - 32))
  /\ (b < 0 \/ 5 < b < 32 \/ 50 < b -> JV.msb preset = None /\ JV.lsb preset = None).
Proof.
  unfold JV.group_parameters_into_patches.
  destruct (JV.group_loop [] all_params) as [patches|e]; [|done]. simpl.
  intros Hassign Hin Hbank Hpc.
  destruct (assign_all_elem_of _ _ _ Hassign Hin) as (preset0 & _ & H0).
  pose proof (assign_bank_select_parameters _ _ H0) as [Hpar _].
  unfold JV.assign_bank_select in H0. rewrite <- Hpar, Hbank, Hpc in H0.
  unfold JV.bank_select in H0.
  repeat match type of H0 with
         | context [Z.eqb ?x ?y] => destruct (Z.eqb_spec x y)
         | context [Z.leb ?x ?y] => destruct (Z.leb_spec x y)
         end;
    simpl in H0; injection H0 as <-; simpl;
    (split; [done|]); repeat split; intros; first [lia | f_equal; lia].
Qed.

Lemma slots_become_presets_witness :
  let all_params := snd (JV.parse_sysex_file two_slot_buffer) in
  slot_order all_params = [7; 2]
  /\ exists presets,
       JV.group_parameters_into_patches all_params = Ok presets
       /\ JV.parameters <$> presets = (fun k => slot_params k all_params) <$> [7; 2]
       /\ length <$> (JV.parameters <$> presets) = [2%nat; 1%nat]
       /\ first_before 7 2 all_params.
Proof.
  intros all_params.
  assert (Hord : slot_order all_params = [7; 2]) by (vm_compute; reflexivity).
  split; [exact Hord|].
  destruct (slots_become_presets all_params) as (Htotal & Hpresets & _ & _ & Hfirst).
  destruct Htotal as [presets Hok].
  { repeat (apply Forall_cons_2;
            [split; [vm_compute; lia | intros H; vm_compute in H; discriminate H]|]).
    apply Forall_nil_2. }
  exists presets. split; [exact Hok|].
  pose proof (Hpresets presets Hok) as Hpar. rewrite Hord in Hpar.
  split; [exact Hpar|]. split.
  - rewrite Hpar. vm_compute. reflexivity.
  - apply (Hfirst 0%nat 1%nat); [lia | by rewrite Hord | by rewrite Hord].
Defined.

(** C9, as stated, fails: a buffer that holds only a tone block for slot 5
    is assembled into one Preset, named "Unknown", that holds the 38 tone
    parameters of that slot. *)
Lemma slots_become_presets_counterexample :
  exists preset,
    JV.group_parameters_into_patches (snd (JV.parse_sysex_file Fixtures.tone_block_msg))
    = Ok [preset]
    /\ JV.name preset = "Unknown"%string
    /\ length (JV.parameters preset) = 38%nat
    /\ Forall (fun p => JV.group_name p = "Tone1"%string /\ slot_of p = Some 5)
          (JV.parameters preset).
Proof.
  eexists. split; [vm_compute; reflexivity|].
  split; [reflexivity|]. split; [reflexivity|].
  apply (bool_decide_unpack _). vm_compute. exact I.
Qed.

Lemma bank_select_triple_witness :
  JV.pc (Fixtures.first_preset Fixtures.bank_32_msg) = Some (JV.VInt 5)
  /\ (0 <= 32 <= 3 ->
      JV.msb (Fixtures.first_preset Fixtures.bank_32_msg) = Some 80
      /\ JV.lsb (Fixtures.first_preset Fixtures.bank_32_msg) = Some 32)
  /\ (32 = 4 ->
      JV.msb (Fixtures.first_preset Fixtures.bank_32_msg) = Some 87
      /\ JV.lsb (Fixtures.first_preset Fixtures.bank_32_msg) = Some 0)
  /\ (32 = 5 ->
      JV.msb (Fixtures.first_preset Fixtures.bank_32_msg) = Some 86
      /\ JV.lsb (Fixtures.first_preset Fixtures.bank_32_msg) = Some 0)
  /\ (32 <= 32 <= 50 ->
      JV.msb (Fixtures.first_preset Fixtures.bank_32_msg) = Some 89
      /\ JV.lsb (Fixtures.first_preset Fixtures.bank_32_msg) = Some (32 - 32))
  /\ (32 < 0 \/ 5 < 32 < 32 \/ 50 < 32 ->
      JV.msb (Fixtures.first_preset Fixtures.bank_32_msg) = None
      /\ JV.lsb (Fixtures.first_preset Fixtures.bank_32_msg) = None).
Proof.
  apply (bank_select_triple (snd (JV.parse_sysex_file Fixtures.bank_32_msg))
           (Fixtures.assembled Fixtures.bank_32_msg)
           (Fixtures.first_preset Fixtures.bank_32_msg) 32 (JV.VInt 5)).
  - vm_compute. reflexivity.
  - vm_compute. apply list_elem_of_here.
  - vm_compute. reflexivity.
  - vm_compute. reflexivity.
Defined.

(** C8, as stated, fails: with category 32 and a bank value outside the
    table the Preset gets no MSB and no LSB (the claim says 89 and 0), and
    with category 0 and bank value 32 it gets MSB 89 and LSB 0. *)
Lemma bank_select_triple_counterexample :
  (exists preset,
      JV.group_parameters_into_patches (snd (JV.parse_sysex_file Fixtures.category_32_msg))
      = Ok [preset]
      /\ JV.last_common "category" (JV.parameters preset) = Some (JV.VInt 32)
      /\ JV.last_common "bank" (JV.parameters preset) = Some (JV.VInt 6)
      /\ JV.msb preset = None /\ JV.lsb preset = None /\ JV.pc preset = Some (JV.VInt 5))
  /\ (exists preset,
      JV.group_parameters_into_patches (snd (JV.parse_sysex_file Fixtures.bank_32_msg))
      = Ok [preset]
      /\ JV.last_common "category" (JV.parameters preset) = Some (JV.VInt 0)
      /\ JV.last_common "bank" (JV.parameters preset) = Some (JV.VInt 32)
      /\ JV.msb preset = Some 89 /\ JV.lsb preset = Some 0
      /\ JV.pc preset = Some (JV.VInt 5)).
Proof.
  split; eexists; (split; [vm_compute; reflexivity|]); repeat split; vm_compute; reflexivity.
Qed.

(** ** The checksum rule *)

Lemma checksum_complement (s : Z) : (s + (0x80 - s mod 0x80) mod 0x80) mod 0x80 = 0.
Proof.
  rewrite Z.add_mod_idemp_r by lia.
  replace (s + (0x80 - s mod 0x80)) with (s - s mod 0x80 + 1 * 0x80) by lia.
  rewrite Z.mod_add by lia.
  rewrite Zminus_mod_idemp_r, Z.sub_diag. reflexivity.
Qed.

Lemma checksum_unique (s c : Z) :
  0 <= c < 0x80 -> (s + c) mod 0x80 = 0 -> c = (0x80 - s mod 0x80) mod 0x80.
Proof.
  intros Hc Hs.
  pose proof (Z.mod_pos_bound s 0x80 ltac:(lia)) as Hb.
  rewrite <- Z.add_mod_idemp_l in Hs by lia.
  destruct (Z.eq_dec (s mod 0x80) 0) as [H0|H0].
  - rewrite H0 in *. rewrite Z.add_0_l, Z.mod_small in Hs by lia.
    rewrite Hs. reflexivity.
  - rewrite (Z.mod_small (0x80 - s mod 0x80)) by lia.
    assert (Hd : (s mod 0x80 + c) mod 0x80 = 0) by exact Hs.
    apply Z.mod_divide in Hd; [|lia]. destruct Hd as [q Hq]. lia.
Qed.

(** The checksum the encoder computes is a 7-bit value that makes the sum
    of the summed bytes and the checksum a multiple of 128. *)
Theorem calculate_checksum_sum_rule (data : list Z) :
  0 <= _calculate_checksum data < 0x80
  /\ (Py.sum data + _calculate_checksum data) mod 0x80 = 0.
Proof.
  unfold _calculate_checksum. split.
  - apply Z.mod_pos_bound. lia.
  - apply checksum_complement.
Qed.

(** The checksum test of the decoder accepts a message that carries a
    4-byte address exactly when its checksum byte is a 7-bit value and the
    address, data and checksum bytes sum to a multiple of 128. *)
Theorem verify_checksum_sum_rule (hdr A D : list Z) (c last : Z) :
  length hdr = 5%nat -> length A = 4%nat ->
  _verify_checksum (hdr ++ A ++ D ++ [c; last]) = true
  <-> 0 <= c < 0x80 /\ (Py.sum (A ++ D) + c) mod 0x80 = 0.
Proof.
  intros Hh HA.
  destruct (verify_checksum_wire hdr A D c last Hh HA) as (_ & _ & ->).
  split.
  - intros ->. split; [apply Z.mod_pos_bound; lia | apply checksum_complement].
  - intros [Hc Hs]. by apply checksum_unique.
Qed.

Lemma verify_checksum_sum_rule_witness :
  _verify_checksum ([0xF0; 0x41; 0x10; 0x6A; 0x12] ++ [0x01; 0x00; 0x00; 0x00]
                    ++ [65] ++ [62; 0xF7]) = true
  <-> 0 <= 62 < 0x80 /\ (Py.sum ([0x01; 0x00; 0x00; 0x00] ++ [65]) + 62) mod 0x80 = 0.
Proof.
  apply (verify_checksum_sum_rule [0xF0; 0x41; 0x10; 0x6A; 0x12] [0x01; 0x00; 0x00; 0x00]
           [65] 62 0xF7); reflexivity.
Defined.

(** ** Catalog queries and the encoder's errors *)

Lemma find_parameter_is_Some P g :
  is_Some (find_parameter P g) <-> P ∈ param_name <$> parameters g.
Proof.
  unfold find_parameter. split.
  - intros [p Hp]. apply find_some in Hp as [Hin Hn].
    apply bool_decide_eq_true in Hn. subst P.
    apply list_elem_of_fmap. exists p. split; [done|]. by apply list_elem_of_In.
  - intros (p & -> & Hin)%list_elem_of_fmap.
    destruct (find _ _) as [q|] eqn:Hf; [by eexists|].
    apply list_elem_of_In in Hin.
    pose proof (find_none _ _ Hf p Hin) as Hn. simpl in Hn.
    by rewrite bool_decide_eq_false in Hn.
Qed.

Lemma get_parameter_info_Some cfg G P p :
  Queries.get_parameter_info cfg G P = Some p <->
  exists g, dict_get G (parameter_groups cfg) = Some g /\ find_parameter P g = Some p.
Proof.
  unfold Queries.get_parameter_info.
  destruct (dict_get G (parameter_groups cfg)) as [g|].
  - split; [by exists g | by intros (g' & [= <-] & ?)].
  - split; [done | by intros (g' & ? & ?)].
Qed.

(** The three catalog queries agree: a name is listed for a group exactly
    when the parameter can be looked up, and a parameter can only be
    looked up in a listed group. *)
Theorem catalog_queries_agree cfg G P :
  (P ∈ Queries.list_parameters cfg G <-> is_Some (Queries.get_parameter_info cfg G P))
  /\ (is_Some (Queries.get_parameter_info cfg G P) -> G ∈ Queries.list_parameter_groups cfg).
Proof.
  unfold Queries.list_parameters, Queries.get_parameter_info, Queries.list_parameter_groups.
  destruct (dict_get G (parameter_groups cfg)) as [g|] eqn:Hg.
  - split; [by rewrite find_parameter_is_Some|].
    intros _. apply dict_get_is_Some. by eexists.
  - split; [|by intros [? ?]].
    split; [by intros ?%elem_of_nil | by intros [? ?]].
Qed.


(** ** The mode switch *)



(** ** The preset builder *)

Lemma same_key_true G P p :
  Builder.same_key G P p = true <-> (Builder.group_name p, Builder.parameter_name p) = (G, P).
Proof.
  unfold Builder.same_key. rewrite andb_true_iff, !bool_decide_eq_true.
  split; [by intros [-> ->] | by intros [= -> ->]].
Qed.

Lemma same_key_other G P G' P' p :
  (G', P') <> (G, P) -> Builder.same_key G P p = true -> Builder.same_key G' P' p = false.
Proof.
  intros Hne H%same_key_true. apply not_true_is_false. intros H'%same_key_true. congruence.
Qed.

Lemma stored_None G P ps : stored G P ps = None <-> (G, P) ∉ keys ps.
Proof.
  unfold stored, keys. induction ps as [|p ps IH]; simpl.
  - split; [intros _; apply not_elem_of_nil | done].
  - rewrite not_elem_of_cons.
    destruct (Builder.same_key G P p) eqn:Hk; simpl.
    + apply same_key_true in Hk. split; [done | intros [Hne _]; congruence].
    + rewrite IH. split; [|by intros [_ ?]]. intros Hn. split; [|done].
      intros Heq. apply not_true_iff_false in Hk. apply Hk. by apply same_key_true.
Qed.

Lemma replace_first_None G P new ps :
  Builder.replace_first G P new ps = None <-> (G, P) ∉ keys ps.
Proof.
  rewrite <- stored_None. unfold stored.
  induction ps as [|p ps IH]; simpl; [done|].
  destruct (Builder.same_key G P p); simpl; [done|].
  rewrite <- IH. by destruct (Builder.replace_first G P new ps).
Qed.

Lemma replace_first_Some G P new ps ps' :
  Builder.same_key G P new = true ->
  Builder.replace_first G P new ps = Some ps' ->
  keys ps' = keys ps
  /\ stored G P ps' = Some (Builder.value new)
  /\ (forall G' P', (G', P') <> (G, P) -> stored G' P' ps' = stored G' P' ps).
Proof.
  intros Hnew. revert ps'. induction ps as [|p ps IH]; intros ps'; simpl; [done|].
  destruct (Builder.same_key G P p) eqn:Hk.
  - intros [= <-]. split; [|split].
    + unfold keys. rewrite !fmap_cons. f_equal.
      apply same_key_true in Hk, Hnew. congruence.
    + unfold stored. simpl. by rewrite Hnew.
    + intros G' P' Hne. unfold stored. simpl.
      by rewrite (same_key_other G P G' P' new), (same_key_other G P G' P' p).
  - destruct (Builder.replace_first G P new ps) as [ps0|]; simpl; [|done].
    intros [= <-]. destruct (IH ps0 eq_refl) as (Hkeys & Hst & Hoth).
    split; [|split].
    + unfold keys in *. rewrite !fmap_cons. by f_equal.
    + unfold stored in *. simpl. by rewrite Hk.
    + intros G' P' Hne. specialize (Hoth G' P' Hne). unfold stored in *. simpl.
      by destruct (Builder.same_key G' P' p).
Qed.

Lemma stored_snoc G P ps new :
  stored G P (ps ++ [new])
  = match stored G P ps with
    | Some v => Some v
    | None => if Builder.same_key G P new then Some (Builder.value new) else None
    end.
Proof.
  unfold stored. induction ps as [|p ps IH]; simpl.
  - by destruct (Builder.same_key G P new).
  - by destruct (Builder.same_key G P p).
Qed.

Lemma delete_first_None G P ps :
  Builder.delete_first G P ps = None <-> (G, P) ∉ keys ps.
Proof.
  rewrite <- stored_None. unfold stored.
  induction ps as [|p ps IH]; simpl; [done|].
  destruct (Builder.same_key G P p); simpl; [done|].
  rewrite <- IH. by destruct (Builder.delete_first G P ps).
Qed.

Lemma delete_first_Some G P ps ps' :
  Builder.delete_first G P ps = Some ps' ->
  S (length ps') = length ps
  /\ (forall G' P', (G', P') <> (G, P) -> stored G' P' ps' = stored G' P' ps)
  /\ (NoDup (keys ps) -> NoDup (keys ps') /\ stored G P ps' = None)
  /\ (forall q, q ∈ ps' -> q ∈ ps).
Proof.
  revert ps'. induction ps as [|p ps IH]; intros ps'; simpl; [done|].
  destruct (Builder.same_key G P p) eqn:Hk.
  - intros [= <-]. split; [done|]. split; [|split].
    + intros G' P' Hne. unfold stored. simpl.
      by rewrite (same_key_other G P G' P' p).
    + unfold keys. rewrite ?fmap_cons. intros [Hn Hnd]%NoDup_cons. split; [done|].
      apply stored_None. apply same_key_true in Hk. by rewrite <- Hk.
    + intros q Hq. by apply list_elem_of_further.
  - destruct (Builder.delete_first G P ps) as [ps0|]; simpl; [|done].
    intros [= <-]. destruct (IH ps0 eq_refl) as (Hlen & Hoth & Hnd & Hsub).
    split; [simpl; lia|]. split; [|split].
    + intros G' P' Hne. specialize (Hoth G' P' Hne). unfold stored in *. simpl.
      by destruct (Builder.same_key G' P' p).
    + unfold keys in *. rewrite ?fmap_cons. intros [Hn Hnd']%NoDup_cons.
      destruct (Hnd Hnd') as [Hnd0 Hst]. split.
      * apply NoDup_cons. split; [|done]. intros Hin. apply Hn.
        apply list_elem_of_fmap in Hin as (q & Hq & Hin).
        apply list_elem_of_fmap. exists q. split; [done|]. by apply Hsub.
      * unfold stored in *. simpl. by rewrite Hk.
    + intros q [->|Hq]%elem_of_cons; [apply list_elem_of_here|].
      apply list_elem_of_further. by apply Hsub.
Qed.

Lemma params_of_say lv msg st : params_of (Builder.say lv msg st) = params_of st.
Proof. done. Qed.

Lemma params_of_store st preset ps :
  params_of (Builder.store st (Builder.set_parameters preset ps)) = ps.
Proof. done. Qed.

(** What [add_parameter] does, by cases. *)
Lemma add_parameter_cases cfg G P V d st :
  (snd (Builder.add_parameter cfg G P V d st) = false
   /\ Builder.current_preset (fst (Builder.add_parameter cfg G P V d st))
      = Builder.current_preset st
   /\ (Builder.current_preset st = None \/ addable cfg G P V = false))
  \/ (snd (Builder.add_parameter cfg G P V d st) = true
      /\ is_Some (Builder.current_preset st)
      /\ is_Some (Builder.current_preset (fst (Builder.add_parameter cfg G P V d st)))
      /\ addable cfg G P V = true
      /\ let new := {| Builder.group_name := G; Builder.parameter_name := P;
                       Builder.value := V; Builder.description := Some d |} in
         match Builder.replace_first G P new (params_of st) with
         | Some ps => params_of (fst (Builder.add_parameter cfg G P V d st)) = ps
         | None => params_of (fst (Builder.add_parameter cfg G P V d st))
                   = params_of st ++ [new]
         end).
Proof.
  unfold Builder.add_parameter, addable, params_of.
  destruct (Builder.current_preset st) as [preset|] eqn:Hcur; [|left; simpl; by auto].
  destruct (Queries.get_parameter_info cfg G P) as [info|]; [|left; simpl; by auto].
  destruct (Builder.valid_value info V); simpl; [|left; simpl; by auto].
  right. split.
  - by destruct (Builder.replace_first _ _ _ _).
  - split; [by eexists|]. split; [by destruct (Builder.replace_first _ _ _ _); eexists|].
    split; [done|]. by destruct (Builder.replace_first _ _ _ _).
Qed.

(** [add_parameter] succeeds exactly when a preset is being built, the
    catalog knows the parameter and the value passes the range test; a
    call that fails leaves the preset as it was. *)
Theorem add_parameter_outcome cfg G P V d st :
  (snd (Builder.add_parameter cfg G P V d st) = true <->
   is_Some (Builder.current_preset st) /\ addable cfg G P V = true)
  /\ (snd (Builder.add_parameter cfg G P V d st) = false ->
      Builder.current_preset (fst (Builder.add_parameter cfg G P V d st))
      = Builder.current_preset st).
Proof.
  destruct (add_parameter_cases cfg G P V d st)
    as [(Hf & Hsame & Hwhy)|(Ht & Hcur & _ & Hadd & _)].
  - split; [|done]. rewrite Hf. split; [done|].
    intros [[p Hp] Ha]. destruct Hwhy; congruence.
  - split; [|congruence]. by rewrite Ht.
Qed.

(** After a successful [add_parameter] the preset stores the value under
    the key, every other key stores what it stored before, a key that was
    present keeps its position and the preset its length, a new key is
    appended, and keys that were pairwise distinct stay so. *)
Theorem add_parameter_stores cfg G P V d st :
  snd (Builder.add_parameter cfg G P V d st) = true ->
  let ps := params_of st in
  let ps' := params_of (fst (Builder.add_parameter cfg G P V d st)) in
  stored G P ps' = Some V
  /\ (forall G' P', (G', P') <> (G, P) -> stored G' P' ps' = stored G' P' ps)
  /\ keys ps' = (if decide ((G, P) ∈ keys ps) then keys ps else keys ps ++ [(G, P)])
  /\ (NoDup (keys ps) -> NoDup (keys ps')).
Proof.
  intros Hok ps ps'.
  destruct (add_parameter_cases cfg G P V d st)
    as [(Hf & _)|(_ & _ & _ & _ & Hres)]; [congruence|].
  simpl in Hres. fold ps ps' in Hres.
  set (new := {| Builder.group_name := G; Builder.parameter_name := P;
                 Builder.value := V; Builder.description := Some d |}) in *.
  assert (Hnew : Builder.same_key G P new = true) by (by apply same_key_true).
  destruct (Builder.replace_first G P new ps) as [ps0|] eqn:Hr.
  - rewrite Hres. destruct (replace_first_Some G P new ps ps0 Hnew Hr) as (Hk & Hs & Ho).
    assert (Hin : (G, P) ∈ keys ps).
    { destruct (decide ((G, P) ∈ keys ps)) as [|Hn]; [done|].
      apply replace_first_None with (new := new) in Hn. congruence. }
    split; [done|]. split; [done|]. rewrite decide_True by done.
    split; [done|]. by rewrite Hk.
  - rewrite Hres. apply replace_first_None in Hr.
    split; [|split; [|split]].
    + rewrite stored_snoc. apply stored_None in Hr. by rewrite Hr, Hnew.
    + intros G' P' Hne. rewrite stored_snoc.
      destruct (stored G' P' ps); [done|].
      by rewrite (same_key_other G P G' P' new).
    + rewrite decide_False by done. unfold keys. by rewrite fmap_app.
    + intros Hnd. unfold keys. rewrite fmap_app. apply NoDup_app.
      split; [done|]. split; [|apply NoDup_singleton].
      intros x Hx ->%list_elem_of_singleton. done.
Qed.

(** [remove_parameter] succeeds exactly when the key is stored, and a
    call that fails leaves the preset as it was. A successful call
    removes one parameter and leaves every other key as it was; when the
    keys were pairwise distinct, the key is gone afterwards. *)
Theorem remove_parameter_outcome G P st :
  let ps := params_of st in
  let ps' := params_of (fst (Builder.remove_parameter G P st)) in
  (snd (Builder.remove_parameter G P st) = true <-> (G, P) ∈ keys ps)
  /\ (snd (Builder.remove_parameter G P st) = false ->
      Builder.current_preset (fst (Builder.remove_parameter G P st))
      = Builder.current_preset st)
  /\ (snd (Builder.remove_parameter G P st) = true ->
      S (length ps') = length ps
      /\ (forall G' P', (G', P') <> (G, P) -> stored G' P' ps' = stored G' P' ps)
      /\ (NoDup (keys ps) -> NoDup (keys ps') /\ stored G P ps' = None)).
Proof.
  intros ps ps'. unfold ps, ps', Builder.remove_parameter, params_of.
  destruct (Builder.current_preset st) as [preset|] eqn:Hcur; simpl.
  - destruct (Builder.delete_first G P (Builder.parameters preset)) as [ps0|] eqn:Hd; simpl.
    + split; [|split; [done|]].
      * split; [|done]. intros _.
        destruct (decide ((G, P) ∈ keys (Builder.parameters preset))) as [|Hn]; [done|].
        apply delete_first_None in Hn. congruence.
      * intros _. destruct (delete_first_Some _ _ _ _ Hd) as (? & ? & ? & _). done.
    + rewrite Hcur. split; [|split; [done|done]].
      split; [done|]. intros Hin. by apply delete_first_None in Hd.
  - rewrite Hcur. split; [|split; [done|done]].
    split; [done | by intros ?%elem_of_nil].
Qed.

(** Adding a parameter under a key the preset does not store and removing
    it again gives back the parameters the preset had. *)
Theorem add_then_remove cfg G P V d st :
  (G, P) ∉ keys (params_of st) ->
  snd (Builder.add_parameter cfg G P V d st) = true ->
  let st' := fst (Builder.add_parameter cfg G P V d st) in
  snd (Builder.remove_parameter G P st') = true
  /\ params_of (fst (Builder.remove_parameter G P st')) = params_of st.
Proof.
  intros Hfresh Hok st'.
  destruct (add_parameter_cases cfg G P V d st)
    as [(Hf & _)|(_ & _ & [preset' Hcur'] & _ & Hres)]; [congruence|].
  simpl in Hres.
  set (new := {| Builder.group_name := G; Builder.parameter_name := P;
                 Builder.value := V; Builder.description := Some d |}) in *.
  pose proof Hfresh as Hr. apply replace_first_None with (new := new) in Hr.
  rewrite Hr in Hres. fold st' in Hres, Hcur'.
  assert (Hdel : Builder.delete_first G P (params_of st ++ [new]) = Some (params_of st)).
  { clear -Hfresh. induction (params_of st) as [|p ps IH]; simpl.
    - unfold Builder.same_key. simpl. by rewrite !bool_decide_eq_true_2.
    - unfold keys in Hfresh. rewrite fmap_cons in Hfresh.
      apply not_elem_of_cons in Hfresh as [Hne Hfresh].
      destruct (Builder.same_key G P p) eqn:Hk.
      + apply same_key_true in Hk. congruence.
      + by rewrite (IH Hfresh). }
  unfold Builder.remove_parameter, params_of in *. rewrite Hcur' in *.
  rewrite Hres, Hdel. done.
Qed.

Lemma stored_upsert G P new ps G' P' :
  Builder.same_key G P new = true ->
  stored G' P' (upsert G P new ps)
  = if decide ((G', P') = (G, P)) then Some (Builder.value new) else stored G' P' ps.
Proof.
  intros Hnew. unfold upsert.
  destruct (Builder.replace_first G P new ps) as [ps0|] eqn:Hr.
  - destruct (replace_first_Some G P new ps ps0 Hnew Hr) as (_ & Hs & Ho).
    destruct (decide ((G', P') = (G, P))) as [[= -> ->]|Hne]; [done | by apply Ho].
  - apply replace_first_None, stored_None in Hr. rewrite stored_snoc.
    destruct (decide ((G', P') = (G, P))) as [[= -> ->]|Hne].
    + by rewrite Hr, Hnew.
    + destruct (stored G' P' ps); [done|]. by rewrite (same_key_other G P G' P' new).
Qed.

Lemma elem_of_upsert G P new ps q : q ∈ upsert G P new ps -> q = new \/ q ∈ ps.
Proof.
  unfold upsert. destruct (Builder.replace_first G P new ps) as [ps0|] eqn:Hr.
  - revert ps0 Hr. induction ps as [|p ps IH]; intros ps0; simpl; [done|].
    destruct (Builder.same_key G P p).
    + intros [= <-] [->|Hq]%elem_of_cons; [by left|]. right. by apply list_elem_of_further.
    + destruct (Builder.replace_first G P new ps) as [ps1|]; simpl; [|done].
      intros [= <-] [->|Hq]%elem_of_cons; [right; apply list_elem_of_here|].
      destruct (IH ps1 eq_refl Hq) as [?|?]; [by left|]. right. by apply list_elem_of_further.
  - intros [? | ->%list_elem_of_singleton]%elem_of_app; [by right | by left].
Qed.

(** The parameters after a call of [add_parameter]. *)
Lemma add_parameter_params cfg G P V d st :
  let r := Builder.add_parameter cfg G P V d st in
  (is_Some (Builder.current_preset st) -> is_Some (Builder.current_preset (fst r)))
  /\ snd r = match Builder.current_preset st with
             | Some _ => addable cfg G P V
             | None => false
             end
  /\ params_of (fst r) = if snd r then upsert G P (mk G P V d) (params_of st) else params_of st.
Proof.
  intros r. unfold r.
  destruct (add_parameter_cases cfg G P V d st)
    as [(Hf & Hsame & Hwhy)|(Ht & [p Hcur] & Hcur' & Hadd & Hres)].
  - rewrite Hf. split; [by rewrite Hsame|]. split.
    + destruct Hwhy as [->| ->]; [done | by destruct (Builder.current_preset st)].
    + unfold params_of. by rewrite Hsame.
  - rewrite Ht, Hcur. split; [done|]. split; [done|].
    simpl in Hres. unfold upsert, mk.
    by destruct (Builder.replace_first _ _ _ _).
Qed.

Lemma numbered_inj prefix i j : numbered prefix i = numbered prefix j -> i = j.
Proof.
  unfold numbered. intros H%String.app_inj. apply pretty_nat_inj in H. lia.
Qed.

(** The loop [add_numbered], by cases on the tests of [add_parameter]. *)
Lemma add_numbered_spec cfg G prefix values : forall i st success,
  is_Some (Builder.current_preset st) ->
  let r := Builder.add_numbered cfg G prefix i values st success in
  is_Some (Builder.current_preset (fst r))
  /\ (snd r = true <->
      success = true
      /\ forall j v, values !! j = Some v ->
                     addable cfg G (numbered prefix (i + j)) (VInt v) = true)
  /\ (forall j v, values !! j = Some v ->
        stored G (numbered prefix (i + j)) (params_of (fst r))
        = if addable cfg G (numbered prefix (i + j)) (VInt v) then Some (VInt v)
          else stored G (numbered prefix (i + j)) (params_of st))
  /\ (forall G' P',
        (forall j, (j < length values)%nat -> (G', P') <> (G, numbered prefix (i + j))) ->
        stored G' P' (params_of (fst r)) = stored G' P' (params_of st))
  /\ (forall cfg', validated cfg' (params_of st) ->
        (forall j v, values !! j = Some v ->
           addable cfg G (numbered prefix (i + j)) (VInt v) = true ->
           addable cfg' G (numbered prefix (i + j)) (VInt v) = true) ->
        validated cfg' (params_of (fst r))).
Proof.
  induction values as [|v values IH]; intros i st success Hcur r.
  - unfold r. simpl. split; [done|]. split; [|split; [done|split; [done|done]]].
    split; [done | by intros [? _]].
  - unfold r. cbn [Builder.add_numbered].
    fold (numbered prefix i).
    destruct (add_parameter_params cfg G (numbered prefix i) (VInt v) "" st)
      as (Hc1 & Hok1 & Hps1).
    destruct (Builder.add_parameter cfg G (numbered prefix i) (VInt v) "" st)
      as [st1 ok1] eqn:Hadd.
    cbn [fst snd] in *.
    destruct Hcur as [preset Hcur]. rewrite Hcur in Hok1.
    specialize (Hc1 (ex_intro _ preset Hcur)).
    destruct (IH (S i) st1 (success && ok1) Hc1) as (Hc2 & Hok2 & Hst2 & Hoth2 & Hval2).
    assert (Hkey : Builder.same_key G (numbered prefix i)
                     (mk G (numbered prefix i) (VInt v) "") = true)
      by (by apply same_key_true).
    assert (Hhere : forall G' P',
               stored G' P' (params_of st1)
               = if decide ((G', P') = (G, numbered prefix i))
                 then (if ok1 then Some (VInt v) else stored G' P' (params_of st))
                 else stored G' P' (params_of st)).
    { intros G' P'. rewrite Hps1. destruct ok1.
      - by rewrite stored_upsert.
      - by destruct (decide _). }
    split; [done|]. split; [|split; [|split]].
    + rewrite Hok2, andb_true_iff. split.
      * intros [[Hs Ho] Hall]. split; [done|]. intros [|j] w Hj.
        -- injection Hj as <-. rewrite Nat.add_0_r. congruence.
        -- replace (i + S j)%nat with (S i + j)%nat by lia. by apply Hall.
      * intros [Hs Hall]. split; [split; [done|]|].
        -- rewrite Hok1. specialize (Hall 0%nat v eq_refl).
           by rewrite Nat.add_0_r in Hall.
        -- intros j w Hj. replace (S i + j)%nat with (i + S j)%nat by lia. by apply Hall.
    + intros [|j] w Hj.
      * injection Hj as <-. rewrite Nat.add_0_r.
        rewrite Hoth2.
        -- rewrite Hhere, decide_True by done. by rewrite Hok1.
        -- intros j _ [= Hn]. apply numbered_inj in Hn. lia.
      * replace (i + S j)%nat with (S i + j)%nat by lia.
        rewrite (Hst2 j w Hj).
        destruct (addable cfg G (numbered prefix (S i + j)) (VInt w)); [done|].
        rewrite Hhere, decide_False; [done|].
        intros [= Hn]. apply numbered_inj in Hn. lia.
    + intros G' P' Hne. rewrite Hoth2.
      * rewrite Hhere, decide_False; [done|].
        specialize (Hne 0%nat ltac:(simpl; lia)). by rewrite Nat.add_0_r in Hne.
      * intros j Hj. replace (S i + j)%nat with (i + S j)%nat by lia.
        apply Hne. simpl. lia.
    + intros cfg' Hv Himp. apply Hval2.
      * rewrite Hps1. destruct ok1; [|done].
        apply Forall_forall. intros q [->|Hq]%elem_of_upsert.
        -- simpl. specialize (Himp 0%nat v eq_refl). rewrite Nat.add_0_r in Himp.
           apply Himp. congruence.
        -- by apply (proj1 (Forall_forall _ _) Hv).
      * intros j w Hj. replace (S i + j)%nat with (i + S j)%nat by lia. by apply Himp.
Qed.



Lemma efx_values_length params : length (take 12 (params ++ replicate 12 0)) = 12%nat.
Proof. rewrite length_take, length_app, length_replicate. lia. Qed.

Lemma efx_values_lookup params (j : nat) :
  (j < 12)%nat ->
  take 12 (params ++ replicate 12 0) !! j = Some (default 0 (params !! j)).
Proof.
  intros Hj. rewrite lookup_take_lt by done.
  destruct (params !! j) as [c|] eqn:Hp; cbn [default].
  - by rewrite lookup_app_l_Some with (x := c).
  - apply lookup_ge_None in Hp. rewrite lookup_app_r by done.
    apply lookup_replicate_2. lia.
Qed.

(** While a preset is being built, [set_efx_parameters] stores the type
    under 'EFX:Type' and exactly twelve values under 'EFX:Parameter 1' to
    'EFX:Parameter 12': the values given, cut after the twelfth or
    completed with zeros. Each value that passes the tests of
    [add_parameter] is stored, the others leave their parameter as it
    was, and the call returns [True] exactly when all thirteen pass. *)
Theorem set_efx_parameters_stores cfg efx_type params st :
  is_Some (Builder.current_preset st) ->
  let r := Builder.set_efx_parameters cfg efx_type params st in
  let G := "temp_performance_common"%string in
  let name_of := numbered "EFX:Parameter " in
  let value_at (j : nat) := default 0 (params !! j) in
  (snd r = true <->
   addable cfg G "EFX:Type" (VInt efx_type) = true
   /\ forall j, (j < 12)%nat -> addable cfg G (name_of j) (VInt (value_at j)) = true)
  /\ stored G "EFX:Type" (params_of (fst r))
     = (if addable cfg G "EFX:Type" (VInt efx_type) then Some (VInt efx_type)
        else stored G "EFX:Type" (params_of st))
  /\ (forall j, (j < 12)%nat ->
        stored G (name_of j) (params_of (fst r))
        = if addable cfg G (name_of j) (VInt (value_at j)) then Some (VInt (value_at j))
          else stored G (name_of j) (params_of st)).
Proof.
  intros [preset Hcur] r G name_of value_at.
  destruct (add_parameter_params cfg G "EFX:Type" (VInt efx_type) "" st)
    as (Hc1 & Hok1 & Hps1).
  assert (Hr : r = Builder.add_numbered cfg G "EFX:Parameter " 0
                     (take 12 (params ++ replicate 12 0))
                     (fst (Builder.add_parameter cfg G "EFX:Type" (VInt efx_type) "" st))
                     (snd (Builder.add_parameter cfg G "EFX:Type" (VInt efx_type) "" st))).
  { unfold r, Builder.set_efx_parameters. rewrite Hcur. fold G.
    by destruct (Builder.add_parameter cfg G "EFX:Type" (VInt efx_type) "" st). }
  destruct (Builder.add_parameter cfg G "EFX:Type" (VInt efx_type) "" st) as [st1 ok1].
  cbn [fst snd] in *. rewrite Hcur in Hok1.
  specialize (Hc1 (ex_intro _ preset Hcur)).
  destruct (add_numbered_spec cfg G "EFX:Parameter " (take 12 (params ++ replicate 12 0))
              0%nat st1 ok1 Hc1) as (_ & Hok & Hst & Hoth & _).
  rewrite <- Hr in Hok, Hst, Hoth.
  assert (Hkey : Builder.same_key G "EFX:Type" (mk G "EFX:Type" (VInt efx_type) "") = true)
    by (by apply same_key_true).
  assert (Hhere : forall P',
             stored G P' (params_of st1)
             = if decide (P' = "EFX:Type"%string)
               then (if ok1 then Some (VInt efx_type) else stored G P' (params_of st))
               else stored G P' (params_of st)).
  { intros P'. rewrite Hps1. destruct ok1.
    - rewrite stored_upsert by done. simpl.
      destruct (decide (P' = "EFX:Type"%string)) as [->|Hne].
      + by rewrite decide_True.
      + rewrite decide_False; [done|]. by intros [= ?].
    - by destruct (decide _). }
  split; [|split].
  - rewrite Hok, Hok1. split.
    + intros [Ht Hall]. split; [done|]. intros j Hj.
      apply (Hall j). by apply efx_values_lookup.
    + intros [Ht Hall]. split; [done|]. intros j c Hjc.
      assert (Hj : (j < 12)%nat).
      { apply lookup_lt_Some in Hjc. by rewrite efx_values_length in Hjc. }
      rewrite efx_values_lookup in Hjc by done. injection Hjc as <-. by apply Hall.
  - rewrite Hoth.
    + rewrite Hhere, decide_True by done. by rewrite Hok1.
    + intros j _ Hn. unfold name_of, numbered in Hn. simpl in Hn. discriminate.
  - intros j Hj.
    pose proof (Hst j (value_at j) (efx_values_lookup params j Hj)) as Hj'.
    cbn [Nat.add] in Hj'. fold name_of in Hj'. rewrite Hj'.
    destruct (addable cfg G (name_of j) (VInt (value_at j))); [done|].
    rewrite Hhere, decide_False; [done|].
    unfold name_of, numbered. simpl. discriminate.
Qed.

(** ** What the builder stores can be sent *)

Lemma valid_value_accepted p V : Builder.valid_value p V = true <-> accepted p V.
Proof. by destruct V. Qed.

Lemma addable_build cfg G P V dev :
  addable cfg G P V = true -> exists msg, build_sysex_message cfg G P V dev = Ok msg.
Proof.
  unfold addable. destruct (Queries.get_parameter_info cfg G P) as [p|] eqn:Hi; [|done].
  intros Hv%valid_value_accepted.
  apply get_parameter_info_Some in Hi as (g & Hg & Hp).
  eexists. by apply build_sysex_message_accepted.
Qed.

Lemma validated_upsert cfg G P V d ps :
  validated cfg ps -> addable cfg G P V = true -> validated cfg (upsert G P (mk G P V d) ps).
Proof.
  intros Hv Ha. apply Forall_forall. intros q [->|Hq]%elem_of_upsert; [done|].
  by apply (proj1 (Forall_forall _ _) Hv).
Qed.

Lemma validated_add cfg G P V d st :
  validated cfg (params_of st) ->
  validated cfg (params_of (fst (Builder.add_parameter cfg G P V d st))).
Proof.
  intros Hv. destruct (add_parameter_params cfg G P V d st) as (_ & Hok & ->).
  destruct (snd (Builder.add_parameter cfg G P V d st)); [|done].
  apply validated_upsert; [done|]. by destruct (Builder.current_preset st).
Qed.

(** Every operation of the builder keeps the preset within what the
    encoder accepts: when every stored parameter is known to the catalog
    with a value that passes the range test, the same holds after a new
    preset is started and after each call that adds, removes, names or
    sets the effect parameters. *)
Theorem builder_keeps_validated cfg st :
  validated cfg (params_of st) ->
  (forall n t d now, validated cfg (params_of (Builder.create_new_preset n t d now st)))
  /\ (forall G P V d, validated cfg (params_of (fst (Builder.add_parameter cfg G P V d st))))
  /\ (forall G P, validated cfg (params_of (fst (Builder.remove_parameter G P st))))
  /\ (forall chars,
        validated cfg (params_of (fst (Builder.set_performance_name cfg chars st))))
  /\ (forall efx_type params,
        validated cfg (params_of (fst (Builder.set_efx_parameters cfg efx_type params st)))).
Proof.
  intros Hv. split; [|split; [|split; [|split]]].
  - intros n t d now. apply Forall_nil_2.
  - intros G P V d. by apply validated_add.
  - intros G P. unfold Builder.remove_parameter, params_of in *.
    destruct (Builder.current_preset st) as [preset|] eqn:Hcur; simpl; [|by rewrite Hcur].
    destruct (Builder.delete_first G P (Builder.parameters preset)) as [ps0|] eqn:Hd; simpl.
    + destruct (delete_first_Some _ _ _ _ Hd) as (_ & _ & _ & Hsub).
      apply Forall_forall. intros q Hq. apply (proj1 (Forall_forall _ _) Hv). by apply Hsub.
    + by rewrite Hcur.
  - intros chars. unfold Builder.set_performance_name.
    destruct (Builder.current_preset st) as [preset|] eqn:Hcur; [|done].
    by apply (add_numbered_spec cfg "temp_performance_common" "Performance name "
                (Builder.pad_name chars) 0%nat st true (ex_intro _ preset Hcur)).
  - intros efx_type params. unfold Builder.set_efx_parameters.
    destruct (Builder.current_preset st) as [preset|] eqn:Hcur; [|done].
    pose proof (validated_add cfg "temp_performance_common" "EFX:Type" (VInt efx_type) ""
                  st Hv) as Hv1.
    destruct (add_parameter_params cfg "temp_performance_common" "EFX:Type"
                (VInt efx_type) "" st) as (Hc1 & _ & _).
    specialize (Hc1 (ex_intro _ preset Hcur)).
    destruct (Builder.add_parameter cfg "temp_performance_common" "EFX:Type"
                (VInt efx_type) "" st) as [st1 ok1].
    by apply (add_numbered_spec cfg "temp_performance_common" "EFX:Parameter "
                (take 12 (params ++ replicate 12 0)) 0%nat st1 ok1 Hc1).
Qed.

Lemma foldl_count {A} (f : A -> bool) (l : list A) : forall c,
  (c <= foldl (fun n x => if f x then S n else n) c l <= c + length l)%nat
  /\ (Forall (fun x => f x = true) l ->
      foldl (fun n x => if f x then S n else n) c l = (c + length l)%nat).
Proof.
  induction l as [|x l IH]; intros c; simpl; [split; [lia | intros _; lia]|].
  destruct (IH (if f x then S c else c)) as [Hb Hall]. split.
  - destruct (f x); lia.
  - intros [Hx Hl]%Forall_cons. rewrite (Hall Hl), Hx. lia.
Qed.

(** [apply_preset_to_jv1080] never counts more successes than the preset
    has parameters; and when every stored parameter passes the tests of
    [add_parameter] and the port takes every message, each parameter is
    encoded and sent, so the two counts are equal. *)
Theorem apply_preset_counts send_sysex cfg preset dev :
  let r := Builder.apply_preset_to_jv1080 send_sysex cfg preset dev in
  snd r = length (Builder.parameters preset)
  /\ (fst r <= snd r)%nat
  /\ (validated cfg (Builder.parameters preset) ->
      (forall message, send_sysex message = true) ->
      fst r = snd r).
Proof.
  intros r. unfold r, Builder.apply_preset_to_jv1080. cbn [fst snd].
  set (f := fun param =>
              Queries.send_parameter send_sysex cfg (Builder.group_name param)
                (Builder.parameter_name param) (Builder.value param) dev).
  destruct (foldl_count f (Builder.parameters preset) 0%nat) as [Hb Hall].
  split; [done|]. split; [apply Hb|].
  intros Hv Hsend. apply Hall.
  apply Forall_forall. intros p Hp. unfold f, Queries.send_parameter.
  destruct (addable_build cfg (Builder.group_name p) (Builder.parameter_name p)
              (Builder.value p) dev) as [msg ->]; [|by apply Hsend].
  by apply (proj1 (Forall_forall _ _) Hv).
Qed.

(** *** Examples on a started builder *)

Lemma add_parameter_stores_witness :
  snd (Builder.add_parameter Fixtures.small_cfg "temp_performance_common" "EFX:Type"
         (VInt 7) "" started) = true
  /\ stored "temp_performance_common" "EFX:Type"
       (params_of (fst (Builder.add_parameter Fixtures.small_cfg "temp_performance_common"
                          "EFX:Type" (VInt 7) "" started)))
     = Some (VInt 7)
  /\ keys (params_of (fst (Builder.add_parameter Fixtures.small_cfg
                             "temp_performance_common" "EFX:Type" (VInt 7) "" started)))
     = [("temp_performance_common"%string, "EFX:Type"%string)].
Proof.
  split; [reflexivity|].
  destruct (add_parameter_stores Fixtures.small_cfg "temp_performance_common" "EFX:Type"
              (VInt 7) "" started eq_refl) as (Hstored & _ & Hkeys & _).
  split; [exact Hstored | exact Hkeys].
Defined.

Lemma add_then_remove_witness :
  snd (Builder.remove_parameter "temp_performance_common" "EFX:Type"
         (fst (Builder.add_parameter Fixtures.small_cfg "temp_performance_common" "EFX:Type"
                 (VInt 7) "" started))) = true
  /\ params_of (fst (Builder.remove_parameter "temp_performance_common" "EFX:Type"
                       (fst (Builder.add_parameter Fixtures.small_cfg
                               "temp_performance_common" "EFX:Type" (VInt 7) "" started))))
     = params_of started.
Proof.
  apply (add_then_remove Fixtures.small_cfg "temp_performance_common" "EFX:Type"
           (VInt 7) "" started).
  - apply not_elem_of_nil.
  - reflexivity.
Defined.


Lemma set_efx_parameters_stores_witness :
  snd (Builder.set_efx_parameters Fixtures.small_cfg 7 [1; 2] started) = false
  /\ stored "temp_performance_common" "EFX:Type"
       (params_of (fst (Builder.set_efx_parameters Fixtures.small_cfg 7 [1; 2] started)))
     = Some (VInt 7)
  /\ stored "temp_performance_common" "EFX:Parameter 1"
       (params_of (fst (Builder.set_efx_parameters Fixtures.small_cfg 7 [1; 2] started)))
     = None.
Proof.
  destruct (set_efx_parameters_stores Fixtures.small_cfg 7 [1; 2] started
              (ex_intro _ _ eq_refl)) as (Hok & Htype & Hst).
  split; [|split].
  - destruct (snd (Builder.set_efx_parameters Fixtures.small_cfg 7 [1; 2] started))
      eqn:Hr; [|reflexivity].
    destruct (proj1 Hok eq_refl) as [_ Hall].
    pose proof (Hall 0%nat ltac:(lia)) as Hbad. vm_compute in Hbad. discriminate Hbad.
  - exact Htype.
  - exact (Hst 0%nat ltac:(lia)).
Defined.

Lemma builder_keeps_validated_witness :
  validated Fixtures.small_cfg
    (params_of (fst (Builder.add_parameter Fixtures.small_cfg "temp_performance_common"
                       "EFX:Type" (VInt 7) "" started)))
  /\ validated Fixtures.small_cfg
       (params_of (fst (Builder.set_performance_name Fixtures.small_cfg [74; 86] started))).
Proof.
  destruct (builder_keeps_validated Fixtures.small_cfg started (Forall_nil_2 _))
    as (_ & Hadd & _ & Hname & _).
  split; [apply Hadd | apply Hname].
Defined.

(** ** Presets made of decoded parameters *)

Lemma bucket_step (grouped : list (string * list ParsedParameter)) seen param :
  bucketed grouped seen ->
  bucketed (dict_set (group_name param)
              (default [] (dict_get (group_name param) grouped) ++ [param]) grouped)
           (seen ++ [param]).
Proof.
  intros (Hnd & Hkeys & Hget). split; [by apply dict_set_NoDup|]. split.
  - intros g. rewrite dict_set_keys.
    destruct (decide (group_name param ∈ grouped.*1)) as [Hin|Hin].
    + rewrite Hkeys. split.
      * intros (p & Hp & Hg). exists p. split; [|done]. apply elem_of_app. by left.
      * intros (p & [Hp|Hp%list_elem_of_singleton]%elem_of_app & Hg).
        -- by exists p.
        -- subst p. rewrite <- Hg. by apply Hkeys.
    + rewrite elem_of_app, list_elem_of_singleton, Hkeys. split.
      * intros [(p & Hp & Hg)| ->].
        -- exists p. split; [|done]. apply elem_of_app. by left.
        -- exists param. split; [|done]. apply elem_of_app. right.
           by apply list_elem_of_singleton.
      * intros (p & [Hp|Hp%list_elem_of_singleton]%elem_of_app & Hg).
        -- left. by exists p.
        -- right. by subst p.
  - intros g. rewrite dict_get_set, filter_app.
    destruct (decide (group_name param = g)) as [<-|Hne].
    + cbn [default]. rewrite Hget. f_equal.
      rewrite filter_cons, decide_True by done. done.
    + rewrite Hget. rewrite filter_cons, decide_False by done.
      by rewrite filter_nil, app_nil_r.
Qed.

Lemma group_parameters_by_type_bucketed params :
  bucketed (Presets.group_parameters_by_type params) params.
Proof.
  unfold Presets.group_parameters_by_type.
  induction params as [|param params IH] using rev_ind.
  - split; [apply NoDup_nil_2|]. split; [|done].
    intros g. split; [by intros ?%elem_of_nil | by intros (p & ?%elem_of_nil & _)].
  - rewrite foldl_app. cbn [foldl]. by apply bucket_step.
Qed.

(** [group_parameters_by_type] splits the parameters by group name: the
    dictionary has one key for every group name that occurs and no other,
    no key twice, and under each key exactly the parameters of that group,
    in the order they had. *)
Theorem group_parameters_by_type_partition params :
  let grouped := Presets.group_parameters_by_type params in
  NoDup grouped.*1
  /\ (forall g, g ∈ grouped.*1 <-> exists p, p ∈ params /\ group_name p = g)
  /\ (forall g ps, (g, ps) ∈ grouped ->
                   ps <> [] /\ ps = filter (fun p => group_name p = g) params).
Proof.
  intros grouped. destruct (group_parameters_by_type_bucketed params) as (Hnd & Hkeys & Hget).
  fold grouped in Hnd, Hkeys, Hget.
  split; [done|]. split; [done|].
  intros g ps Hin.
  pose proof (dict_get_elem_of_NoDup g ps grouped Hnd Hin) as Hg.
  specialize (Hget g). rewrite Hg in Hget. simpl in Hget. subst ps.
  split; [|done].
  assert (Hk : g ∈ grouped.*1) by (apply list_elem_of_fmap; by exists (g, filter (fun p => group_name p = g) params)).
  apply Hkeys in Hk as (p & Hp & Hgp).
  intros Hnil. assert (Hpf : p ∈ filter (fun p => group_name p = g) params)
    by (by apply list_elem_of_filter).
  rewrite Hnil in Hpf. by apply elem_of_nil in Hpf.
Qed.

Lemma string_app_cons c (s t : string) : String c s +:+ t = String c (s +:+ t).
Proof. reflexivity. Qed.

Lemma string_app_nil (t : string) : "" +:+ t = t.
Proof. reflexivity. Qed.

Lemma prefix_app (sub s : string) :
  String.prefix sub s = true <-> exists post, s = sub +:+ post.
Proof.
  revert s. induction sub as [|c sub IH]; intros s.
  - destruct s; simpl; (split; [intros _; eexists; by rewrite string_app_nil | done]).
  - destruct s as [|c' s]; simpl.
    + split; [done|]. intros [post Hp]. by rewrite string_app_cons in Hp.
    + destruct (Ascii.ascii_dec c c') as [->|Hne].
      * rewrite IH. split.
        -- intros [post ->]. by exists post.
        -- intros [post Hp]. rewrite string_app_cons in Hp. injection Hp as ->. by exists post.
      * split; [done|]. intros [post Hp]. rewrite string_app_cons in Hp. congruence.
Qed.

Lemma contains_substring (sub s : string) :
  Presets.contains sub s = true <-> substring_of sub s.
Proof.
  unfold substring_of. induction s as [|c s IH]; cbn [Presets.contains].
  - rewrite orb_false_r, prefix_app. split.
    + intros [post Hp]. exists EmptyString, post. by rewrite string_app_nil.
    + intros (pre & post & Hs). destruct pre as [|c pre].
      * rewrite string_app_nil in Hs. by exists post.
      * by rewrite string_app_cons in Hs.
  - rewrite orb_true_iff, prefix_app, IH. split.
    + intros [[post Hp]|(pre & post & Hs)].
      * exists EmptyString, post. by rewrite string_app_nil.
      * exists (String c pre), post. rewrite string_app_cons. by f_equal.
    + intros (pre & post & Hs). destruct pre as [|c' pre].
      * left. rewrite string_app_nil in Hs. by exists post.
      * right. rewrite string_app_cons in Hs. injection Hs as -> Hs. by exists pre, post.
Qed.

Lemma existsb_contains sub (params : list ParsedParameter) :
  existsb (Presets.contains sub) (group_name <$> params) = true
  <-> exists p, p ∈ params /\ substring_of sub (group_name p).
Proof.
  rewrite existsb_exists. split.
  - intros (g & Hin & Hc). apply list_elem_of_In, list_elem_of_fmap in Hin as (p & -> & Hp).
    exists p. split; [done|]. by apply contains_substring.
  - intros (p & Hp & Hs). exists (group_name p). split.
    + apply list_elem_of_In, list_elem_of_fmap. by exists p.
    + by apply contains_substring.
Qed.

(** [create_preset_from_parameters] keeps the name and the parameters,
    and types the preset by the group names alone: 'performance' when
    some group name contains the word 'performance', otherwise 'patch'
    when some group name contains 'patch', otherwise 'unknown'; an empty
    parameter list gives 'unknown'. *)
Theorem create_preset_type_rule params preset_name :
  let preset := Presets.create_preset_from_parameters params preset_name in
  let mentions word := exists p, p ∈ params /\ substring_of word (group_name p) in
  Presets.name preset = preset_name
  /\ Presets.parameters preset = params
  /\ (Presets.preset_type preset = "performance"%string <-> mentions "performance"%string)
  /\ (Presets.preset_type preset = "patch"%string <->
      ~ mentions "performance"%string /\ mentions "patch"%string)
  /\ (Presets.preset_type preset = "unknown"%string <->
      ~ mentions "performance"%string /\ ~ mentions "patch"%string).
Proof.
  intros preset mentions. split; [done|]. split; [done|].
  unfold preset, Presets.create_preset_from_parameters. cbn [Presets.preset_type].
  pose proof (existsb_contains "performance" params) as H1.
  pose proof (existsb_contains "patch" params) as H2.
  fold (mentions "performance"%string) in H1. fold (mentions "patch"%string) in H2.
  destruct (existsb (Presets.contains "performance") (group_name <$> params)).
  - split; [by rewrite <- H1|]. split.
    + split; [done|]. intros [Hn _]. destruct Hn. by apply H1.
    + split; [done|]. intros [Hn _]. destruct Hn. by apply H1.
  - assert (Hn1 : ~ mentions "performance"%string) by (intros ?%H1; done).
    destruct (existsb (Presets.contains "patch") (group_name <$> params)).
    + split; [split; [done | by intros ?%H1]|]. split.
      * split; [intros _; split; [done | by apply H2] | done].
      * split; [done|]. intros [_ Hn]. destruct Hn. by apply H2.
    + assert (Hn2 : ~ mentions "patch"%string) by (intros ?%H2; done).
      split; [split; [done | by intros ?%H1]|]. split.
      * split; [done | by intros [_ ?%H2]].
      * done.
Qed.

(** ** Framing: what the two framers carve out *)

Lemma occurs_in_snoc m seen b : occurs_in m seen -> occurs_in m (seen ++ [b]).
Proof.
  intros (pre & post & ->). exists pre, (post ++ [b]). by rewrite <- !app_assoc.
Qed.

Lemma frame_step_framing st seen byte :
  framing st seen -> framing (frame_step st byte) (seen ++ [byte]).
Proof.
  intros (Hm & Hin & Hout). unfold frame_step.
  destruct (Z.eqb_spec byte 0xF0) as [->|H0].
  - split; [|split]; cbn [messages current_message in_sysex].
    + intros m Hmem. destruct (Hm m Hmem). split; [done | by apply occurs_in_snoc].
    + intros _. exists seen, []. repeat split; apply not_elem_of_nil.
    + done.
  - destruct (Z.eqb_spec byte 0xF7) as [->|H7].
    + destruct (in_sysex st) eqn:Hs.
      * destruct (Hin eq_refl) as (pre & body & Hseen & Hcur & Hb0 & Hb7).
        split; [|split]; cbn [messages current_message in_sysex]; [|done|done].
        intros m [Hmem|Hmem%list_elem_of_singleton]%elem_of_app.
        -- destruct (Hm m Hmem). split; [done | by apply occurs_in_snoc].
        -- subst m. split.
           ++ exists body. by rewrite Hcur.
           ++ exists pre, []. by rewrite app_nil_r, Hseen, <- app_assoc.
      * split; [|split]; cbn [messages current_message in_sysex]; [|done|done].
        intros m Hmem. destruct (Hm m Hmem). split; [done | by apply occurs_in_snoc].
    + destruct (in_sysex st) eqn:Hs.
      * destruct (Hin eq_refl) as (pre & body & Hseen & Hcur & Hb0 & Hb7).
        split; [|split]; cbn [messages current_message in_sysex]; [| |done].
        -- intros m Hmem. destruct (Hm m Hmem). split; [done | by apply occurs_in_snoc].
        -- intros _. exists pre, (body ++ [byte]). rewrite Hseen, Hcur.
           split; [by rewrite <- app_assoc|]. split; [done|].
           split; rewrite not_elem_of_app, list_elem_of_singleton; split; congruence.
      * split; [|split]; [|by rewrite Hs|intros _; by apply Hout].
        intros m Hmem. destruct (Hm m Hmem). split; [done | by apply occurs_in_snoc].
Qed.

Lemma frame_run_framing data : forall st seen,
  framing st seen -> framing (frame_run st data) (seen ++ data).
Proof.
  unfold frame_run. induction data as [|b data IH]; intros st seen H; simpl.
  - by rewrite app_nil_r.
  - replace (seen ++ b :: data) with ((seen ++ [b]) ++ data) by (by rewrite <- app_assoc).
    apply IH. by apply frame_step_framing.
Qed.

(** Every message the framer of the YAML-driven decoder returns starts
    with F0, ends with F7, has neither byte in between, and occurs in the
    buffer as it stands: the framer emits nothing it did not read. *)
Theorem extracted_messages_well_framed data m :
  m ∈ _extract_sysex_messages data -> well_framed m /\ occurs_in m data.
Proof.
  rewrite extract_sysex_messages_run. intros Hm.
  assert (H0 : framing framer_init []).
  { split; [by intros ? ?%elem_of_nil | split; [done|done]]. }
  apply (frame_run_framing data) in H0. by apply H0.
Qed.

Lemma extracted_messages_well_framed_witness :
  well_framed [0xF0; 0x41; 0xF7]
  /\ occurs_in [0xF0; 0x41; 0xF7] [0x00; 0xF0; 0x01; 0xF0; 0x41; 0xF7; 0xF7].
Proof.
  apply (extracted_messages_well_framed [0x00; 0xF0; 0x01; 0xF0; 0x41; 0xF7; 0xF7]).
  apply (bool_decide_unpack _). vm_compute. exact I.
Defined.

(** The framer on a well-framed message, started outside a message: the
    message is appended, nothing is logged. *)
Lemma frame_run_body data : forall st,
  in_sysex st = true -> 0xF0 ∉ data -> 0xF7 ∉ data ->
  frame_run st data
  = {| messages := messages st; current_message := current_message st ++ data;
       in_sysex := true; frame_log := frame_log st |}.
Proof.
  unfold frame_run. induction data as [|b data IH]; intros st Hs H0 H7; simpl.
  - rewrite app_nil_r. destruct st. simpl in *. by subst.
  - apply not_elem_of_cons in H0 as [Hb0 H0]. apply not_elem_of_cons in H7 as [Hb7 H7].
    unfold frame_step at 2.
    destruct (Z.eqb_spec b 0xF0) as [|_]; [done|].
    destruct (Z.eqb_spec b 0xF7) as [|_]; [done|].
    rewrite Hs. rewrite IH by done. cbn [messages current_message in_sysex frame_log].
    by rewrite <- app_assoc.
Qed.

Lemma frame_run_message st body :
  in_sysex st = false -> 0xF0 ∉ body -> 0xF7 ∉ body ->
  frame_run st (0xF0 :: body ++ [0xF7])
  = {| messages := messages st ++ [0xF0 :: body ++ [0xF7]]; current_message := [];
       in_sysex := false; frame_log := frame_log st |}.
Proof.
  intros Hs H0 H7.
  change (0xF0 :: body ++ [0xF7]) with ([0xF0] ++ body ++ [0xF7]) at 1.
  rewrite !frame_run_app.
  assert (H1 : frame_run st [0xF0]
               = {| messages := messages st; current_message := [0xF0];
                    in_sysex := true; frame_log := frame_log st |}).
  { unfold frame_run. simpl. unfold frame_step. simpl. by rewrite Hs. }
  rewrite H1. rewrite (frame_run_body body) by done.
  unfold frame_run. simpl. unfold frame_step. simpl. done.
Qed.

Lemma frame_run_concat ms : forall st,
  in_sysex st = false -> Forall well_framed ms ->
  frame_run st (concat ms)
  = {| messages := messages st ++ ms; current_message := [];
       in_sysex := false; frame_log := frame_log st |}
    \/ (ms = [] /\ frame_run st (concat ms) = st).
Proof.
  induction ms as [|m ms IH]; intros st Hs Hall.
  - right. done.
  - left. apply Forall_cons in Hall as [(body & -> & H0 & H7) Hall].
    rewrite concat_cons, frame_run_app, frame_run_message by done.
    destruct (IH {| messages := messages st ++ [0xF0 :: body ++ [0xF7]];
                    current_message := []; in_sysex := false;
                    frame_log := frame_log st |} eq_refl Hall) as [->|[-> ->]].
    + cbn [messages frame_log]. by rewrite <- app_assoc.
    + done.
Qed.

Lemma jv_frames_concat ms :
  Forall well_framed ms -> JV.sysex_messages (concat ms) = ms.
Proof.
  induction ms as [|m ms IH]; intros Hall; [done|].
  apply Forall_cons in Hall as [(body & -> & H0 & H7) Hall].
  rewrite concat_cons. simpl. rewrite <- app_assoc. simpl.
  rewrite jv_frames_message by done. by rewrite IH.
Qed.

Lemma extract_concat ms :
  Forall well_framed ms -> _extract_sysex_messages_log (concat ms) = ([], ms).
Proof.
  intros Hall. unfold _extract_sysex_messages_log.
  destruct (frame_run_concat ms framer_init eq_refl Hall) as [->|[-> ->]]; done.
Qed.

(** A buffer made of well-framed messages laid end to end is split into
    exactly these messages by both framers, and the framer of the
    YAML-driven decoder logs no warning on it. *)
Theorem framers_split_concatenation ms :
  Forall well_framed ms ->
  _extract_sysex_messages_log (concat ms) = ([], ms)
  /\ JV.sysex_messages (concat ms) = ms.
Proof.
  intros Hall. split; [by apply extract_concat | by apply jv_frames_concat].
Qed.

Lemma well_framed_example (m : list Z) :
  (exists body, m = 0xF0 :: body ++ [0xF7]
                /\ bool_decide (0xF0 ∉ body) = true /\ bool_decide (0xF7 ∉ body) = true) ->
  well_framed m.
Proof.
  intros (body & -> & H0%bool_decide_eq_true & H7%bool_decide_eq_true). by exists body.
Qed.

Lemma framers_split_concatenation_witness :
  _extract_sysex_messages_log (concat [Fixtures.msg_dev10; Fixtures.temp_patch_msg])
  = ([], [Fixtures.msg_dev10; Fixtures.temp_patch_msg])
  /\ JV.sysex_messages (concat [Fixtures.msg_dev10; Fixtures.temp_patch_msg])
     = [Fixtures.msg_dev10; Fixtures.temp_patch_msg].
Proof.
  apply (framers_split_concatenation [Fixtures.msg_dev10; Fixtures.temp_patch_msg]).
  repeat apply Forall_cons_2; [| |apply Forall_nil_2]; apply well_framed_example.
  - by exists [0x41; 0x10; 0x6A; 0x12; 0x01; 0x00; 0x00; 0x00; 65; 62].
  - by exists [0x41; 0x10; 0x6A; 0x12; 0x03; 0x00; 0x00; 0x01; 0x02; 0x03].
Defined.

(** Any list either has no F7, or splits at its first F7. *)
Lemma split_first_F7 (l : list Z) :
  0xF7 ∉ l \/ exists body rest, l = body ++ 0xF7 :: rest /\ 0xF7 ∉ body.
Proof.
  induction l as [|b l IH]; [left; apply not_elem_of_nil|].
  destruct (decide (b = 0xF7)) as [->|Hb].
  - right. exists [], l. split; [done | apply not_elem_of_nil].
  - destruct IH as [Hn|(body & rest & -> & Hn)].
    + left. by apply not_elem_of_cons.
    + right. exists (b :: body), rest. split; [done | by apply not_elem_of_cons].
Qed.

Lemma jv_frames_shape (n : nat) : forall data m,
  (length data <= n)%nat ->
  m ∈ JV.sysex_messages data ->
  (exists body, m = 0xF0 :: body ++ [0xF7] /\ 0xF7 ∉ body) /\ occurs_in m data.
Proof.
  induction n as [|n IH]; intros data m Hlen.
  - destruct data; [|simpl in Hlen; lia]. by intros ?%elem_of_nil.
  - destruct data as [|b data]; [by intros ?%elem_of_nil|].
    simpl in Hlen. destruct (decide (b = 0xF0)) as [->|Hb].
    + destruct (split_first_F7 data) as [Hn|(body & rest & -> & Hn)].
      * rewrite jv_frames_unterminated by done. by intros ?%elem_of_nil.
      * rewrite jv_frames_message by done.
        intros [->|Hm]%elem_of_cons.
        -- split; [by exists body|]. exists [], rest. simpl. by rewrite <- app_assoc.
        -- apply IH in Hm as [Hs (pre & post & Hr)].
           ++ split; [done|]. exists (0xF0 :: body ++ 0xF7 :: pre), post.
              rewrite Hr. simpl. by rewrite <- !app_assoc.
           ++ rewrite length_app in Hlen. simpl in Hlen. lia.
    + rewrite jv_frames_skip by done. intros Hm.
      apply IH in Hm as [Hs (pre & post & Hr)]; [|lia].
      split; [done|]. exists (b :: pre), post. by rewrite Hr.
Qed.

(** Every message the scan of the stand-alone decoder carves out starts
    with F0, ends with the first F7 after it, and occurs in the buffer as
    it stands; an F0 may occur inside it. *)
Theorem scanned_messages_shape data m :
  m ∈ JV.sysex_messages data ->
  (exists body, m = 0xF0 :: body ++ [0xF7] /\ 0xF7 ∉ body) /\ occurs_in m data.
Proof. by apply (jv_frames_shape (length data)). Qed.

Lemma scanned_messages_shape_witness :
  (exists body, Fixtures.nested_buffer = 0xF0 :: body ++ [0xF7] /\ 0xF7 ∉ body)
  /\ occurs_in Fixtures.nested_buffer (0x00 :: Fixtures.nested_buffer).
Proof.
  apply (scanned_messages_shape (0x00 :: Fixtures.nested_buffer)).
  apply (bool_decide_unpack _). vm_compute. exact I.
Defined.

(** ** Decoding a buffer that holds encoded messages *)

Lemma built_message_well_framed cfg dev A D :
  wire_clean ([manufacturer_id (info cfg); dev; model_id (info cfg);
               command_id_dt1 (info cfg)] ++ A ++ D) ->
  well_framed (header_of cfg dev ++ A ++ D ++ [_calculate_checksum (A ++ D); 0xF7]).
Proof.
  intros [H0 H7].
  exists ([manufacturer_id (info cfg); dev; model_id (info cfg); command_id_dt1 (info cfg)]
          ++ A ++ D ++ [_calculate_checksum (A ++ D)]).
  split; [unfold header_of; simpl; by rewrite <- !app_assoc|].
  pose proof (Z.mod_pos_bound (0x80 - Py.sum (A ++ D) mod 0x80) 0x80 ltac:(lia)) as Hc.
  fold (_calculate_checksum (A ++ D)) in Hc.
  split.
  - rewrite !app_assoc. rewrite not_elem_of_app. split; [by rewrite <- !app_assoc|].
    rewrite list_elem_of_singleton. lia.
  - rewrite !app_assoc. rewrite not_elem_of_app. split; [by rewrite <- !app_assoc|].
    rewrite list_elem_of_singleton. lia.
Qed.

Lemma parse_sysex_file_single cfg msg p :
  well_framed msg ->
  Py.get msg 5 <> Some 0x11 ->
  parse_sysex_message cfg msg = ([], Some p) ->
  raw_message p = msg ->
  parse_sysex_file cfg msg
  = ([(INFO, "Found SysEx messages"%string, [1]);
      (INFO, "Successfully parsed parameters"%string, [1])], Ok [p]).
Proof.
  intros Hwf Hsp Hp Hraw. unfold parse_sysex_file.
  replace msg with (concat [msg]) at 1 by (simpl; by rewrite app_nil_r).
  rewrite extract_concat by (by apply Forall_singleton).
  cbn [parse_messages length]. unfold parse_one.
  rewrite (bool_decide_eq_false_2 _ Hsp), andb_false_r, Hp.
  assert (Hset : set_raw_message msg p = p) by (destruct p; simpl in *; by subst).
  rewrite Hset. done.
Qed.

(** The round trip through a file: a message the encoder builds for a
    parameter outside the expansion address space, with no F0 or F7 among
    its identifiers, address and data, and written to a buffer on its
    own, is decoded by [parse_sysex_file] to exactly the one parameter it
    was built from, with the message as its raw message. *)
Theorem file_roundtrip cfg G P V dev g p :
  dict_get G (parameter_groups cfg) = Some g ->
  find_parameter P g = Some p ->
  (address_bytes_1_3 g).1.1 <> 0x11 ->
  sole_owner cfg G g p ->
  accepted p V ->
  (forall b, V <> VList [b]) ->
  wire_clean ([manufacturer_id (info cfg); dev; model_id (info cfg);
               command_id_dt1 (info cfg)] ++ address_of g p ++ data_of V) ->
  exists msg,
    build_sysex_message cfg G P V dev = Ok msg
    /\ parse_sysex_file cfg msg
       = ([(INFO, "Found SysEx messages"%string, [1]);
           (INFO, "Successfully parsed parameters"%string, [1])],
          Ok [ {| group_name := G; parameter_name := P; value := V;
                  address := address_of g p; raw_message := msg |} ]).
Proof.
  intros Hg Hp Hsp Hsole Hacc Hone Hclean.
  eexists. split; [by apply build_sysex_message_accepted|].
  assert (Hexp : is_expansion_performance G g = false).
  { unfold is_expansion_performance. by rewrite (proj2 (Z.eqb_neq _ _) Hsp). }
  pose proof (find_parameter_Some _ _ _ Hp) as [Hin HP].
  pose proof (plain_entry_assigned cfg G g p (dict_get_elem_of _ _ _ Hg) Hin Hexp) as Hent.
  pose proof (lookup_foldl_assign _ ∅ _ _ Hent Hsole) as Hlk.
  rewrite <- build_address_lookup_assignments in Hlk.
  pose proof (built_message_well_framed cfg dev (address_of g p) (data_of V) Hclean) as Hwf.
  unfold key_of in Hlk. unfold address_of in *.
  destruct (address_bytes_1_3 g) as [[b0 b1] b2]. rewrite HP in Hlk. cbn [fst] in Hsp.
  assert (Hv : value_of_data (data_of V) = V).
  { destruct V as [z|[|b [|b' l]]]; simpl; try done. by destruct (Hone b). }
  apply parse_sysex_file_single; [done| | |done].
  - unfold header_of, Py.get. simpl. congruence.
  - etransitivity;
      [exact (parse_sysex_message_wire cfg dev b0 b1 b2 (param_offset p) (data_of V)
                G P p Hlk)|].
    by rewrite Hv.
Qed.

Lemma file_roundtrip_witness :
  exists msg,
    build_sysex_message Fixtures.small_cfg "temp_performance_common" "EFX:Type"
      (VInt 7) 0x10 = Ok msg
    /\ parse_sysex_file Fixtures.small_cfg msg
       = ([(INFO, "Found SysEx messages"%string, [1]);
           (INFO, "Successfully parsed parameters"%string, [1])],
          Ok [ {| group_name := "temp_performance_common"; parameter_name := "EFX:Type";
                  value := VInt 7; address := [0x01; 0x00; 0x00; 0x0C];
                  raw_message := msg |} ]).
Proof.
  apply (file_roundtrip Fixtures.small_cfg "temp_performance_common" "EFX:Type" (VInt 7) 0x10
           {| address_bytes_1_3 := (0x01, 0x00, 0x00);
              parameters := [Fixtures.name_1; Fixtures.efx_type] |} Fixtures.efx_type).
  - reflexivity.
  - reflexivity.
  - simpl. lia.
  - apply (bool_decide_unpack _). vm_compute. exact I.
  - reflexivity.
  - discriminate.
  - split; apply (bool_decide_unpack _); vm_compute; exact I.
Defined.

(** A framed message whose checksum byte does not satisfy the checksum
    rule does not change what [parse_sysex_file] returns for the buffer:
    the messages before and after it are decoded as if it were not
    there. *)
Theorem corrupt_message_skipped cfg ms1 m ms2 :
  Forall well_framed (ms1 ++ m :: ms2) ->
  Py.get m (-2) <> Some (expected_checksum m) ->
  snd (parse_sysex_file cfg (concat (ms1 ++ m :: ms2)))
  = snd (parse_sysex_file cfg (concat (ms1 ++ ms2))).
Proof.
  intros Hall Hbad.
  assert (Hall' : Forall well_framed (ms1 ++ ms2)).
  { apply Forall_app in Hall as [H1 [_ H2]%Forall_cons]. by apply Forall_app. }
  rewrite !parse_sysex_file_messages. unfold _extract_sysex_messages.
  rewrite !extract_concat by done. cbn [snd].
  pose proof (verify_checksum_mismatch _ Hbad) as Hc.
  apply parse_messages_skip. intros k. apply parse_one_rejected.
  - by apply parse_sysex_message_bad_checksum.
  - intros _. by apply parse_bulk_data_message_bad_checksum.
Qed.

Lemma corrupt_message_skipped_witness :
  snd (parse_sysex_file Fixtures.small_cfg
         (concat ([Fixtures.msg_dev10] ++ Fixtures.msg_bad_checksum :: [Fixtures.msg_dev11])))
  = snd (parse_sysex_file Fixtures.small_cfg
           (concat ([Fixtures.msg_dev10] ++ [Fixtures.msg_dev11]))).
Proof.
  apply (corrupt_message_skipped Fixtures.small_cfg [Fixtures.msg_dev10]
           Fixtures.msg_bad_checksum [Fixtures.msg_dev11]).
  - repeat apply Forall_cons_2; [| | |apply Forall_nil_2]; apply well_framed_example.
    + by exists [0x41; 0x10; 0x6A; 0x12; 0x01; 0x00; 0x00; 0x00; 65; 62].
    + by exists [0x41; 0x10; 0x6A; 0x12; 0x01; 0x00; 0x00; 0x00; 65; 0].
    + by exists [0x41; 0x11; 0x6A; 0x12; 0x01; 0x00; 0x00; 0x00; 65; 62].
  - vm_compute. discriminate.
Defined.

(** C1 (as amended). For a group [G] of the catalog that is not expanded
    into performance slots, a parameter [P] of it whose address the index
    construction assigns to no other entry, and a value [V] the encoder
    accepts (a scalar within the bounds, or a byte list) that is not a
    one-element list, such that neither F0 nor F7 is among the identifier,
    address and data bytes: the encoder returns a message, the framer
    carves exactly that message out of it, and decoding it yields one
    ParsedParameter, with group [G], parameter [P] and value [V]. *)
Theorem encode_decode_roundtrip cfg G P V dev g p :
  dict_get G (parameter_groups cfg) = Some g ->
  find_parameter P g = Some p ->
  is_expansion_performance G g = false ->
  sole_owner cfg G g p ->
  accepted p V ->
  (forall b, V <> VList [b]) ->
  wire_clean ([manufacturer_id (info cfg); dev; model_id (info cfg);
               command_id_dt1 (info cfg)] ++ address_of g p ++ data_of V) ->
  exists msg,
    build_sysex_message cfg G P V dev = Ok msg
    /\ _extract_sysex_messages msg = [msg]
    /\ parse_sysex_message cfg msg
       = ([], Some {| group_name := G; parameter_name := P; value := V;
                      address := address_of g p; raw_message := msg |}).
Proof.
  intros Hg Hp Hexp Hsole Hacc Hone Hclean.
  eexists. split; [by apply build_sysex_message_accepted|]. split.
  - pose proof (built_message_well_framed cfg dev (address_of g p) (data_of V) Hclean) as Hwf.
    pose proof (extract_concat [_] (proj2 (Forall_singleton _ _) Hwf)) as Hex.
    cbn [concat] in Hex. rewrite app_nil_r in Hex.
    unfold _extract_sysex_messages. by rewrite Hex.
  - pose proof (find_parameter_Some _ _ _ Hp) as [Hin HP].
    pose proof (plain_entry_assigned cfg G g p (dict_get_elem_of _ _ _ Hg) Hin Hexp) as Hent.
    pose proof (lookup_foldl_assign _ ∅ _ _ Hent Hsole) as Hlk.
    rewrite <- build_address_lookup_assignments in Hlk.
    unfold key_of in Hlk. unfold address_of.
    destruct (address_bytes_1_3 g) as [[b0 b1] b2]. rewrite HP in Hlk.
    etransitivity;
      [exact (parse_sysex_message_wire cfg dev b0 b1 b2 (param_offset p) (data_of V)
                G P p Hlk)|].
    assert (Hv : value_of_data (data_of V) = V).
    { destruct V as [z|[|b [|b' l]]]; simpl; try done. by destruct (Hone b). }
    by rewrite Hv.
Qed.

Lemma encode_decode_roundtrip_witness :
  exists msg,
    build_sysex_message Fixtures.small_cfg "temp_performance_common" "Performance name 1"
      (VInt 65) 0x10 = Ok msg
    /\ _extract_sysex_messages msg = [msg]
    /\ parse_sysex_message Fixtures.small_cfg msg
       = ([], Some {| group_name := "temp_performance_common";
                      parameter_name := "Performance name 1"; value := VInt 65;
                      address := [0x01; 0x00; 0x00; 0x00]; raw_message := msg |}).
Proof.
  apply (encode_decode_roundtrip Fixtures.small_cfg "temp_performance_common"
           "Performance name 1" (VInt 65) 0x10
           {| address_bytes_1_3 := (0x01, 0x00, 0x00);
              parameters := [Fixtures.name_1; Fixtures.efx_type] |}
           Fixtures.name_1).
  - reflexivity.
  - reflexivity.
  - reflexivity.
  - apply (bool_decide_unpack _). vm_compute. exact I.
  - reflexivity.
  - intros b. discriminate.
  - split; apply (bool_decide_unpack _); vm_compute; exact I.
Defined.

(** C1, as stated, fails in four ways: a one-element byte list comes back
    as a scalar; a parameter of a slot-expanded group comes back under
    another group name; a byte list that holds an F7 is cut by the framer,
    and the file decoder finds no parameter in it; and a parameter whose
    address a later catalog entry also takes comes back under that
    entry's group. *)
Lemma encode_decode_roundtrip_counterexample :
  (exists msg pp,
      build_sysex_message Fixtures.small_cfg "temp_performance_common" "Performance name 1"
        (VList [65]) 0x10 = Ok msg /\
      snd (parse_sysex_message Fixtures.small_cfg msg) = Some pp /\
      value pp = VInt 65 /\ value pp <> VList [65])
  /\ (exists msg pp,
      build_sysex_message Fixtures.small_cfg "expansion_performance_common"
        "Performance name 1" (VInt 65) 0x10 = Ok msg /\
      snd (parse_sysex_message Fixtures.small_cfg msg) = Some pp /\
      group_name pp = "expansion_performance_common_perf_00"%string /\
      group_name pp <> "expansion_performance_common"%string)
  /\ (exists msg,
      build_sysex_message Fixtures.small_cfg "temp_performance_common" "Performance name 1"
        (VList [0xF7; 1]) 0x10 = Ok msg /\
      _extract_sysex_messages msg
      = [[0xF0; 0x41; 0x10; 0x6A; 0x12; 0x01; 0x00; 0x00; 0x00; 0xF7]] /\
      _extract_sysex_messages msg <> [msg] /\
      snd (parse_sysex_file Fixtures.small_cfg msg) = Ok [])
  /\ (exists msg pp,
      build_sysex_message Fixtures.rhythm_cfg "expansion_patch_part_2" "Tone switch"
        (VInt 1) 0x10 = Ok msg /\
      _extract_sysex_messages msg = [msg] /\
      snd (parse_sysex_message Fixtures.rhythm_cfg msg) = Some pp /\
      group_name pp = "expansion_rhythm_part_2"%string /\
      group_name pp <> "expansion_patch_part_2"%string).
Proof.
  split; [|split; [|split]].
  - eexists _, _. split; [reflexivity|]. split; [vm_compute; reflexivity|].
    split; [reflexivity | discriminate].
  - eexists _, _. split; [reflexivity|]. split; [vm_compute; reflexivity|].
    split; [reflexivity | discriminate].
  - eexists. split; [reflexivity|]. split; [vm_compute; reflexivity|].
    split; [vm_compute; discriminate | vm_compute; reflexivity].
  - eexists _, _. split; [reflexivity|]. split; [vm_compute; reflexivity|].
    split; [vm_compute; reflexivity|]. split; [reflexivity | discriminate].
Qed.

(** ** The address index and the catalog *)

Lemma foldl_assign_origin (l : list (address_key * lookup_value)) m k v :
  foldl assign m l !! k = Some v -> (k, v) ∈ l \/ m !! k = Some v.
Proof.
  induction l as [|[k' v'] l IH] using rev_ind; [by right|].
  rewrite foldl_app. simpl. unfold assign at 1. simpl.
  destruct (decide (k' = k)) as [->|Hne].
  - rewrite lookup_insert_eq. intros [= ->]. left. apply elem_of_app. right.
    by apply list_elem_of_singleton.
  - rewrite lookup_insert_ne by done. intros [H|H]%IH; [|by right].
    left. apply elem_of_app. by left.
Qed.

Lemma foldl_assign_is_Some (l : list (address_key * lookup_value)) m k :
  k ∈ l.*1 -> is_Some (foldl assign m l !! k).
Proof.
  induction l as [|[k' v'] l IH] using rev_ind; [by intros ?%elem_of_nil|].
  rewrite fmap_app, foldl_app. simpl. unfold assign at 1. simpl.
  destruct (decide (k' = k)) as [->|Hne].
  - intros _. rewrite lookup_insert_eq. by eexists.
  - rewrite lookup_insert_ne by done.
    intros [H|H%list_elem_of_singleton]%elem_of_app; [by apply IH | congruence].
Qed.

Lemma elem_of_group_assignments G g k v :
  (k, v) ∈ group_assignments G g <->
  exists p, p ∈ parameters g
    /\ v.2 = p /\ v.1.2 = param_name p
    /\ k.2 = param_offset p
    /\ k.1.1.1 = (address_bytes_1_3 g).1.1
    /\ k.1.2 = (address_bytes_1_3 g).2
    /\ (if is_expansion_performance G g
        then exists slot : nat, (slot < 64)%nat /\ k.1.1.2 = Z.of_nat slot
                                /\ v.1.1 = perf_group_name G (Z.of_nat slot)
        else k.1.1.2 = (address_bytes_1_3 g).1.2 /\ v.1.1 = G).
Proof.
  unfold group_assignments.
  destruct (address_bytes_1_3 g) as [[b0 b1] b2]. cbn [fst snd].
  destruct k as [[[k0 k1] k2] k3], v as [[vg vn] vp]. cbn [fst snd].
  destruct (is_expansion_performance G g).
  - rewrite list_elem_of_bind. split.
    + intros (slot & (p & [= -> -> -> -> -> -> ->] & Hp)%list_elem_of_fmap
              & Hs%elem_of_seq).
      exists p. repeat split; try done. exists slot. repeat split; (done || lia).
    + intros (p & Hp & -> & -> & -> & -> & -> & slot & Hs & -> & ->).
      exists slot. split; [|apply elem_of_seq; lia].
      apply list_elem_of_fmap. by exists p.
  - rewrite list_elem_of_fmap. split.
    + intros (p & [= -> -> -> -> -> -> ->] & Hp). exists p. by repeat split.
    + intros (p & Hp & -> & -> & -> & -> & -> & -> & ->). by exists p.
Qed.

(** Every entry of the address index comes from the catalog: it names a
    parameter of a catalog group by its own name, under the group's first
    and third address byte and the parameter's offset; for a plain group
    the second address byte and the group name are the group's, for a
    slot-expanded group the second byte is a slot below 64 and the group
    name carries the slot suffix. *)
Theorem address_index_sound cfg k Gn Pn p :
  _build_address_lookup cfg !! k = Some (Gn, Pn, p) ->
  exists G g,
    (G, g) ∈ parameter_groups cfg /\ p ∈ parameters g
    /\ Pn = param_name p
    /\ k.2 = param_offset p
    /\ k.1.1.1 = (address_bytes_1_3 g).1.1
    /\ k.1.2 = (address_bytes_1_3 g).2
    /\ (if is_expansion_performance G g
        then exists slot : nat, (slot < 64)%nat /\ k.1.1.2 = Z.of_nat slot
                                /\ Gn = perf_group_name G (Z.of_nat slot)
        else k.1.1.2 = (address_bytes_1_3 g).1.2 /\ Gn = G).
Proof.
  rewrite build_address_lookup_assignments.
  intros [Hin|Hin]%foldl_assign_origin; [|by rewrite lookup_empty in Hin].
  unfold index_assignments in Hin. apply list_elem_of_bind in Hin as ([G g] & Hin & Hg).
  cbn [fst snd] in Hin. apply elem_of_group_assignments in Hin
    as (q & Hq & Hp & Hn & Hoff & Hb0 & Hb2 & Hslot).
  cbn [fst snd] in Hp, Hn, Hslot. subst q.
  exists G, g. split; [done|]. split; [done|]. split; [done|]. split; [done|].
  split; [done|]. split; [done|]. exact Hslot.
Qed.

Lemma address_index_sound_witness :
  exists G g,
    (G, g) ∈ parameter_groups Fixtures.small_cfg /\ Fixtures.efx_type ∈ parameters g
    /\ "EFX:Type"%string = param_name Fixtures.efx_type
    /\ (0x01, 0x00, 0x00, 0x0C).2 = param_offset Fixtures.efx_type
    /\ (0x01, 0x00, 0x00, 0x0C).1.1.1 = (address_bytes_1_3 g).1.1
    /\ (0x01, 0x00, 0x00, 0x0C).1.2 = (address_bytes_1_3 g).2
    /\ (if is_expansion_performance G g
        then exists slot : nat, (slot < 64)%nat
               /\ (0x01, 0x00, 0x00, 0x0C).1.1.2 = Z.of_nat slot
               /\ "temp_performance_common"%string = perf_group_name G (Z.of_nat slot)
        else (0x01, 0x00, 0x00, 0x0C).1.1.2 = (address_bytes_1_3 g).1.2
             /\ "temp_performance_common"%string = G).
Proof.
  apply (address_index_sound Fixtures.small_cfg (0x01, 0x00, 0x00, 0x0C)
           "temp_performance_common" "EFX:Type" Fixtures.efx_type).
  vm_compute. reflexivity.
Defined.

(** Every parameter of the catalog can be addressed: the index has an
    entry at the address of each parameter of a plain group, and at each
    of the 64 slot addresses of each parameter of a slot-expanded
    group. *)
Theorem address_index_complete cfg G g p :
  (G, g) ∈ parameter_groups cfg -> p ∈ parameters g ->
  if is_expansion_performance G g
  then forall slot : nat, (slot < 64)%nat ->
         is_Some (_build_address_lookup cfg
                  !! ((address_bytes_1_3 g).1.1, Z.of_nat slot, (address_bytes_1_3 g).2,
                      param_offset p))
  else is_Some (_build_address_lookup cfg !! key_of g p).
Proof.
  intros Hg Hp. rewrite build_address_lookup_assignments.
  assert (Hgen : forall k v, (k, v) ∈ group_assignments G g ->
                             is_Some (foldl assign ∅ (index_assignments cfg) !! k)).
  { intros k v Hkv. apply foldl_assign_is_Some. apply list_elem_of_fmap.
    exists (k, v). split; [done|]. unfold index_assignments.
    apply list_elem_of_bind. by exists (G, g). }
  destruct (is_expansion_performance G g) eqn:Hexp.
  - intros slot Hs.
    apply (Hgen _ (perf_group_name G (Z.of_nat slot), param_name p, p)).
    apply elem_of_group_assignments. exists p. rewrite Hexp. cbn [fst snd].
    repeat split; try done. by exists slot.
  - apply (Hgen _ (G, param_name p, p)).
    apply elem_of_group_assignments. exists p. rewrite Hexp. unfold key_of.
    by destruct (address_bytes_1_3 g) as [[b0 b1] b2].
Qed.

Lemma address_index_complete_witness :
  is_Some (_build_address_lookup Fixtures.small_cfg
           !! (0x11, Z.of_nat 63, 0x00, param_offset Fixtures.name_1))
  /\ is_Some (_build_address_lookup Fixtures.small_cfg
              !! (0x01, 0x00, 0x00, param_offset Fixtures.efx_type)).
Proof.
  split.
  - assert (Hslots : forall slot : nat, (slot < 64)%nat ->
               is_Some (_build_address_lookup Fixtures.small_cfg
                        !! (0x11, Z.of_nat slot, 0x00, param_offset Fixtures.name_1))).
    { apply (address_index_complete Fixtures.small_cfg "expansion_performance_common"
               {| address_bytes_1_3 := (0x11, 0x00, 0x00);
                  parameters := [Fixtures.name_1] |}
               Fixtures.name_1).
      - apply (bool_decide_unpack _). vm_compute. exact I.
      - apply (bool_decide_unpack _). vm_compute. exact I. }
    apply (Hslots 63%nat). lia.
  - apply (address_index_complete Fixtures.small_cfg "temp_performance_common"
             {| address_bytes_1_3 := (0x01, 0x00, 0x00);
                parameters := [Fixtures.name_1; Fixtures.efx_type] |}
             Fixtures.efx_type).
    + apply (bool_decide_unpack _). vm_compute. exact I.
    + apply (bool_decide_unpack _). vm_compute. exact I.
Defined.

(** ** What the single-message decoder returns *)

(** [parse_sysex_message] returns a parameter exactly when the message
    passes the header test and the checksum test, has at least 10 bytes,
    and the index has an entry at its bytes 5 to 8; the parameter then
    carries the names of that entry, these four bytes as its address, the
    bytes from index 9 up to the checksum as its value (a single byte as
    an integer), and the message itself. *)
Theorem parse_sysex_message_characterised cfg message p :
  snd (parse_sysex_message cfg message) = Some p <->
  _validate_roland_header cfg message = true
  /\ _verify_checksum message = true
  /\ (10 <= length message)%nat
  /\ exists a0 a1 a2 a3 q,
       Py.slice 5 9 message = [a0; a1; a2; a3]
       /\ _build_address_lookup cfg !! (a0, a1, a2, a3)
          = Some (group_name p, parameter_name p, q)
       /\ address p = [a0; a1; a2; a3]
       /\ value p = value_of_data (Py.slice 9 (-2) message)
       /\ raw_message p = message.
Proof.
  unfold parse_sysex_message.
  destruct (_validate_roland_header cfg message); simpl; [|split; [done | by intros [? _]]].
  destruct (_verify_checksum message); simpl; [|split; [done | by intros (_ & ? & _)]].
  destruct (Nat.ltb_spec (length message) 10) as [Hlt|Hge].
  { split; [done | intros (_ & _ & ? & _); lia]. }
  destruct (Py.slice 5 9 message) as [|a0 [|a1 [|a2 [|a3 [|a4 l]]]]] eqn:Hs;
    try (split; [done | by intros (_ & _ & _ & ? & ? & ? & ? & ? & ? & _)]).
  destruct (_build_address_lookup cfg !! (a0, a1, a2, a3)) as [[[Gn Pn] q]|] eqn:Hl; simpl.
  - split.
    + intros [= <-]. repeat split; try done. by exists a0, a1, a2, a3, q.
    + intros (_ & _ & _ & b0 & b1 & b2 & b3 & q' & [= <- <- <- <-] & Hl' & Ha & Hv & Hr).
      rewrite Hl in Hl'. injection Hl' as -> -> _.
      destruct p. simpl in *. by subst.
  - split; [done|].
    intros (_ & _ & _ & b0 & b1 & b2 & b3 & q' & [= <- <- <- <-] & Hl' & _). congruence.
Qed.

Lemma parse_sysex_message_characterised_witness :
  _validate_roland_header Fixtures.small_cfg Fixtures.msg_dev10 = true
  /\ _verify_checksum Fixtures.msg_dev10 = true
  /\ (10 <= length Fixtures.msg_dev10)%nat
  /\ exists a0 a1 a2 a3 q,
       Py.slice 5 9 Fixtures.msg_dev10 = [a0; a1; a2; a3]
       /\ _build_address_lookup Fixtures.small_cfg !! (a0, a1, a2, a3)
          = Some ("temp_performance_common"%string, "Performance name 1"%string, q)
       /\ [0x01; 0x00; 0x00; 0x00] = [a0; a1; a2; a3]
       /\ VInt 65 = value_of_data (Py.slice 9 (-2) Fixtures.msg_dev10)
       /\ Fixtures.msg_dev10 = Fixtures.msg_dev10.
Proof.
  apply (proj1 (parse_sysex_message_characterised Fixtures.small_cfg Fixtures.msg_dev10
                  {| group_name := "temp_performance_common";
                     parameter_name := "Performance name 1"; value := VInt 65;
                     address := [0x01; 0x00; 0x00; 0x00];
                     raw_message := Fixtures.msg_dev10 |})).
  vm_compute. reflexivity.
Defined.

(** ** The block parsers of the bulk decoder *)

Lemma bulk_fields_positional gname addr data defs : forall i,
  length (bulk_fields gname addr data i defs) = (length defs `min` (length data - i))%nat
  /\ forall j name info raw,
       defs !! j = Some (name, info) -> data !! (i + j)%nat = Some raw ->
       bulk_fields gname addr data i defs !! j
       = Some (bulk_field gname (addr (Z.of_nat (i + j))) name info raw).
Proof.
  induction defs as [|[name0 info0] defs IH]; intros i; cbn [bulk_fields].
  - split; [done|]. intros j name info raw Hd. by rewrite lookup_nil in Hd.
  - destruct (data !! i) as [raw0|] eqn:Hi.
    + destruct (IH (S i)) as [Hlen Hpos]. split.
      * cbn [length]. rewrite Hlen. apply lookup_lt_Some in Hi. lia.
      * intros [|j] name info raw Hd Hr.
        -- injection Hd as -> ->. rewrite Nat.add_0_r in *. rewrite Hi in Hr.
           injection Hr as ->. done.
        -- replace (i + S j)%nat with (S i + j)%nat in * by lia.
           by apply Hpos.
    + apply lookup_ge_None in Hi. split.
      * cbn [length]. lia.
      * intros j name info raw _ Hr. apply lookup_lt_Some in Hr. lia.
Qed.

(** The performance block parsers read their fields by position: a part
    block yields as many parameters as the shorter of the definitions and
    the payload, the parameter at position [j] being the definition at
    [j] applied to the byte at [j]; a common block shorter than 12 bytes
    yields nothing, a longer one the 12-byte name followed by as many
    fields as the shorter of the definitions and the bytes after the
    name. Bytes without a definition and definitions without a byte are
    passed over. *)
Theorem performance_blocks_positional cfg perf_slot data_bytes :
  (forall part_num,
      let defs := _get_part_parameter_definitions cfg part_num in
      let ps := _parse_part_bulk_data cfg perf_slot part_num data_bytes in
      length ps = (length defs `min` length data_bytes)%nat
      /\ forall (j : nat) name info raw,
           defs !! j = Some (name, info) -> data_bytes !! j = Some raw ->
           ps !! j
           = Some (bulk_field
                     ("expansion_performance_part_" +:+ pretty part_num
                      +:+ "_perf_" +:+ fmt_02d perf_slot)
                     [0x11; perf_slot; 0x10 + (part_num - 1) * 2; Z.of_nat j]
                     name info raw))
  /\ (let defs := _get_common_parameter_definitions cfg in
      let ps := _parse_common_bulk_data cfg perf_slot data_bytes in
      ((length data_bytes < 12)%nat -> ps = [])
      /\ ((12 <= length data_bytes)%nat ->
          length ps = S (length defs `min` (length data_bytes - 12))%nat
          /\ ps !! 0%nat
             = Some {| group_name := "expansion_performance_common_perf_"
                                     +:+ fmt_02d perf_slot;
                       parameter_name := "Performance name";
                       value := VList (take 12 data_bytes);
                       address := [0x11; perf_slot; 0x00; 0x00]; raw_message := [] |}
          /\ forall (j : nat) name info raw,
               defs !! j = Some (name, info) -> data_bytes !! (12 + j)%nat = Some raw ->
               ps !! S j
               = Some (bulk_field
                         ("expansion_performance_common_perf_" +:+ fmt_02d perf_slot)
                         [0x11; perf_slot; 0x00; 0x0C + Z.of_nat j] name info raw))).
Proof.
  split.
  - intros part_num defs ps. subst ps. unfold _parse_part_bulk_data. fold defs.
    destruct (bulk_fields_positional
                ("expansion_performance_part_" +:+ pretty part_num
                 +:+ "_perf_" +:+ fmt_02d perf_slot)
                (fun i => [0x11; perf_slot; 0x10 + (part_num - 1) * 2; i])
                data_bytes defs 0%nat) as [Hlen Hpos].
    split; [rewrite Hlen; lia|]. intros j name info raw Hd Hr. by apply Hpos.
  - intros defs ps. subst ps. unfold _parse_common_bulk_data. fold defs. split.
    + intros Hlt. by destruct (Nat.ltb_spec (length data_bytes) 12); [|lia].
    + intros Hge. destruct (Nat.ltb_spec (length data_bytes) 12); [lia|].
      destruct (bulk_fields_positional
                  ("expansion_performance_common_perf_" +:+ fmt_02d perf_slot)
                  (fun i => [0x11; perf_slot; 0x00; 0x0C + i])
                  (Py.slice_from 12 data_bytes) defs 0%nat) as [Hlen Hpos].
      assert (Hfrom : Py.slice_from 12 data_bytes = drop 12 data_bytes).
      { unfold Py.slice_from. change 12 with (Z.of_nat 12). rewrite clamp_nonneg.
        by rewrite Nat.min_l by lia. }
      assert (Hname : Py.slice 0 12 data_bytes = take 12 data_bytes).
      { change 0 with (Z.of_nat 0). change 12 with (Z.of_nat 12).
        by rewrite slice_nat. }
      split; [|split].
      * cbn [length]. rewrite Hlen, Hfrom, length_drop. lia.
      * cbn [lookup list_lookup]. by rewrite Hname.
      * intros j name info raw Hd Hr. change (?x :: ?l) with ([x] ++ l).
        rewrite lookup_app_r by (simpl; lia). cbn [length].
        replace (S j - 1)%nat with j by lia.
        apply Hpos; [done|]. by rewrite Hfrom, lookup_drop.
Qed.

Lemma offset_fields_nonneg gname base data params :
  Forall (fun p => 0 <= param_offset p) params ->
  offset_fields gname base data params
  = Ok (group_field gname base data
        <$> filter (fun p => param_offset p < Z.of_nat (length data)) params).
Proof.
  induction params as [|p params IH]; intros Hall; [done|].
  apply Forall_cons in Hall as [Hp Hall]. cbn [offset_fields].
  rewrite filter_cons. rewrite (IH Hall).
  destruct (Z.ltb_spec (param_offset p) (Z.of_nat (length data))) as [Hlt|Hge].
  - rewrite decide_True by done.
    unfold Py.get. destruct (Z.ltb_spec (param_offset p) 0); [lia|].
    destruct (data !! Z.to_nat (param_offset p)) as [v|] eqn:Hv.
    + simpl. unfold group_field. by rewrite Hv.
    + apply lookup_ge_None in Hv. lia.
  - by rewrite decide_False by lia.
Qed.

(** The patch and rhythm block parsers. For a block whose group the
    catalog does not define they raise [IndexError]. For a defined group
    with offsets that are not negative they never raise: they yield, in
    catalog order, one parameter for each catalog entry whose offset lies
    within the payload, holding the byte stored at that offset as it is,
    and pass over the entries beyond the payload. *)
Theorem group_block_fields cfg group_key perf_slot data_bytes :
  match dict_get group_key (parameter_groups cfg) with
  | None => parse_group_bulk_data cfg group_key perf_slot data_bytes = Raise IndexError
  | Some group_info =>
      Forall (fun p => 0 <= param_offset p) (parameters group_info) ->
      parse_group_bulk_data cfg group_key perf_slot data_bytes
      = Ok (group_field (group_key +:+ "_perf_" +:+ fmt_02d perf_slot)
              [0x11; perf_slot; (address_bytes_1_3 group_info).2] data_bytes
            <$> filter (fun p => param_offset p < Z.of_nat (length data_bytes))
                       (parameters group_info))
  end.
Proof.
  unfold parse_group_bulk_data.
  destruct (dict_get group_key (parameter_groups cfg)) as [g|]; [|done].
  intros Hall. by apply offset_fields_nonneg.
Qed.

Lemma group_block_fields_witness :
  parse_group_bulk_data Fixtures.rhythm_cfg "expansion_rhythm_part_63" 0 [0x01; 0x02]
  = Ok [ {| group_name := "expansion_rhythm_part_63_perf_00";
            parameter_name := "Tone switch"; value := VInt 1;
            address := [0x11; 0; 0x61; 0x00]; raw_message := [] |} ].
Proof.
  pose proof (group_block_fields Fixtures.rhythm_cfg "expansion_rhythm_part_63" 0
                [0x01; 0x02]) as H.
  change (dict_get "expansion_rhythm_part_63" (parameter_groups Fixtures.rhythm_cfg))
    with (Some {| address_bytes_1_3 := (0x11, 0x00, 0x61);
                  parameters := [Fixtures.tone_switch] |}) in H.
  cbv beta iota in H. rewrite H; [reflexivity|].
  apply Forall_singleton. simpl. lia.
Defined.

(** ** The stand-alone decoder: what it emits *)

Lemma block_fields_entry to_string gname payload addr raw table p :
  p ∈ JV.block_fields to_string gname payload addr raw table ->
  exists off len ty,
    (JV.parameter_name p, (off, len, ty)) ∈ table
    /\ match ty with
       | JV.DInt => exists z, JV.value p = JV.VInt z
       | JV.DArray => exists l, JV.value p = JV.VList l
       | JV.DString => exists s, JV.value p = JV.VStr s
       end.
Proof.
  induction table as [|[name [[off len] ty]] table IH]; cbn [JV.block_fields];
    [by intros ?%elem_of_nil|].
  assert (Hrest : p ∈ JV.block_fields to_string gname payload addr raw table ->
                  exists off' len' ty',
                    (JV.parameter_name p, (off', len', ty')) ∈ (name, (off, len, ty)) :: table
                    /\ match ty' with
                       | JV.DInt => exists z, JV.value p = JV.VInt z
                       | JV.DArray => exists l, JV.value p = JV.VList l
                       | JV.DString => exists s, JV.value p = JV.VStr s
                       end).
  { intros (off' & len' & ty' & Hin & Hv)%IH. exists off', len', ty'.
    split; [by apply list_elem_of_further | done]. }
  destruct (off + len <=? Z.of_nat (length payload)); [|done].
  destruct ty; simpl.
  - intros [->|Hin]%elem_of_cons; [|by apply Hrest].
    exists off, len, JV.DString. split; [apply list_elem_of_here | by eexists].
  - intros [->|Hin]%elem_of_cons; [|by apply Hrest].
    exists off, len, JV.DArray. split; [apply list_elem_of_here | by eexists].
  - destruct (Py.get payload off) as [z|]; simpl; [|done].
    intros [->|Hin]%elem_of_cons; [|by apply Hrest].
    exists off, len, JV.DInt. split; [apply list_elem_of_here | by eexists].
Qed.

Lemma common_bank_is_int payload addr raw p :
  p ∈ snd (JV._parse_common_block payload addr raw) ->
  JV.parameter_name p = "bank"%string -> exists z, JV.value p = JV.VInt z.
Proof.
  unfold JV._parse_common_block.
  destruct (length payload <? 72)%nat; [by intros ?%elem_of_nil|]. cbn [snd].
  intros (off & len & ty & Hin & Hv)%block_fields_entry Hn. rewrite Hn in Hin.
  assert (Hall : Forall (fun e : string * (Z * Z * JV.data_type) =>
                           String.eqb e.1 "bank" = true -> e.2.2 = JV.DInt)
                        JV.common_params).
  { unfold JV.common_params.
    repeat (apply Forall_cons_2; [cbn; intros H; (discriminate H || reflexivity)|]).
    apply Forall_nil_2. }
  rewrite Forall_forall in Hall. specialize (Hall _ Hin eq_refl). simpl in Hall.
  by subst ty.
Qed.

Lemma tone_name_not_common n : "Tone" +:+ n <> "Common"%string.
Proof. discriminate. Qed.

Lemma temp_name_not_common n : "TempTone" +:+ n <> "Common"%string.
Proof. discriminate. Qed.

Lemma jv_common_block_shape payload addr raw p :
  p ∈ snd (JV._parse_common_block payload addr raw) ->
  JV.address p = addr /\ JV.group_name p = "Common"%string.
Proof.
  unfold JV._parse_common_block.
  destruct (length payload <? 72)%nat; cbn [snd]; [by intros ?%elem_of_nil|].
  by intros (? & ? & ?)%block_fields_elem_of.
Qed.

Lemma jv_tone_block_shape payload addr raw p :
  p ∈ snd (JV._parse_tone_block payload addr raw) ->
  JV.address p = addr /\ JV.group_name p = "Tone"%string.
Proof.
  unfold JV._parse_tone_block.
  destruct (length payload <? 58)%nat; cbn [snd]; [by intros ?%elem_of_nil|].
  by intros (? & ? & ?)%block_fields_elem_of.
Qed.

(** Shape of the parameters of one message. *)
Lemma jv_message_parameters_shape sysex_msg p :
  p ∈ snd (JV._parse_sysex_message sysex_msg) ->
  exists h m l,
    JV.address p = [h; m; l]
    /\ Py.slice 5 8 sysex_msg = [h; m; l]
    /\ h ∈ [0x11; 0x03] /\ l ∈ [0x00; 0x10; 0x12; 0x14; 0x16]
    /\ JV.group_name p = block_name h l
    /\ assemblable p.
Proof.
  unfold JV._parse_sysex_message.
  destruct (Nat.ltb_spec (length sysex_msg) 8) as [|Hlen]; [by intros ?%elem_of_nil|].
  destruct (bool_decide (Py.slice 0 5 sysex_msg = _)); cbn [negb];
    [|by intros ?%elem_of_nil].
  destruct sysex_msg as [|b0 [|b1 [|b2 [|b3 [|b4 [|h [|m [|l rest]]]]]]]];
    try (cbn [length] in Hlen; lia).
  set (msg := b0 :: b1 :: b2 :: b3 :: b4 :: h :: m :: l :: rest).
  change (Py.get msg 5) with (Some h). change (Py.get msg 6) with (Some m).
  change (Py.get msg 7) with (Some l). cbv beta iota.
  assert (Hslice : Py.slice 5 8 msg = [h; m; l]).
  { change 5 with (Z.of_nat 5). change 8 with (Z.of_nat 8). by rewrite slice_nat. }
  rewrite Hslice.
  generalize (Py.slice 8 (-1) msg). intros payload. clearbody msg.
  destruct (bool_decide (h ∈ [0x11; 0x03])) eqn:Hh; cbn [negb];
    [|by intros ?%elem_of_nil].
  apply bool_decide_eq_true in Hh.
  destruct (Z.eqb_spec h 0x11) as [Hh11|Hh11]; cbn [andb].
  - subst h. destruct (Z.eqb_spec l 0x00) as [Hl0|Hl0].
    + subst l.
      destruct (JV._parse_common_block payload [17; m; 0] msg) as [lg ps] eqn:Hc.
      cbn [snd]. intros Hp.
      assert (Hp' : p ∈ snd (JV._parse_common_block payload [17; m; 0] msg))
        by (by rewrite Hc).
      destruct (jv_common_block_shape _ _ _ _ Hp') as [Ha Hg].
      exists 17, m, 0. split; [done|]. split; [done|]. split; [done|].
      split; [apply list_elem_of_here|]. split; [done|].
      split; [rewrite Ha; cbn [length]; lia|].
      unfold JV.is_common. rewrite andb_true_iff, !bool_decide_eq_true.
      intros [_ Hn]. by apply (common_bank_is_int payload [17; m; 0] msg).
    + destruct (bool_decide (l ∈ [0x10; 0x12; 0x14; 0x16])) eqn:Hl.
      * apply bool_decide_eq_true in Hl.
        destruct (JV._parse_tone_block payload [17; m; l] msg) as [lg ps] eqn:Hc.
        cbn [snd]. intros (q & -> & Hq)%list_elem_of_fmap.
        assert (Hq' : q ∈ snd (JV._parse_tone_block payload [17; m; l] msg))
          by (by rewrite Hc).
        destruct (jv_tone_block_shape _ _ _ _ Hq') as [Ha Hg].
        exists 17, m, l. cbn [JV.set_group_name JV.address JV.group_name].
        split; [done|]. split; [done|]. split; [done|].
        split; [by apply list_elem_of_further|]. split.
        -- unfold block_name. change (17 =? 17) with true. cbv beta iota.
           by destruct (Z.eqb_spec l 0).
        -- split; [cbn [JV.set_group_name JV.address]; rewrite Ha; cbn [length]; lia|].
           unfold JV.is_common. cbn [JV.set_group_name JV.group_name].
           rewrite andb_true_iff, bool_decide_eq_true. intros [Hn _].
           by apply tone_name_not_common in Hn.
      * change (17 =? 3) with false. cbn [andb snd]. by intros ?%elem_of_nil.
  - assert (Hh3 : h = 3).
    { apply elem_of_cons in Hh as [?|Hh]; [done|]. by apply list_elem_of_singleton in Hh. }
    subst h.
    change (3 =? 3) with true. cbn [andb].
    destruct (bool_decide (l ∈ [0x00; 0x10; 0x12; 0x14; 0x16])) eqn:Hl;
      [|by intros ?%elem_of_nil].
    apply bool_decide_eq_true in Hl.
    destruct payload as [|param_id [|msb [|lsb payload']]]; cbn [snd];
      try by intros ?%elem_of_nil.
    intros ->%list_elem_of_singleton. exists 3, m, l.
    cbn [JV.address JV.group_name].
    split; [done|]. split; [done|].
    split; [apply list_elem_of_further, list_elem_of_here|]. split; [done|].
    split; [unfold block_name; by change (3 =? 17) with false|].
    split; [cbn [JV.address length]; lia|].
    unfold JV.is_common. cbn [JV.group_name JV.parameter_name].
    rewrite andb_true_iff, bool_decide_eq_true. intros [Hn _].
    destruct (l =? 0); [discriminate Hn | by apply temp_name_not_common in Hn].
Qed.

Lemma jv_parse_all_shape msgs p :
  p ∈ snd (JV.parse_all msgs) ->
  exists sysex_msg, sysex_msg ∈ msgs /\ p ∈ snd (JV._parse_sysex_message sysex_msg).
Proof.
  induction msgs as [|msg msgs IH]; cbn [JV.parse_all]; [by intros ?%elem_of_nil|].
  destruct (JV._parse_sysex_message msg) as [lg ps] eqn:Hm.
  destruct (JV.parse_all msgs) as [lg' ps']. cbn [snd] in *.
  intros [Hp|Hp]%elem_of_app.
  - exists msg. split; [apply list_elem_of_here | by rewrite Hm].
  - destruct (IH Hp) as (m' & ? & ?). exists m'. split; [by apply list_elem_of_further | done].
Qed.

(** Every parameter the stand-alone decoder returns for a buffer belongs
    to one of its four kinds of block: its address is the three bytes
    after the header of one of the carved messages, the first of them
    0x11 or 0x03 and the third 0x00, 0x10, 0x12, 0x14 or 0x16, and its
    group name is the one of that block (Common, Tone1 to Tone4,
    TempCommon, TempTone1 to TempTone4). *)
Theorem jv_decoded_parameter_shape data p :
  p ∈ snd (JV.parse_sysex_file data) ->
  exists sysex_msg h m l,
    sysex_msg ∈ JV.sysex_messages data
    /\ JV.address p = [h; m; l]
    /\ Py.slice 5 8 sysex_msg = [h; m; l]
    /\ h ∈ [0x11; 0x03] /\ l ∈ [0x00; 0x10; 0x12; 0x14; 0x16]
    /\ JV.group_name p = block_name h l.
Proof.
  rewrite jv_parse_sysex_file_parameters.
  intros (msg & Hmsg & (h & m & l & Ha & Hs & Hh & Hl & Hg & _)%jv_message_parameters_shape)
           %jv_parse_all_shape.
  by exists msg, h, m, l.
Qed.

Lemma jv_decoded_parameter_shape_witness :
  exists sysex_msg h m l,
    sysex_msg ∈ JV.sysex_messages Fixtures.temp_patch_msg
    /\ JV.address Fixtures.temp_param = [h; m; l]
    /\ Py.slice 5 8 sysex_msg = [h; m; l]
    /\ h ∈ [0x11; 0x03] /\ l ∈ [0x00; 0x10; 0x12; 0x14; 0x16]
    /\ JV.group_name Fixtures.temp_param = block_name h l.
Proof.
  apply (jv_decoded_parameter_shape Fixtures.temp_patch_msg Fixtures.temp_param).
  apply (bool_decide_unpack _). vm_compute. exact I.
Defined.

Lemma decoder_output_assemblable data :
  Forall assemblable (snd (JV.parse_sysex_file data)).
Proof.
  apply Forall_forall. intros p. rewrite jv_parse_sysex_file_parameters.
  intros (msg & _ & (h & m & l & _ & _ & _ & _ & _ & Ha)%jv_message_parameters_shape)
           %jv_parse_all_shape.
  done.
Qed.

(** The assembler never raises on what the decoder returns: for every
    buffer, grouping the decoded parameters into patches gives a list of
    presets. *)
Theorem assembler_total_on_decoder_output data :
  exists presets,
    JV.group_parameters_into_patches (snd (JV.parse_sysex_file data)) = Ok presets.
Proof. apply assembler_total, decoder_output_assemblable. Qed.

(** ** Names and numbers of the assembled presets *)

Lemma labelled_new param : labelled (JV.record_param param (JV.new_preset param)).
Proof.
  unfold labelled, JV.record_param, JV.new_preset.
  cbn [JV.name JV.parameters JV.patch_number JV.preset_type].
  rewrite !last_common_snoc. unfold JV.last_common. cbn [foldl].
  split; [|split; [|done]].
  - by destruct (JV.is_common param "patch_name").
  - by destruct (JV.is_common param "patch_number").
Qed.

Lemma labelled_record param preset :
  labelled preset -> labelled (JV.record_param param preset).
Proof.
  intros (Hn & Hp & Ht). unfold labelled, JV.record_param.
  cbn [JV.name JV.parameters JV.patch_number JV.preset_type].
  rewrite !last_common_snoc. split; [|split; [|done]].
  - by destruct (JV.is_common param "patch_name").
  - by destruct (JV.is_common param "patch_number").
Qed.

Lemma dict_set_values {K V} `{EqDecision K} (k : K) (v : V) (d : list (K * V)) x :
  x ∈ (dict_set k v d).*2 -> x = v \/ x ∈ d.*2.
Proof.
  induction d as [|[k0 v0] d IH]; simpl.
  - intros ->%list_elem_of_singleton. by left.
  - destruct (decide (k0 = k)) as [->|Hne]; simpl.
    + intros [->|Hx]%elem_of_cons; [by left|]. right. by apply list_elem_of_further.
    + intros [->|Hx]%elem_of_cons; [right; apply list_elem_of_here|].
      destruct (IH Hx) as [->|?]; [by left|]. right. by apply list_elem_of_further.
Qed.

Lemma group_loop_labelled params : forall patches patches',
  Forall labelled patches.*2 ->
  JV.group_loop patches params = Ok patches' -> Forall labelled patches'.*2.
Proof.
  induction params as [|param params IH]; intros patches patches' Hall; cbn [JV.group_loop].
  - by intros [= <-].
  - destruct (JV.group_step patches param) as [patches1|e] eqn:Hs; simpl; [|done].
    apply IH. unfold JV.group_step in Hs.
    destruct (Py.get (JV.address param) 1) as [k|]; [|done]. injection Hs as <-.
    apply Forall_forall. intros x [->|Hx]%dict_set_values.
    + destruct (dict_get k patches) as [preset|] eqn:Hg; simpl.
      * apply labelled_record. rewrite Forall_forall in Hall. apply Hall.
        apply list_elem_of_fmap. exists (k, preset). split; [done|].
        by apply dict_get_elem_of.
      * apply labelled_new.
    + rewrite Forall_forall in Hall. by apply Hall.
Qed.

(** Every assembled preset is named after the last patch name of its
    Common block (its text as decoded), or 'Unknown' when its slot has
    none; its patch number is the last patch number of its Common block;
    and its type is 'JV-1080 Patch'. *)
Theorem preset_labels all_params presets preset :
  JV.group_parameters_into_patches all_params = Ok presets ->
  preset ∈ presets ->
  JV.name preset
  = default "Unknown"%string
      (JV.str <$> JV.last_common "patch_name" (JV.parameters preset))
  /\ JV.patch_number preset = JV.last_common "patch_number" (JV.parameters preset)
  /\ JV.preset_type preset = "JV-1080 Patch"%string.
Proof.
  unfold JV.group_parameters_into_patches.
  destruct (JV.group_loop [] all_params) as [patches|e] eqn:Hl; simpl; [|done].
  intros Ha Hin.
  pose proof (group_loop_labelled all_params [] patches (Forall_nil_2 _) Hl) as Hall.
  pose proof (assign_all_spec _ _ Ha) as Hf.
  apply list_elem_of_lookup in Hin as [i Hi].
  destruct (Forall2_lookup_r _ _ _ _ _ Hf Hi) as (pre & Hpre & Hab).
  assert (Hlab : labelled pre).
  { rewrite Forall_forall in Hall. apply Hall. by apply list_elem_of_lookup_2 in Hpre. }
  destruct Hlab as (Hn & Hp & Ht).
  unfold JV.assign_bank_select in Hab.
  destruct (JV.bank_select _ _) as [[[m l] pcv]|e]; simpl in Hab; [|done].
  injection Hab as <-. done.
Qed.

Lemma preset_labels_witness :
  JV.name (Fixtures.first_preset Fixtures.bank_32_msg)
  = default "Unknown"%string
      (JV.str <$> JV.last_common "patch_name"
                    (JV.parameters (Fixtures.first_preset Fixtures.bank_32_msg)))
  /\ JV.patch_number (Fixtures.first_preset Fixtures.bank_32_msg)
     = JV.last_common "patch_number"
         (JV.parameters (Fixtures.first_preset Fixtures.bank_32_msg))
  /\ JV.preset_type (Fixtures.first_preset Fixtures.bank_32_msg) = "JV-1080 Patch"%string.
Proof.
  apply (preset_labels (snd (JV.parse_sysex_file Fixtures.bank_32_msg))
           [Fixtures.first_preset Fixtures.bank_32_msg]).
  - vm_compute. reflexivity.
  - apply list_elem_of_here.
Defined.

(** ** The assembler of new.py *)

Lemma elem_of_insert x y l : y ∈ New.insert x l <-> y = x \/ y ∈ l.
Proof.
  induction l as [|z l IH]; simpl.
  - rewrite list_elem_of_singleton. split; [by left | by intros [?|?%elem_of_nil]].
  - destruct (New.key_lt z x).
    + rewrite !elem_of_cons, IH. tauto.
    + rewrite !elem_of_cons. tauto.
Qed.

Lemma elem_of_sorted y l : y ∈ New.sorted l <-> y ∈ l.
Proof.
  induction l as [|x l IH]; simpl; [done|].
  by rewrite elem_of_insert, IH, elem_of_cons.
Qed.

Lemma dict_get_const {K V} `{EqDecision K} (k : K) (v : V) (l : list K) :
  dict_get k ((fun b => (b, v)) <$> l) = if decide (k ∈ l) then Some v else None.
Proof.
  induction l as [|k0 l IH]; [simpl | rewrite fmap_cons; cbn [dict_get]].
  - destruct (decide (k ∈ [])) as [Hin|]; [by apply elem_of_nil in Hin | done].
  - destruct (decide (k0 = k)) as [->|Hne].
    + rewrite decide_True; [done | apply list_elem_of_here].
    + rewrite IH. destruct (decide (k ∈ l)) as [Hin|Hin].
      * rewrite decide_True; [done | by apply list_elem_of_further].
      * rewrite decide_False; [done|]. intros [?|?]%elem_of_cons; congruence.
Qed.

Lemma dict_get_range {V} (v : V) (idx : Z) (n : nat) : forall a : nat,
  dict_get idx ((fun i => (Z.of_nat i, v)) <$> seq a n)
  = if bool_decide (Z.of_nat a <= idx < Z.of_nat a + Z.of_nat n) then Some v else None.
Proof.
  induction n as [|n IH]; intros a; [simpl | cbn [seq]; rewrite fmap_cons; cbn [dict_get]].
  - rewrite bool_decide_eq_false_2; [done | lia].
  - destruct (decide (Z.of_nat a = idx)) as [<-|Hne].
    + rewrite bool_decide_eq_true_2; [done | lia].
    + rewrite IH. apply (f_equal (fun b : bool => if b then Some v else None)).
      apply bool_decide_ext. lia.
Qed.

Lemma filed_snoc idx block seen p :
  filed idx block (seen ++ [p])
  = filed idx block seen
    ++ (if decide (New.patch_index p = idx /\ New.group_name p = block) then [p] else []).
Proof. unfold filed. by rewrite filter_app. Qed.

Lemma bucketing_empty : bucketing New.empty_buckets [].
Proof.
  intros idx block. unfold New.empty_buckets.
  rewrite (dict_get_range _ idx 128 0).
  destruct (decide (0 <= idx < 128)) as [Hi|Hi].
  - rewrite bool_decide_eq_true_2 by (simpl; lia).
    unfold mbind, option_bind. cbv beta iota.
    rewrite dict_get_const. destruct (decide (block ∈ New.blocks)) as [Hb|Hb].
    + by rewrite bool_decide_eq_true_2.
    + rewrite bool_decide_eq_false_2; [done | tauto].
  - rewrite bool_decide_eq_false_2 by (simpl; lia).
    unfold mbind, option_bind. cbv beta iota.
    rewrite bool_decide_eq_false_2; [done | tauto].
Qed.

Lemma bucketing_step buckets seen p :
  bucketing buckets seen -> bucketing (New.bucket_step buckets p) (seen ++ [p]).
Proof.
  intros Hinv idx block. rewrite filed_snoc. unfold New.bucket_step.
  destruct (Z.leb_spec 0 (New.patch_index p)) as [Hlo|Hlo]; simpl.
  2:{ rewrite Hinv. destruct (bool_decide _) eqn:Hd; [|done].
      apply bool_decide_eq_true in Hd. rewrite decide_False by lia.
      by rewrite app_nil_r. }
  destruct (Z.ltb_spec (New.patch_index p) 128) as [Hhi|Hhi]; simpl.
  2:{ rewrite Hinv. destruct (bool_decide _) eqn:Hd; [|done].
      apply bool_decide_eq_true in Hd. rewrite decide_False by lia.
      by rewrite app_nil_r. }
  pose proof (Hinv (New.patch_index p) (New.group_name p)) as Hp.
  destruct (dict_get (New.patch_index p) buckets) as [bkt|] eqn:Hbkt; simpl in Hp.
  2:{ destruct (bool_decide _) eqn:Hd; [done|].
      rewrite Hinv. destruct (bool_decide (_ /\ block ∈ _)) eqn:Hd'; [|done].
      apply bool_decide_eq_true in Hd' as [? ?].
      apply bool_decide_eq_false in Hd.
      rewrite decide_False; [by rewrite app_nil_r|].
      intros [<- <-]. apply Hd. done. }
  destruct (dict_get (New.group_name p) bkt) as [l|] eqn:Hl.
  2:{ destruct (bool_decide _) eqn:Hd; [done|]. apply bool_decide_eq_false in Hd.
      rewrite Hinv. destruct (bool_decide (_ /\ block ∈ _)) eqn:Hd'; [|done].
      apply bool_decide_eq_true in Hd' as [? ?].
      rewrite decide_False; [by rewrite app_nil_r|].
      intros [<- <-]. apply Hd. done. }
  destruct (bool_decide _) eqn:Hd; [|done]. apply bool_decide_eq_true in Hd as [_ Hblk].
  injection Hp as ->.
  rewrite dict_get_set.
  destruct (decide (New.patch_index p = idx)) as [<-|Hne]; simpl.
  - rewrite dict_get_set.
    destruct (decide (New.group_name p = block)) as [<-|Hnb].
    + rewrite bool_decide_eq_true_2 by (split; [lia | done]).
      by rewrite decide_True.
    + pose proof (Hinv (New.patch_index p) block) as Hq. rewrite Hbkt in Hq.
      simpl in Hq. rewrite Hq. rewrite decide_False by tauto.
      destruct (bool_decide _); [by rewrite app_nil_r | done].
  - rewrite Hinv. rewrite decide_False by tauto.
    destruct (bool_decide _); [by rewrite app_nil_r | done].
Qed.

Lemma bucketing_loop params : forall buckets seen,
  bucketing buckets seen -> bucketing (foldl New.bucket_step buckets params) (seen ++ params).
Proof.
  induction params as [|p params IH]; intros buckets seen Hinv; simpl.
  - by rewrite app_nil_r.
  - change (p :: params) with ([p] ++ params). rewrite (assoc_L (++) seen [p] params).
    apply IH. by apply bucketing_step.
Qed.

Lemma bucket_filed params idx block :
  0 <= idx < 128 -> block ∈ New.blocks ->
  New.bucket (foldl New.bucket_step New.empty_buckets params) idx block
  = filed idx block params.
Proof.
  intros Hi Hb. unfold New.bucket.
  rewrite (bucketing_loop params New.empty_buckets [] bucketing_empty idx block).
  by rewrite bool_decide_eq_true_2.
Qed.

Lemma elem_of_filed p idx block params :
  p ∈ filed idx block params
  <-> p ∈ params /\ New.patch_index p = idx /\ New.group_name p = block.
Proof. unfold filed. rewrite list_elem_of_filter. tauto. Qed.

(** The preset the second pass makes for an index. *)
Lemma assemble_spec params idx :
  0 <= idx < 128 ->
  match New.assemble (foldl New.bucket_step New.empty_buckets params) idx with
  | None => filed idx "Common" params = []
  | Some preset =>
      filed idx "Common" params <> []
      /\ New.name preset = New.patch_name (filed idx "Common" params)
      /\ New.preset_type preset = "patch"%string
      /\ forall p, p ∈ New.parameters preset
                   <-> p ∈ params /\ New.patch_index p = idx /\ New.group_name p ∈ New.blocks
  end.
Proof.
  intros Hi. unfold New.assemble.
  assert (Hblk : forall b, b ∈ New.blocks
                           <-> b = "Common"%string \/ b = "Tone1"%string
                               \/ b = "Tone2"%string \/ b = "Tone3"%string
                               \/ b = "Tone4"%string).
  { intros b. unfold New.blocks. rewrite !elem_of_cons, elem_of_nil. tauto. }
  rewrite !bucket_filed by (done || (apply Hblk; tauto)).
  destruct (filed idx "Common" params) as [|c cs] eqn:Hc; [done|].
  split; [done|]. split; [done|]. split; [done|].
  intros p. cbn [New.parameters]. rewrite elem_of_sorted, <- Hc.
  rewrite !elem_of_app, !elem_of_filed, Hblk. tauto.
Qed.

Lemma new_presets_elem_of params preset :
  preset ∈ New.group_parameters_into_patches params
  <-> exists idx,
        0 <= idx < 128
        /\ New.assemble (foldl New.bucket_step New.empty_buckets params) idx = Some preset.
Proof.
  unfold New.group_parameters_into_patches. rewrite list_elem_of_omap. split.
  - intros (idx & Hidx & Ha). exists idx. split; [|done].
    apply list_elem_of_fmap in Hidx as (i & -> & Hi). apply elem_of_seq in Hi. lia.
  - intros (idx & Hi & Ha). exists idx. split; [|done].
    apply list_elem_of_fmap. exists (Z.to_nat idx).
    split; [lia|]. apply elem_of_seq. lia.
Qed.

(** The assembler of new.py makes a preset for a patch index exactly when
    a parameter of group 'Common' is filed under it: every preset holds a
    Common parameter, all its parameters carry one patch index within
    0..127, and it holds exactly the parameters of the five blocks filed
    under that index; an index with a Common parameter has a preset; and
    a stream without a Common parameter gives no preset at all, so the
    tone parameters of an index without a Common block are left out. *)
Theorem new_assembler_requires_common params :
  let presets := New.group_parameters_into_patches params in
  (forall preset,
      preset ∈ presets ->
      exists idx,
        0 <= idx < 128
        /\ (exists c, c ∈ New.parameters preset /\ New.group_name c = "Common"%string)
        /\ New.preset_type preset = "patch"%string
        /\ forall p, p ∈ New.parameters preset
                     <-> p ∈ params /\ New.patch_index p = idx
                         /\ New.group_name p ∈ New.blocks)
  /\ (forall c,
        c ∈ params -> New.group_name c = "Common"%string -> 0 <= New.patch_index c < 128 ->
        exists preset, preset ∈ presets /\ c ∈ New.parameters preset)
  /\ ((forall p, p ∈ params -> New.group_name p <> "Common"%string) -> presets = []).
Proof.
  intros presets.
  pose proof (new_presets_elem_of params) as Hsome. fold presets in Hsome.
  clearbody presets.
  assert (Hfirst : forall preset,
             preset ∈ presets ->
             exists idx,
               0 <= idx < 128
               /\ (exists c, c ∈ New.parameters preset /\ New.group_name c = "Common"%string)
               /\ New.preset_type preset = "patch"%string
               /\ forall p, p ∈ New.parameters preset
                            <-> p ∈ params /\ New.patch_index p = idx
                                /\ New.group_name p ∈ New.blocks).
  { intros preset (idx & Hi & Ha)%Hsome. exists idx. split; [done|].
    pose proof (assemble_spec params idx Hi) as Hs. rewrite Ha in Hs.
    destruct Hs as (Hne & _ & Ht & Hp). split; [|done].
    destruct (filed idx "Common" params) as [|c cs] eqn:Hc; [done|].
    assert (Hin : c ∈ filed idx "Common" params)
      by (rewrite Hc; apply list_elem_of_here).
    apply elem_of_filed in Hin as (Hin & Hidx & Hg).
    exists c. split; [|done]. apply Hp. rewrite Hg. repeat split; try done.
    apply list_elem_of_here. }
  split; [exact Hfirst|]. split.
  - intros c Hc Hg Hi.
    pose proof (assemble_spec params (New.patch_index c) Hi) as Hs.
    destruct (New.assemble _ _) as [preset|] eqn:Ha.
    + destruct Hs as (_ & _ & _ & Hp). exists preset. split.
      * apply Hsome. by exists (New.patch_index c).
      * apply Hp. rewrite Hg. repeat split; try done. apply list_elem_of_here.
    + assert (Hin : c ∈ filed (New.patch_index c) "Common" params)
        by (by apply elem_of_filed).
      rewrite Hs in Hin. by apply elem_of_nil in Hin.
  - intros Hnone. destruct presets as [|preset rest]; [done|].
    destruct (Hfirst preset (list_elem_of_here _ _)) as (idx & _ & (c & Hc & Hg) & _ & Hp).
    apply Hp in Hc as (Hc & _). by destruct (Hnone c Hc).
Qed.

Lemma new_assembler_requires_common_witness :
  New.group_parameters_into_patches [new_param "Tone1" "level" 5] = []
  /\ New.parameters
     <$> New.group_parameters_into_patches
           [new_param "Tone1" "level" 5; new_param "Tone1" "level" 3;
            new_param "Common" "patch_name" 3]
     = [[new_param "Common" "patch_name" 3; new_param "Tone1" "level" 3]].
Proof.
  split.
  - apply (proj2 (proj2 (new_assembler_requires_common [new_param "Tone1" "level" 5]))).
    intros p ->%list_elem_of_singleton. discriminate.
  - vm_compute. reflexivity.
Defined.

(** ** File names *)

Lemma lstrip_suffix chars s : exists pre, s = pre ++ JV.lstrip chars s.
Proof.
  induction s as [|c s [pre IH]]; simpl; [by exists []|].
  destruct (bool_decide (c ∈ chars)); [|by exists []].
  exists (c :: pre). simpl. by f_equal.
Qed.

Lemma lstrip_head chars s c : head (JV.lstrip chars s) = Some c -> c ∉ chars.
Proof.
  induction s as [|c' s IH]; simpl; [done|].
  destruct (bool_decide (c' ∈ chars)) eqn:Hc; [done|].
  simpl. intros [= <-]. by apply bool_decide_eq_false in Hc.
Qed.

Lemma lstrip_fixed chars s :
  (forall c, head s = Some c -> c ∉ chars) -> JV.lstrip chars s = s.
Proof.
  destruct s as [|c s]; simpl; [done|]. intros H.
  by rewrite bool_decide_eq_false_2 by (by apply H).
Qed.

Lemma rstrip_prefix chars s : exists post, s = JV.rstrip chars s ++ post.
Proof.
  unfold JV.rstrip. destruct (lstrip_suffix chars (reverse s)) as [pre Hpre].
  exists (reverse pre). rewrite <- reverse_app, <- Hpre. by rewrite reverse_involutive.
Qed.

Lemma rstrip_last chars s c : last (JV.rstrip chars s) = Some c -> c ∉ chars.
Proof. unfold JV.rstrip. rewrite last_reverse. apply lstrip_head. Qed.

Lemma rstrip_fixed chars s :
  (forall c, last s = Some c -> c ∉ chars) -> JV.rstrip chars s = s.
Proof.
  intros H. unfold JV.rstrip. rewrite lstrip_fixed; [apply reverse_involutive|].
  intros c. rewrite head_reverse. apply H.
Qed.

Lemma last_suffix {A} (pre t : list A) c : last t = Some c -> last (pre ++ t) = Some c.
Proof.
  intros H. destruct t as [|x t] using rev_ind; [done|].
  rewrite app_assoc, !last_snoc in *. done.
Qed.

(** What [strip] leaves: a part of the text that neither begins nor ends
    with one of the characters. *)
Lemma strip_spec chars s :
  (exists pre post, s = pre ++ Names.strip chars s ++ post)
  /\ (forall c, head (Names.strip chars s) = Some c -> c ∉ chars)
  /\ (forall c, last (Names.strip chars s) = Some c -> c ∉ chars).
Proof.
  unfold Names.strip.
  destruct (rstrip_prefix chars s) as [post Hpost].
  destruct (lstrip_suffix chars (JV.rstrip chars s)) as [pre Hpre].
  split; [|split].
  - exists pre, post. rewrite app_assoc, <- Hpre. done.
  - intros c. apply lstrip_head.
  - intros c Hc. apply (rstrip_last chars s). rewrite Hpre. by apply last_suffix.
Qed.

Lemma strip_fixed chars s :
  (forall c, head s = Some c -> c ∉ chars) -> (forall c, last s = Some c -> c ∉ chars) ->
  Names.strip chars s = s.
Proof.
  intros Hh Hl. unfold Names.strip. by rewrite rstrip_fixed, lstrip_fixed.
Qed.

Lemma safe_classes c :
  Names.is_safe c = true -> Names.is_reserved c = false /\ Names.is_space c = false.
Proof.
  destruct c as [[] [] [] [] [] [] [] []]; vm_compute;
    intros H; (discriminate H || (split; reflexivity)).
Qed.

Lemma replace_reserved_safe s :
  Forall (fun c => Names.is_safe c = true) s -> Names.replace_reserved s = s.
Proof.
  unfold Names.replace_reserved. induction 1 as [|c s Hc _ IH]; [done|].
  rewrite fmap_cons, IH. by destruct (safe_classes c Hc) as [-> _].
Qed.

Lemma replace_spaces_safe s :
  Forall (fun c => Names.is_safe c = true) s -> Names.replace_spaces false s = s.
Proof.
  induction 1 as [|c s Hc _ IH]; [done|]. simpl.
  destruct (safe_classes c Hc) as [_ ->]. by rewrite IH.
Qed.

Lemma remove_unsafe_safe s :
  Forall (fun c => Names.is_safe c = true) s -> Names.remove_unsafe s = s.
Proof.
  unfold Names.remove_unsafe. induction 1 as [|c s Hc _ IH]; [done|].
  simpl. by rewrite Hc, IH.
Qed.

Lemma remove_unsafe_Forall s : Forall (fun c => Names.is_safe c = true) (Names.remove_unsafe s).
Proof.
  unfold Names.remove_unsafe. apply Forall_forall. intros c Hc.
  apply list_elem_of_In, filter_In in Hc. tauto.
Qed.

(** For a name of ASCII characters, [sanitize_filename] returns a name
    that is not empty, is made of letters, digits, hyphens, underscores
    and dots only, and neither begins nor ends with a dot or an
    underscore; and a name it returns is left as it is when sanitized
    again. *)
Theorem sanitize_filename_safe (name : string) :
  Forall (fun c => (Names.code c < 128)%nat) (String.list_ascii_of_string name) ->
  let r := String.list_ascii_of_string (Names.sanitize_filename name) in
  r <> []
  /\ Forall (fun c => Names.is_safe c = true) r
  /\ (forall c, head r = Some c -> c <> Names.DOT /\ c <> Names.UNDERSCORE)
  /\ (forall c, last r = Some c -> c <> Names.DOT /\ c <> Names.UNDERSCORE)
  /\ Names.sanitize_filename (Names.sanitize_filename name) = Names.sanitize_filename name.
Proof.
  intros _ r. unfold r, Names.sanitize_filename.
  set (u := Names.remove_unsafe _).
  destruct (strip_spec [Names.DOT; Names.UNDERSCORE] u) as ((pre & post & Hu) & Hh & Hl).
  assert (Hsafe : Forall (fun c => Names.is_safe c = true)
                         (Names.strip [Names.DOT; Names.UNDERSCORE] u)).
  { pose proof (remove_unsafe_Forall
                  (Names.replace_spaces false
                     (Names.replace_reserved (String.list_ascii_of_string name)))) as Hall.
    fold u in Hall. rewrite Hu in Hall.
    by apply Forall_app in Hall as [_ [? _]%Forall_app]. }
  destruct (Names.strip [Names.DOT; Names.UNDERSCORE] u) as [|c t] eqn:Ht.
  - split; [done|]. split.
    { apply (bool_decide_unpack _). vm_compute. exact I. }
    split; [intros c [= <-]; split; discriminate|].
    split; [intros c [= <-]; split; discriminate|]. reflexivity.
  - rewrite String.list_ascii_of_string_of_list_ascii.
    split; [done|]. split; [done|].
    assert (Hends : forall x : Ascii.ascii,
               x ∉ [Names.DOT; Names.UNDERSCORE] -> x <> Names.DOT /\ x <> Names.UNDERSCORE).
    { intros x Hx. split; intros ->; apply Hx; [apply list_elem_of_here|].
      apply list_elem_of_further, list_elem_of_here. }
    split; [intros x Hx; by apply Hends, Hh|].
    split; [intros x Hx; by apply Hends, Hl|].
    rewrite replace_reserved_safe, replace_spaces_safe, remove_unsafe_safe by done.
    by rewrite strip_fixed.
Qed.

Lemma sanitize_filename_safe_witness :
  Names.sanitize_filename " My Patch: 1/2 ." = "My_Patch__1_2"%string
  /\ Names.sanitize_filename (Names.sanitize_filename " My Patch: 1/2 .")
     = Names.sanitize_filename " My Patch: 1/2 ."
  /\ Names.sanitize_filename "..." = "untitled"%string.
Proof.
  split; [reflexivity|]. split; [|reflexivity].
  apply (sanitize_filename_safe " My Patch: 1/2 .").
  apply (bool_decide_unpack _). vm_compute. exact I.
Defined.
